(** * nojima-monitor: the price monitor of [src/main.py]

    The development follows the class [NojimaPriceMonitor].

    - [PyStr]     Python [str] values as sequences of code points, with the
                  string methods the monitor calls;
    - [Re]        the backtracking matcher behind the regular expressions of
                  the monitor ([re.search], [re.findall], [re.sub]);
    - [Soup]      the document tree of [BeautifulSoup(html, 'html.parser')]
                  with [find_all], [find] and [get_text];
    - [Extractor] [extract_price] and [extract_product_name];
    - [Json]      the values, the encoder and the decoder of [json];
    - [Monitor]   the store, the history file, [check_price], the
                  notifications and the loop of [monitor];
    - [Settings]  the list of urls that [__init__] reads;
    - [Notions], [Samples]  what the statements speak of, and sample data;
    - the modules of facts and, after each, the properties of the monitor.

    Conventions.  A Python [str] is a [list Z] of code points.  The HTML
    parser belongs to the library: a page is represented by the tree the
    parser builds for it.  A function that can raise returns a [Result];
    [try]/[except] is [try_except].  [None] of Python is [None] of
    [option].  What the libraries do ([re], [bs4], [json], [requests]) is
    written out as far as the monitor depends on it. *)

From Stdlib Require Import String.
From Stdlib Require Import ZArith List Bool Lia Ascii.
From Stdlib Require Import Floats.SpecFloat.
From Stdlib Require DecimalFacts DecimalPos.
Import ListNotations.
Local Open Scope Z_scope.
Set Warnings "-register-all".

(* ================================================================== *)
(** ** Python strings *)

Module PyStr.

(** A [str]: the sequence of its code points. *)
Definition pystr := list Z.

(** An ASCII literal of the source. *)
Definition lit (s : String.string) : pystr :=
  map (fun a => Z.of_N (N_of_ascii a)) (String.list_ascii_of_string s).
Arguments lit s%_string_scope.

Fixpoint eqb (a b : pystr) : bool :=
  match a, b with
  | [], [] => true
  | x :: a', y :: b' => (x =? y) && eqb a' b'
  | _, _ => false
  end.

(** [str.isspace] on one character, which is also the class [\s] of [re]
    on [str] patterns. *)
Definition isspace (c : Z) : bool :=
  ((9 <=? c) && (c <=? 13)) || ((28 <=? c) && (c <=? 32))
  || (c =? 133) || (c =? 160) || (c =? 5760)
  || ((8192 <=? c) && (c <=? 8202))
  || (c =? 8232) || (c =? 8233) || (c =? 8239) || (c =? 8287)
  || (c =? 12288).

Fixpoint lstrip (s : pystr) : pystr :=
  match s with
  | c :: s' => if isspace c then lstrip s' else s
  | [] => []
  end.

Definition rstrip (s : pystr) : pystr := rev (lstrip (rev s)).

(** [s.strip()] *)
Definition strip (s : pystr) : pystr := rstrip (lstrip s).

(** [s.replace(',', '')] *)
Definition remove_commas (s : pystr) : pystr :=
  filter (fun c => negb (c =? 44)) s.

Definition isdigit (c : Z) : bool := (48 <=? c) && (c <=? 57).

(** [int(s)] on a string of the class [[0-9]*]: the empty string raises
    [ValueError] ([None]).  The interpreter also raises [ValueError] on
    more than 4300 digits; such a number is far above every bound used
    here, and both outcomes make the caller move to the next candidate. *)
Fixpoint int_digits (acc : Z) (s : pystr) : option Z :=
  match s with
  | [] => Some acc
  | c :: s' => if isdigit c then int_digits (10 * acc + (c - 48)) s' else None
  end.

Definition int (s : pystr) : option Z :=
  match s with
  | [] => None
  | _ => int_digits 0 s
  end.

(** [' '.join(items)] *)
Fixpoint join_space (items : list pystr) : pystr :=
  match items with
  | [] => []
  | [x] => x
  | x :: rest => x ++ 32 :: join_space rest
  end.

End PyStr.
Import PyStr.

(* ================================================================== *)
(** ** Regular expressions

    [re] matches by backtracking: a pattern tries its alternatives from
    left to right, greedy repetitions take the longest run first and give
    characters back when the rest of the pattern fails.  A pattern is
    written in continuation style: [k] is the rest of the pattern, the
    argument [s] the text still to read. *)

Module Re.

Section Combinators.
Variable R : Type.
Definition cont := pystr -> option R.

(** one character of the class [p] *)
Definition chr (p : Z -> bool) (k : cont) : cont :=
  fun s => match s with
           | c :: s' => if p c then k s' else None
           | [] => None
           end.

(** [p?] *)
Definition opt (p : Z -> bool) (k : cont) : cont :=
  fun s => match s with
           | c :: s' =>
               if p c then
                 match k s' with Some r => Some r | None => k s end
               else k s
           | [] => k s
           end.

(** [p*] *)
Fixpoint star (p : Z -> bool) (k : cont) (s : pystr) : option R :=
  match s with
  | c :: s' =>
      if p c then
        match star p k s' with Some r => Some r | None => k s end
      else k s
  | [] => k s
  end.

(** [p+] *)
Definition plus (p : Z -> bool) (k : cont) : cont := chr p (star p k).

(** [p{3,}] *)
Definition atleast3 (p : Z -> bool) (k : cont) : cont :=
  chr p (chr p (chr p (star p k))).

(** a literal, each character compared with [eqc] *)
Fixpoint literal (eqc : Z -> Z -> bool) (l : pystr) (k : cont) : cont :=
  match l with
  | [] => k
  | x :: l' => chr (eqc x) (literal eqc l' k)
  end.

(** [$] without [re.M]: the end of the text, or just before a newline
    that ends the text *)
Definition dollar (k : cont) : cont :=
  fun s => match s with
           | [] => k s
           | [10] => k s
           | _ => None
           end.

(** [re.search]: the first position where the pattern matches *)
Fixpoint search (m : cont) (s : pystr) : option R :=
  match m s with
  | Some r => Some r
  | None => match s with
            | [] => None
            | _ :: s' => search m s'
            end
  end.
End Combinators.

Arguments chr {R} p k s.
Arguments opt {R} p k s.
Arguments star {R} p k s.
Arguments plus {R} p k s.
Arguments atleast3 {R} p k s.
Arguments literal {R} eqc l k s.
Arguments dollar {R} k s.
Arguments search {R} m s.

(** the text a group matched, from the texts left at its two ends *)
Definition captured (s_start s_end : pystr) : pystr :=
  firstn (length s_start - length s_end) s_start.

(** [.] without [re.S] *)
Definition dot (c : Z) : bool := negb (c =? 10).

(** a lower-case pattern character under [re.I]: its two cases and the
    few letters that fold to an ASCII one (dotted capital and dotless
    small i, long s, the Kelvin sign) *)
Definition eq_ignorecase (x c : Z) : bool :=
  (c =? x)
  || ((97 <=? x) && (x <=? 122) && (c =? x - 32))
  || ((x =? 105) && ((c =? 304) || (c =? 305)))
  || ((x =? 115) && (c =? 383))
  || ((x =? 107) && (c =? 8490)).

(** [re.findall] for a pattern with one group that matches no empty text:
    the groups of the successive matches, each search starting where the
    previous match ended.  The pattern returns its group and the text
    left after the match; [skip] counts the characters of the current
    match still to pass. *)
Fixpoint findall_from (m : pystr -> option (pystr * pystr)) (skip : nat)
         (s : pystr) : list pystr :=
  match s with
  | [] => []
  | _ :: s' =>
      match skip with
      | S n => findall_from m n s'
      | O =>
          match m s with
          | Some (g, rest) =>
              g :: findall_from m (length s - length rest - 1) s'
          | None => findall_from m 0 s'
          end
      end
  end.

Definition findall (m : pystr -> option (pystr * pystr)) (s : pystr)
  : list pystr := findall_from m 0 s.

(** [re.sub(pattern, '', s)] for a pattern that matches no empty text:
    every match is cut out, the search resuming after it.  The pattern
    returns the text left after the match. *)
Fixpoint sub_empty_from (m : pystr -> option pystr) (skip : nat)
         (s : pystr) : pystr :=
  match s with
  | [] => []
  | c :: s' =>
      match skip with
      | S n => sub_empty_from m n s'
      | O =>
          match m s with
          | Some rest => sub_empty_from m (length s - length rest - 1) s'
          | None => c :: sub_empty_from m 0 s'
          end
      end
  end.

Definition sub_empty (m : pystr -> option pystr) (s : pystr) : pystr :=
  sub_empty_from m 0 s.

End Re.

(* ================================================================== *)
(** ** The document tree *)

Module Soup.

(** An attribute value: a string, or for the multi-valued attributes of
    HTML ([class] among them) the list of its whitespace-separated
    values. *)
Inductive AttrValue :=
| AttrStr (v : pystr)
| AttrList (vs : list pystr).

(** The classes of the strings that stand inside the tags of the
    library's [string_containers]: the body of a [script], of a [style],
    of a [template], of an [rt] and of an [rp]. *)
Inductive StringClass :=
| Script
| Stylesheet
| TemplateString
| RubyTextString
| RubyParenthesisString.

(** The nodes of the tree.  [NavigableString] is ordinary text (a [CData]
    section counts as such); [Comment] stands for the strings that no
    [get_text] returns (comments, declarations, the doctype, processing
    instructions); [ContainerString] is a string of one of the classes
    above. *)
Inductive PageElement :=
| NavigableString (s : pystr)
| Comment (s : pystr)
| ContainerString (kind : StringClass) (s : pystr)
| Tag (name : pystr) (attrs : list (pystr * AttrValue))
      (contents : list PageElement).

(** The [BeautifulSoup] object: the top-level nodes of the document. *)
Definition BeautifulSoup := list PageElement.

(** [element.descendants]: document order *)
Fixpoint descendants (e : PageElement) : list PageElement :=
  match e with
  | Tag _ _ contents => flat_map (fun c => c :: descendants c) contents
  | _ => []
  end.

Definition soup_descendants (soup : BeautifulSoup) : list PageElement :=
  flat_map (fun c => c :: descendants c) soup.

(** [builder.string_containers]: the class of the strings of a tag, for
    the tags that have one *)
Definition string_containers (name : pystr) : option StringClass :=
  if PyStr.eqb name (lit "rt") then Some RubyTextString
  else if PyStr.eqb name (lit "rp") then Some RubyParenthesisString
  else if PyStr.eqb name (lit "style") then Some Stylesheet
  else if PyStr.eqb name (lit "script") then Some Script
  else if PyStr.eqb name (lit "template") then Some TemplateString
  else None.

Definition same_class (a b : StringClass) : bool :=
  match a, b with
  | Script, Script => true
  | Stylesheet, Stylesheet => true
  | TemplateString, TemplateString => true
  | RubyTextString, RubyTextString => true
  | RubyParenthesisString, RubyParenthesisString => true
  | _, _ => false
  end.

(** [_all_strings(types=...)]: the strings at and below the node that are
    of the wanted class, in document order, put together.  [None] asks
    for ordinary text, as every tag outside [string_containers] does, and
    the document itself. *)
Fixpoint all_strings (types : option StringClass) (e : PageElement) : pystr :=
  match e with
  | NavigableString s =>
      match types with
      | None => s
      | Some _ => []
      end
  | Comment _ => []
  | ContainerString kind s =>
      match types with
      | Some wanted => if same_class wanted kind then s else []
      | None => []
      end
  | Tag _ _ contents => flat_map (all_strings types) contents
  end.

(** [element.get_text()]: a tag asks for the strings of its own class
    ([interesting_string_types]), so a [script] returns its body, which
    the text of the tags around it and of the document leaves out *)
Definition get_text (e : PageElement) : pystr :=
  match e with
  | Tag name _ contents =>
      flat_map (all_strings (string_containers name)) contents
  | _ => all_strings None e
  end.

(** [soup.get_text()] *)
Definition soup_get_text (soup : BeautifulSoup) : pystr :=
  flat_map (all_strings None) soup.

(** [attrs.get(name)] *)
Fixpoint attrs_get (attrs : list (pystr * AttrValue)) (name : pystr)
  : option AttrValue :=
  match attrs with
  | [] => None
  | (k, v) :: rest => if PyStr.eqb k name then Some v else attrs_get rest name
  end.

(** What an attribute is searched for: a compiled pattern (its [search]
    as a test) or a string. *)
Inductive SearchValue :=
| Pattern (found : pystr -> bool)
| Exactly (s : pystr).

Definition matches_str (v : pystr) (against : SearchValue) : bool :=
  match against with
  | Pattern found => found v
  | Exactly s => PyStr.eqb v s
  end.

(** The library's attribute test: an absent attribute matches nothing; a
    list matches when one of its values does, or their join by spaces. *)
Definition matches (value : option AttrValue) (against : SearchValue)
  : bool :=
  match value with
  | None => false
  | Some (AttrStr v) => matches_str v against
  | Some (AttrList vs) =>
      existsb (fun v => matches_str v against) vs
      || matches_str (join_space vs) against
  end.

(** Does the node satisfy [name] (when given) and every entry of
    [attrs]?  Only tags are found. *)
Definition search_tag (name : option pystr)
           (attrs : list (pystr * SearchValue)) (e : PageElement) : bool :=
  match e with
  | Tag n tag_attrs _ =>
      match name with
      | Some wanted => PyStr.eqb n wanted
      | None => true
      end
      && forallb (fun kv => matches (attrs_get tag_attrs (fst kv)) (snd kv))
                 attrs
  | _ => false
  end.

(** [soup.find_all(name, attrs=...)] *)
Definition find_all (soup : BeautifulSoup) (name : option pystr)
           (attrs : list (pystr * SearchValue)) : list PageElement :=
  filter (search_tag name attrs) (soup_descendants soup).

(** [soup.find(name, attrs=...)]: the first result of [find_all] *)
Definition find (soup : BeautifulSoup) (name : option pystr)
           (attrs : list (pystr * SearchValue)) : option PageElement :=
  match find_all soup name attrs with
  | [] => None
  | e :: _ => Some e
  end.

End Soup.
Import Soup.

(* ================================================================== *)
(** ** The extractor: [extract_price] and [extract_product_name] *)

Module Extractor.
Import Re.

Definition yen_sign (c : Z) : bool := (c =? 165) || (c =? 65509).
Definition digit_or_comma (c : Z) : bool := isdigit c || (c =? 44).
Definition yen_unit (c : Z) : bool := c =? 20870.

(** [re.compile(r'.*word.*', re.I).search], as the attribute test uses it *)
Definition contains_ignorecase (word : pystr) (v : pystr) : bool :=
  match search (star dot (literal eq_ignorecase word
                                  (star dot (fun _ => Some tt)))) v with
  | Some _ => true
  | None => false
  end.

(** [price_patterns]: each entry is the [attrs] dictionary given to
    [find_all], attribute name and wanted value.  A key of [attrs] is the
    name of the attribute as it stands, so the first two entries name an
    attribute [class_]; the library reads [class_] as [class] only when it
    is a keyword argument, as in line 68. *)
Definition price_patterns : list (list (pystr * SearchValue)) :=
  [ [ (lit "class_", Pattern (contains_ignorecase (lit "price"))) ];
    [ (lit "class_", Pattern (contains_ignorecase (lit "value"))) ];
    [ (lit "itemprop", Exactly (lit "price")) ] ].

(** the pattern of line 46, a yen sign, the digits and an optional unit;
    the result is group 1 *)
Definition price_regex : pystr -> option pystr :=
  opt yen_sign
    (star isspace (fun s1 =>
       plus digit_or_comma (fun s2 =>
         star isspace (opt yen_unit (fun _ => Some (captured s1 s2))) s2)
       s1)).

(** the pattern of line 56, three or more digit characters and the unit;
    the result is group 1 and the text after the match *)
Definition yen_regex : pystr -> option (pystr * pystr) :=
  opt yen_sign
    (star isspace (fun s1 =>
       atleast3 digit_or_comma (fun s2 =>
         star isspace (chr yen_unit (fun s3 => Some (captured s1 s2, s3))) s2)
       s1)).

Definition in_range (price : Z) : bool :=
  (100 <=? price) && (price <=? 10000000).

(** lines 44-54: the inner loop over the elements one pattern found *)
Fixpoint scan_elements (elements : list PageElement) : option Z :=
  match elements with
  | [] => None
  | element :: rest =>
      let text := get_text element in
      match search price_regex text with
      | Some group1 =>
          let price_str := remove_commas group1 in
          match PyStr.int price_str with
          | Some price =>
              if in_range price then Some price else scan_elements rest
          | None => scan_elements rest
          end
      | None => scan_elements rest
      end
  end.

(** lines 42-54: the outer loop over [price_patterns] *)
Fixpoint scan_patterns (soup : BeautifulSoup)
         (patterns : list (list (pystr * SearchValue))) : option Z :=
  match patterns with
  | [] => None
  | pattern :: rest =>
      match scan_elements (find_all soup None pattern) with
      | Some price => Some price
      | None => scan_patterns soup rest
      end
  end.

(** lines 57-63: the loop over the matches of the whole text *)
Fixpoint scan_prices (prices : list pystr) : option Z :=
  match prices with
  | [] => None
  | price_str :: rest =>
      match PyStr.int (remove_commas price_str) with
      | Some price =>
          if in_range price then Some price else scan_prices rest
      | None => scan_prices rest
      end
  end.

Definition extract_price (soup : BeautifulSoup) : option Z :=
  match scan_patterns soup price_patterns with
  | Some price => Some price
  | None =>
      let all_text := soup_get_text soup in
      let prices := findall yen_regex all_text in
      scan_prices prices
  end.

(** the unknown-name string of line 77 *)
Definition unknown_name : pystr := [21830; 21697; 21517; 19981; 26126].

Definition bar (c : Z) : bool := (c =? 124) || (c =? 65372).

(** the site name of line 73, in katakana *)
Definition site_name : pystr := [12494; 12472; 12510].

(** line 72: a bar and the rest of the line, at the end of the text *)
Definition bar_suffix : pystr -> option pystr :=
  chr bar (star dot (dollar (fun rest => Some rest))).

(** line 73: a hyphen in optional spaces, the site name and the rest of
    the line, at the end of the text *)
Definition site_suffix : pystr -> option pystr :=
  star isspace
    (chr (fun c => c =? 45)
       (star isspace
          (literal eq_ignorecase site_name
             (star dot (dollar (fun rest => Some rest)))))).

(** lines 71-74 *)
Definition clean_name (element : PageElement) : pystr :=
  let text := strip (get_text element) in
  let text := sub_empty bar_suffix text in
  let text := sub_empty site_suffix text in
  strip text.

(** lines 69-76: the loop over the three lookups; [None] is a lookup
    that found nothing (a tag itself is always true) *)
Fixpoint first_name (patterns : list (option PageElement)) : option pystr :=
  match patterns with
  | [] => None
  | None :: rest => first_name rest
  | Some element :: rest =>
      let text := clean_name element in
      if (negb (PyStr.eqb text [])) && (3 <? Z.of_nat (length text))
      then Some text
      else first_name rest
  end.

(** line 68: the three lookups; the keyword [class_] names the attribute
    [class] *)
Definition name_lookups (soup : BeautifulSoup) : list (option PageElement) :=
  [ find soup (Some (lit "h1")) [];
    find soup (Some (lit "h2"))
         [ (lit "class", Pattern (contains_ignorecase (lit "product"))) ];
    find soup (Some (lit "title")) [] ].

Definition extract_product_name (soup : BeautifulSoup) : pystr :=
  match first_name (name_lookups soup) with
  | Some text => text
  | None => unknown_name
  end.

End Extractor.

(* ================================================================== *)
(** ** The history file: [json.dump] and [json.load]

    The file holds text.  [json_dump] writes a store the way
    [json.dump(..., ensure_ascii=False, indent=2)] does; [json_loads] is the
    decoder of the library on a whole text, [None] standing for the
    exception it raises on a text that is not JSON or that holds an
    integer of too many digits.  The recursion depth of the interpreter
    is not part of the model. *)

Module Json.

(** The values [json.load] builds.  A [dict] lists its items in insertion
    order; a float keeps the literal it was read from. *)
Inductive pyval :=
| PyNone
| PyBool (b : bool)
| PyInt (z : Z)
| PyFloat (literal : pystr)
| PyStr (s : pystr)
| PyList (items : list pyval)
| PyDict (items : list (pystr * pyval)).

Section Dict.
Variable V : Type.

(** [key in d] *)
Fixpoint dict_contains (d : list (pystr * V)) (key : pystr) : bool :=
  match d with
  | [] => false
  | (k, _) :: rest => PyStr.eqb k key || dict_contains rest key
  end.

(** [d.get(key)] *)
Fixpoint dict_get (d : list (pystr * V)) (key : pystr) : option V :=
  match d with
  | [] => None
  | (k, v) :: rest => if PyStr.eqb k key then Some v else dict_get rest key
  end.

(** [d[key] = value]: an existing key keeps its place, a new one goes to
    the end *)
Fixpoint dict_set (d : list (pystr * V)) (key : pystr) (value : V)
  : list (pystr * V) :=
  match d with
  | [] => [(key, value)]
  | (k, v) :: rest =>
      if PyStr.eqb k key then (k, value) :: rest
      else (k, v) :: dict_set rest key value
  end.
End Dict.
Arguments dict_contains {V} d key.
Arguments dict_get {V} d key.
Arguments dict_set {V} d key value.

(** *** Encoder *)

Definition hex_digit (n : Z) : Z := if n <? 10 then 48 + n else 87 + n.

(** one character of a string, as [encode_basestring] writes it *)
Definition escape_char (c : Z) : pystr :=
  if c =? 34 then [92; 34]
  else if c =? 92 then [92; 92]
  else if c =? 10 then [92; 110]
  else if c =? 13 then [92; 114]
  else if c =? 9 then [92; 116]
  else if c =? 8 then [92; 98]
  else if c =? 12 then [92; 102]
  else if (0 <=? c) && (c <? 32)
       then [92; 117; 48; 48; hex_digit (c / 16); hex_digit (c mod 16)]
  else [c].

Definition encode_basestring (s : pystr) : pystr :=
  34 :: flat_map escape_char s ++ [34].

Fixpoint uint_chars (d : Decimal.uint) : pystr :=
  match d with
  | Decimal.Nil => []
  | Decimal.D0 d => 48 :: uint_chars d
  | Decimal.D1 d => 49 :: uint_chars d
  | Decimal.D2 d => 50 :: uint_chars d
  | Decimal.D3 d => 51 :: uint_chars d
  | Decimal.D4 d => 52 :: uint_chars d
  | Decimal.D5 d => 53 :: uint_chars d
  | Decimal.D6 d => 54 :: uint_chars d
  | Decimal.D7 d => 55 :: uint_chars d
  | Decimal.D8 d => 56 :: uint_chars d
  | Decimal.D9 d => 57 :: uint_chars d
  end.

(** [repr] of an [int] *)
Definition repr_int (z : Z) : pystr :=
  match Z.to_int z with
  | Decimal.Pos d => uint_chars d
  | Decimal.Neg d => 45 :: uint_chars d
  end.

(** The interpreter converts no [int] of more than 4300 digits to text,
    and no text of more than 4300 digits to an [int]
    ([sys.int_info.default_max_str_digits]); it raises [ValueError]. *)
Definition max_str_digits : Z := 4300.

(** the [int] has no more digits than that *)
Definition short_enough (z : Z) : bool :=
  Z.of_nat (length (repr_int (Z.abs z))) <=? max_str_digits.

(** *** Decoder *)

Definition is_json_space (c : Z) : bool :=
  (c =? 32) || (c =? 9) || (c =? 10) || (c =? 13).

Fixpoint skip_ws (s : pystr) : pystr :=
  match s with
  | c :: s' => if is_json_space c then skip_ws s' else s
  | [] => []
  end.

Definition hex_value (c : Z) : option Z :=
  if (48 <=? c) && (c <=? 57) then Some (c - 48)
  else if (97 <=? c) && (c <=? 102) then Some (c - 87)
  else if (65 <=? c) && (c <=? 70) then Some (c - 55)
  else None.

(** the four hexadecimal digits of an escape *)
Definition decode_uXXXX (a b c d : Z) : option Z :=
  match hex_value a, hex_value b, hex_value c, hex_value d with
  | Some x, Some y, Some z, Some w => Some (((x * 16 + y) * 16 + z) * 16 + w)
  | _, _, _, _ => None
  end.

Definition backslash (c : Z) : option Z :=
  if c =? 34 then Some 34
  else if c =? 92 then Some 92
  else if c =? 47 then Some 47
  else if c =? 98 then Some 8
  else if c =? 102 then Some 12
  else if c =? 110 then Some 10
  else if c =? 114 then Some 13
  else if c =? 116 then Some 9
  else None.

(** one more character in front of what the rest of the string gives *)
Definition scanned (c : Z) (tail : option (pystr * pystr))
  : option (pystr * pystr) :=
  match tail with
  | Some (chars, rest) => Some (c :: chars, rest)
  | None => None
  end.

Definition high_surrogate (uni : Z) : bool :=
  (55296 <=? uni) && (uni <=? 56319).
Definition low_surrogate (uni : Z) : bool :=
  (56320 <=? uni) && (uni <=? 57343).

(** [scanstring], strict: the text after an opening quote, up to the
    closing one.  A raw control character, an unknown escape and a
    missing quote are errors; an escaped surrogate pair is joined. *)
Fixpoint scanstring (s : pystr) : option (pystr * pystr) :=
  match s with
  | [] => None
  | c :: rest =>
      if c =? 34 then Some ([], rest)
      else if c =? 92 then
        match rest with
        | [] => None
        | e :: rest1 =>
            if e =? 117 then
              match rest1 with
              | a :: b :: c1 :: d :: rest2 =>
                  match decode_uXXXX a b c1 d with
                  | None => None
                  | Some uni =>
                      let single := scanned uni (scanstring rest2) in
                      if high_surrogate uni then
                        match rest2 with
                        | x :: y :: a2 :: b2 :: c2 :: d2 :: rest3 =>
                            if (x =? 92) && (y =? 117) then
                              match decode_uXXXX a2 b2 c2 d2 with
                              | None => None
                              | Some uni2 =>
                                  if low_surrogate uni2 then
                                    scanned
                                      (65536 + ((uni - 55296) * 1024
                                                + (uni2 - 56320)))
                                      (scanstring rest3)
                                  else single
                              end
                            else single
                        | _ => single
                        end
                      else single
                  end
              | _ => None
              end
            else
              match backslash e with
              | None => None
              | Some ch => scanned ch (scanstring rest1)
              end
        end
      else if (0 <=? c) && (c <=? 31) then None
      else scanned c (scanstring rest)
  end.

(** the longest prefix of digits, and the rest *)
Fixpoint span_digits (s : pystr) : pystr * pystr :=
  match s with
  | c :: s' =>
      if isdigit c then let (ds, rest) := span_digits s' in (c :: ds, rest)
      else ([], s)
  | [] => ([], [])
  end.

(** the optional fraction and exponent after the integer part *)
Definition match_fraction (s : pystr) : pystr * pystr :=
  match s with
  | c :: t =>
      if c =? 46 then
        match span_digits t with
        | ([], _) => ([], s)
        | (ds, rest) => (46 :: ds, rest)
        end
      else ([], s)
  | [] => ([], s)
  end.

Definition match_exponent (s : pystr) : pystr * pystr :=
  match s with
  | e :: t =>
      if (e =? 101) || (e =? 69) then
        let (sign, t') :=
          match t with
          | c :: t'' => if (c =? 43) || (c =? 45) then ([c], t'') else ([], t)
          | [] => ([], t)
          end in
        match span_digits t' with
        | ([], _) => ([], s)
        | (ds, rest) => (e :: sign ++ ds, rest)
        end
      else ([], s)
  | [] => ([], s)
  end.

(** the integer part: a zero, or a digit that is not zero and the
    digits after it *)
Definition match_integer (s : pystr) : option (pystr * pystr) :=
  match s with
  | c :: t =>
      if c =? 48 then Some ([48], t)
      else if (49 <=? c) && (c <=? 57)
           then let (ds, rest) := span_digits t in Some (c :: ds, rest)
      else None
  | [] => None
  end.

(** a number: an [int] when it has neither fraction nor exponent, and
    then of 4300 digits at most *)
Definition match_number (s : pystr) : option (pyval * pystr) :=
  let (sign, s1) :=
    match s with
    | c :: t => if c =? 45 then ([45], t) else ([], s)
    | [] => ([], s)
    end in
  match match_integer s1 with
  | None => None
  | Some (digits, rest) =>
      let (frac, rest1) := match_fraction rest in
      let (exp, rest2) := match_exponent rest1 in
      match frac, exp with
      | [], [] =>
          if max_str_digits <? Z.of_nat (length digits) then None
          else
            match PyStr.int digits with
            | Some n =>
                Some (PyInt (match sign with [] => n | _ => - n end), rest2)
            | None => None
            end
      | _, _ => Some (PyFloat (sign ++ digits ++ frac ++ exp), rest2)
      end
  end.

(** does the text start with the word? then the rest *)
Fixpoint after_word (word s : pystr) : option pystr :=
  match word, s with
  | [], _ => Some s
  | w :: word', c :: s' => if c =? w then after_word word' s' else None
  | _ :: _, [] => None
  end.

(** a constant of the language, or a number *)
Definition scan_atom (s : pystr) : option (pyval * pystr) :=
  match s with
  | [] => None
  | c :: _ =>
      if c =? 110 then
        match after_word (lit "null") s with
        | Some rest => Some (PyNone, rest)
        | None => None
        end
      else if c =? 116 then
        match after_word (lit "true") s with
        | Some rest => Some (PyBool true, rest)
        | None => None
        end
      else if c =? 102 then
        match after_word (lit "false") s with
        | Some rest => Some (PyBool false, rest)
        | None => None
        end
      else if c =? 78 then
        match after_word (lit "NaN") s with
        | Some rest => Some (PyFloat (lit "NaN"), rest)
        | None => None
        end
      else if c =? 73 then
        match after_word (lit "Infinity") s with
        | Some rest => Some (PyFloat (lit "Infinity"), rest)
        | None => None
        end
      else if c =? 45 then
        match after_word (lit "-Infinity") s with
        | Some rest => Some (PyFloat (lit "-Infinity"), rest)
        | None => match_number s
        end
      else match_number s
  end.

(** the text after the character [c], when the text starts with it *)
Definition after_char (c : Z) (s : pystr) : option pystr :=
  match s with
  | x :: rest => if x =? c then Some rest else None
  | [] => None
  end.

(** [scan_once] with the loops of objects and arrays.  [fuel] bounds the
    depth of the calls; a text of [n] characters needs no more than
    [n + 1]. *)
Fixpoint scan_once (fuel : nat) (s : pystr) {struct fuel}
  : option (pyval * pystr) :=
  match fuel with
  | O => None
  | S fuel' =>
      match after_char 34 s with
      | Some s' =>
          match scanstring s' with
          | Some (chars, rest) => Some (PyStr chars, rest)
          | None => None
          end
      | None =>
          match after_char 123 s with
          | Some s' =>
              match after_char 125 (skip_ws s') with
              | Some rest => Some (PyDict [], rest)
              | None => parse_members fuel' [] (skip_ws s')
              end
          | None =>
              match after_char 91 s with
              | Some s' =>
                  match after_char 93 (skip_ws s') with
                  | Some rest => Some (PyList [], rest)
                  | None => parse_elements fuel' [] (skip_ws s')
                  end
              | None => scan_atom s
              end
          end
      end
  end
with parse_members (fuel : nat) (acc : list (pystr * pyval)) (s : pystr)
     {struct fuel} : option (pyval * pystr) :=
  match fuel with
  | O => None
  | S fuel' =>
      match after_char 34 s with
      | None => None
      | Some s1 =>
          match scanstring s1 with
          | None => None
          | Some (key, s2) =>
              match after_char 58 (skip_ws s2) with
              | None => None
              | Some s3 =>
                  match scan_once fuel' (skip_ws s3) with
                  | None => None
                  | Some (value, s4) =>
                      let acc' := dict_set acc key value in
                      match after_char 125 (skip_ws s4) with
                      | Some rest => Some (PyDict acc', rest)
                      | None =>
                          match after_char 44 (skip_ws s4) with
                          | Some s5 =>
                              parse_members fuel' acc' (skip_ws s5)
                          | None => None
                          end
                      end
                  end
              end
          end
      end
  end
with parse_elements (fuel : nat) (acc : list pyval) (s : pystr)
     {struct fuel} : option (pyval * pystr) :=
  match fuel with
  | O => None
  | S fuel' =>
      match scan_once fuel' s with
      | None => None
      | Some (value, s1) =>
          let acc' := acc ++ [value] in
          match after_char 93 (skip_ws s1) with
          | Some rest => Some (PyList acc', rest)
          | None =>
              match after_char 44 (skip_ws s1) with
              | Some s2 => parse_elements fuel' acc' (skip_ws s2)
              | None => None
              end
          end
      end
  end.

(** [json.loads]: one value between optional spaces, nothing after it *)
Definition json_loads (s : pystr) : option pyval :=
  match scan_once (S (length s)) (skip_ws s) with
  | Some (value, rest) =>
      match skip_ws rest with
      | [] => Some value
      | _ => None
      end
  | None => None
  end.

End Json.
Import Json.

(* ================================================================== *)
(** ** The monitor

    The object state is the store [previous_prices], the history file and
    what the process has printed and sent so far.  The network and the
    clock are the [World] the monitor runs in; it may differ from one url
    to the next.

    What can raise is written out: the division of line 159, the
    integers of line 162 that the interpreter refuses to write,
    [json.dump] into a file opened as UTF-8, [time.sleep].  Two things are
    taken from the surroundings and succeed: printing (the console takes
    every text) and opening the history file for writing.  The store is
    followed when its entries are observations as line 88 builds them;
    what lines 156-159 do with other values of a history file ([KeyError],
    [TypeError]) is outside this development: [initial_state] gives no
    state for such a file. *)

Module Monitor.
Import Extractor.

(** *** Exceptions and results *)

Inductive Exception :=
| ZeroDivisionError
| OverflowError
| ValueError
| UnicodeEncodeError
| KeyError
| OSError
| JSONDecodeError
| RequestException (message : pystr)
| HTTPError (status_code : Z).

Inductive Result (A : Type) :=
| Return (a : A)
| Raise (e : Exception).
Arguments Return {A} a.
Arguments Raise {A} e.

(** [try: body  except: handler] *)
Definition try_except {A} (body : Result A) (handler : Exception -> Result A)
  : Result A :=
  match body with
  | Return a => Return a
  | Raise e => handler e
  end.

(** *** Numbers *)

(** a [float]: binary64 *)
Definition float := spec_float.

Definition float_of_int (z : Z) : float := binary_normalize 53 1024 z 0 false.

Definition exact_int (z : Z) : float :=
  match z with
  | Z0 => S754_zero false
  | Zpos p => S754_finite false p 0
  | Zneg p => S754_finite true p 0
  end.

(** the least magnitude that rounds to no finite float *)
Definition float_overflow : Z := 2 ^ 1024 - 2 ^ 970.

(** [a / b] on two [int]s: the quotient rounded once to the nearest
    float; a zero divisor and a quotient too large for a float raise *)
Definition int_truediv (a b : Z) : Result float :=
  if b =? 0 then Raise ZeroDivisionError
  else if float_overflow * Z.abs b <=? Z.abs a then Raise OverflowError
  else Return (SFdiv 53 1024 (exact_int a) (exact_int b)).

(** [x * n] for a [float] and an [int] *)
Definition float_mul_int (x : float) (n : Z) : float :=
  SFmul 53 1024 x (float_of_int n).

(** the digits of an [int], last digit first, with a comma after every
    third one that has a digit behind it *)
Fixpoint group_thousands (reversed : pystr) : pystr :=
  match reversed with
  | a :: b :: c :: (_ :: _) as rest => a :: b :: c :: 44 :: group_thousands rest
  | _ => reversed
  end.

(** [f"{n:,}"]: an [int] of more than 4300 digits raises *)
Definition format_thousands (n : Z) : Result pystr :=
  if short_enough n
  then Return ((if n <? 0 then [45] else [])
               ++ rev (group_thousands (rev (repr_int (Z.abs n)))))
  else Raise ValueError.

(** *** The clock *)

(** the seconds that fit the interpreter's time type, counted in
    nanoseconds on 64 bits *)
Definition max_sleep : Z := 9223372036.

(** [time.sleep(secs)] for an [int]: what the interpreter decides before
    the process sleeps.  A duration beyond its time type raises
    [OverflowError], a negative one [ValueError].  The operating system
    is taken to let the process sleep for the others (it refuses a sleep
    that ends beyond the range of its clock, some 292 years from the
    start of the machine). *)
Definition time_sleep (secs : Z) : Result unit :=
  if (secs <? - max_sleep) || (max_sleep <? secs) then Raise OverflowError
  else if secs <? 0 then Raise ValueError
  else Return tt.

(** *** Data *)

(** [current_data], the dictionary of line 88, which is also what the
    store keeps for a url *)
Record Observation := {
  url : pystr;
  price : Z;
  product_name : pystr;
  timestamp : pystr
}.

(** [previous_prices]: a [dict] from url to the last observation.  This
    is what the monitor itself puts there, and what it finds in a history
    file that it wrote. *)
Definition Store := list (pystr * Observation).

(** the text of a notification: the values the f-strings of lines 141
    and 162 show *)
Inductive Message :=
| StartupMessage (count : nat) (check_interval : Z)
| PriceChange (drop_emoji : bool) (product_name : pystr)
              (previous_price current_price change : Z)
              (change_percent : float) (url : pystr).

(** the JSON body of the webhook request, lines 101-108 *)
Record Embed := {
  title : pystr;
  description : Message;
  color : Z;
  embed_timestamp : pystr
}.

(** a response: its status and, for a page, its [text] given as the
    parsed document *)
Record Response := {
  status_code : Z;
  text : BeautifulSoup
}.

(** the network and the clock.  [requests.get] and [requests.post]
    return a response or raise (connection refused, timeout, ...). *)
Record World := {
  requests_get : pystr -> Result Response;
  requests_post : pystr -> Embed -> Result Z;
  now : pystr;
  utcnow : pystr
}.

(** the lines printed, each with the values it shows *)
Inductive LogLine :=
| LogError (e : Exception)
| LogPriceFailed (product_name : pystr)
| LogWebhookMissing
| LogDiscordSent
| LogDiscordFailed (status_code : Z)
| LogDiscordError (e : Exception)
| LogNotifyBanner (message : Message)
| LogUnchanged (product_name : pystr) (current_price : Z)
| LogFirstSeen (product_name : pystr) (current_price : Z)
| LogNoUrls
| LogStart (webhook_set : bool) (check_interval : Z) (count : nat)
| LogCycle (cycle : nat)
| LogWaiting (check_interval : Z).

(** what the process did, in order: a line printed, [notify] entered, a
    request posted to the webhook *)
Inductive Event :=
| Printed (line : LogLine)
| Notify (message : Message) (is_price_drop : bool)
| Posted (webhook : pystr) (payload : Embed).

Inductive FileContent :=
| Unreadable
| Text (s : pystr).

Record Config := {
  discord_webhook : pystr;
  urls : list pystr;
  check_interval : Z
}.

Record State := {
  previous_prices : Store;
  price_data_file : option FileContent;
  out : list Event
}.

Definition emit (e : Event) (st : State) : State :=
  {| previous_prices := previous_prices st;
     price_data_file := price_data_file st;
     out := out st ++ [e] |}.

Definition print (line : LogLine) (st : State) : State :=
  emit (Printed line) st.

(** *** The history file *)

(** an observation and a store as the Python values they are *)
Definition observation_value (o : Observation) : pyval :=
  PyDict [ (lit "url", PyStr (url o));
           (lit "price", PyInt (price o));
           (lit "product_name", PyStr (product_name o));
           (lit "timestamp", PyStr (timestamp o)) ].

Definition store_value (d : Store) : pyval :=
  PyDict (map (fun kv => (fst kv, observation_value (snd kv))) d).

(** the store a value is, when it is a [dict] of such observations *)
Definition as_observation (v : pyval) : option Observation :=
  match v with
  | PyDict [ (k1, PyStr u); (k2, PyInt p); (k3, PyStr n); (k4, PyStr t) ] =>
      if PyStr.eqb k1 (lit "url") && PyStr.eqb k2 (lit "price")
         && PyStr.eqb k3 (lit "product_name")
         && PyStr.eqb k4 (lit "timestamp")
      then Some {| url := u; price := p; product_name := n; timestamp := t |}
      else None
  | _ => None
  end.

Fixpoint as_items (items : list (pystr * pyval)) : option Store :=
  match items with
  | [] => Some []
  | (k, v) :: rest =>
      match as_observation v, as_items rest with
      | Some o, Some d => Some ((k, o) :: d)
      | _, _ => None
      end
  end.

Definition as_store (v : pyval) : option Store :=
  match v with
  | PyDict items => as_items items
  | _ => None
  end.

(** [json.dump] of an observation inside the store: indent 2, level 2 *)
Definition dump_observation (o : Observation) : pystr :=
  lit "{" ++ [10]
  ++ lit "    " ++ encode_basestring (lit "url") ++ lit ": "
  ++ encode_basestring (url o) ++ lit "," ++ [10]
  ++ lit "    " ++ encode_basestring (lit "price") ++ lit ": "
  ++ repr_int (price o) ++ lit "," ++ [10]
  ++ lit "    " ++ encode_basestring (lit "product_name") ++ lit ": "
  ++ encode_basestring (product_name o) ++ lit "," ++ [10]
  ++ lit "    " ++ encode_basestring (lit "timestamp") ++ lit ": "
  ++ encode_basestring (timestamp o) ++ [10]
  ++ lit "  }".

Definition dump_item (kv : pystr * Observation) : pystr :=
  lit "  " ++ encode_basestring (fst kv) ++ lit ": "
  ++ dump_observation (snd kv).

Fixpoint dump_items (d : Store) : pystr :=
  match d with
  | [] => []
  | [kv] => dump_item kv
  | kv :: rest => dump_item kv ++ lit "," ++ [10] ++ dump_items rest
  end.

(** [json.dump(previous_prices, f, ensure_ascii=False, indent=2)] *)
Definition json_dump (d : Store) : pystr :=
  match d with
  | [] => lit "{}"
  | _ => lit "{" ++ [10] ++ dump_items d ++ [10] ++ lit "}"
  end.

(** What [json.dump] hands over, piece by piece: a text for [f.write],
    or an [int] that is still to be converted. *)
Inductive Chunk :=
| ChunkText (s : pystr)
| ChunkInt (n : Z).

(** the pieces of an observation inside the store *)
Definition observation_chunks (o : Observation) : list Chunk :=
  [ ChunkText (lit "{"); ChunkText ([10] ++ lit "    ");
    ChunkText (encode_basestring (lit "url")); ChunkText (lit ": ");
    ChunkText (encode_basestring (url o));
    ChunkText (lit "," ++ [10] ++ lit "    ");
    ChunkText (encode_basestring (lit "price")); ChunkText (lit ": ");
    ChunkInt (price o);
    ChunkText (lit "," ++ [10] ++ lit "    ");
    ChunkText (encode_basestring (lit "product_name")); ChunkText (lit ": ");
    ChunkText (encode_basestring (product_name o));
    ChunkText (lit "," ++ [10] ++ lit "    ");
    ChunkText (encode_basestring (lit "timestamp")); ChunkText (lit ": ");
    ChunkText (encode_basestring (timestamp o));
    ChunkText ([10] ++ lit "  "); ChunkText (lit "}") ].

Definition item_chunks (kv : pystr * Observation) : list Chunk :=
  ChunkText (encode_basestring (fst kv)) :: ChunkText (lit ": ")
  :: observation_chunks (snd kv).

(** the items after the first one, each behind its separator *)
Fixpoint more_item_chunks (d : Store) : list Chunk :=
  match d with
  | [] => []
  | kv :: rest =>
      ChunkText (lit "," ++ [10] ++ lit "  ") :: item_chunks kv
      ++ more_item_chunks rest
  end.

Definition store_chunks (d : Store) : list Chunk :=
  match d with
  | [] => [ChunkText (lit "{}")]
  | kv :: rest =>
      ChunkText (lit "{") :: ChunkText ([10] ++ lit "  ")
      :: item_chunks kv ++ more_item_chunks rest
      ++ [ChunkText [10]; ChunkText (lit "}")]
  end.

(** a text that UTF-8 encodes: it holds no surrogate, the code points
    from U+D800 to U+DFFF *)
Definition surrogate (c : Z) : bool := (55296 <=? c) && (c <=? 57343).

Definition encodable (s : pystr) : bool := forallb (fun c => negb (surrogate c)) s.

(** The pieces go to the file one after the other.  A text that does not
    encode makes [f.write] raise, an [int] of too many digits makes the
    encoder raise; the file then keeps what was written before.  The
    result is the text of the file and the exception, if any. *)
Fixpoint write_chunks (chunks : list Chunk) (written : pystr)
  : pystr * option Exception :=
  match chunks with
  | [] => (written, None)
  | ChunkText s :: rest =>
      if encodable s then write_chunks rest (written ++ s)
      else (written, Some UnicodeEncodeError)
  | ChunkInt n :: rest =>
      if short_enough n then write_chunks rest (written ++ repr_int n)
      else (written, Some ValueError)
  end.

(** lines 32-33 on a file just opened: what the file holds when the
    [with] block is left, and the exception that leaves it, if any *)
Definition dump_to_file (d : Store) : pystr * option Exception :=
  write_chunks (store_chunks d) [].

(** lines 31-33 *)
Definition save_prices (st : State) : Result State :=
  match dump_to_file (previous_prices st) with
  | (text, None) =>
      Return {| previous_prices := previous_prices st;
                price_data_file := Some (Text text);
                out := out st |}
  | (_, Some e) => Raise e
  end.

(** [open(...)] and [json.load(f)], the body of the [try] of line 24 *)
Definition read_json (content : FileContent) : Result pyval :=
  match content with
  | Unreadable => Raise OSError
  | Text s =>
      match json_loads s with
      | Some v => Return v
      | None => Raise JSONDecodeError
      end
  end.

(** lines 22-29; the argument is the file, [None] when it does not
    exist *)
Definition load_previous_prices (file : option FileContent) : Result pyval :=
  match file with
  | Some content =>
      try_except (read_json content) (fun _ => Return (PyDict []))
  | None => Return (PyDict [])
  end.

(** *** Fetching *)

(** [response.raise_for_status()]: an error status raises *)
Definition raise_for_status (response : Response) : Result unit :=
  if (400 <=? status_code response) && (status_code response <? 600)
  then Raise (HTTPError (status_code response))
  else Return tt.

(** lines 79-91 *)
Definition check_price (w : World) (u : pystr) (st : State)
  : Result (option Observation * State) :=
  try_except
    (match requests_get w u with
     | Raise e => Raise e
     | Return response =>
         match raise_for_status response with
         | Raise e => Raise e
         | Return _ =>
             let current_price := extract_price (text response) in
             let name := extract_product_name (text response) in
             match current_price with
             | None => Return (None, print (LogPriceFailed name) st)
             | Some p =>
                 Return (Some {| url := u; price := p;
                                 product_name := name;
                                 timestamp := now w |}, st)
             end
         end
     end)
    (fun e => Return (None, print (LogError e) st)).

(** *** Notifying *)

Definition title_drop : pystr :=
  [127881; 32; 20516; 19979; 12370; 26908; 30693; 65281].
Definition title_change : pystr :=
  [128200; 32; 20385; 26684; 22793; 26356].

(** lines 99-108 *)
Definition build_embed (w : World) (message : Message)
           (is_price_drop : bool) : Embed :=
  let c := if is_price_drop then 65280 else 16750848 in
  {| title := if is_price_drop then title_drop else title_change;
     description := message;
     color := c;
     embed_timestamp := utcnow w |}.

(** lines 93-120 *)
Definition send_discord_notification (cfg : Config) (w : World)
           (message : Message) (is_price_drop : bool) (st : State)
  : Result (bool * State) :=
  match discord_webhook cfg with
  | [] => Return (false, print LogWebhookMissing st)
  | _ =>
      let embed := build_embed w message is_price_drop in
      let st := emit (Posted (discord_webhook cfg) embed) st in
      try_except
        (match requests_post w (discord_webhook cfg) embed with
         | Raise e => Raise e
         | Return code =>
             if code =? 204
             then Return (true, print LogDiscordSent st)
             else Return (false, print (LogDiscordFailed code) st)
         end)
        (fun e => Return (false, print (LogDiscordError e) st))
  end.

(** lines 122-128; the value of [send_discord_notification] is dropped *)
Definition notify (cfg : Config) (w : World) (message : Message)
           (is_price_drop : bool) (st : State) : Result State :=
  let st := emit (Notify message is_price_drop) st in
  let st := print (LogNotifyBanner message) st in
  match send_discord_notification cfg w message is_price_drop st with
  | Return (_, st') => Return st'
  | Raise e => Raise e
  end.

(** *** The loop *)

Definition set_previous_prices (d : Store) (st : State) : State :=
  {| previous_prices := d;
     price_data_file := price_data_file st;
     out := out st |}.

(** lines 155-171: what the loop body does with an observation.  The
    f-string of line 162 writes the stored price and the change with
    [:,]; the prices that lines 162, 167 and 169 write besides come from
    [extract_price] and have eight digits at most. *)
Definition compare_and_store (cfg : Config) (w : World)
           (current_data : Observation) (st : State) : Result State :=
  let u := url current_data in
  let current_price := price current_data in
  let name := product_name current_data in
  if dict_contains (previous_prices st) u then
    match dict_get (previous_prices st) u with
    | None => Raise KeyError
    | Some previous =>
        let previous_price := price previous in
        if negb (current_price =? previous_price) then
          let change := current_price - previous_price in
          match int_truediv change previous_price with
          | Raise e => Raise e
          | Return quotient =>
              let change_percent := float_mul_int quotient 100 in
              let is_price_drop := change <? 0 in
              match format_thousands previous_price,
                    format_thousands change with
              | Raise e, _ => Raise e
              | Return _, Raise e => Raise e
              | Return _, Return _ =>
                  let message :=
                    PriceChange is_price_drop name previous_price
                                current_price change change_percent u in
                  match notify cfg w message is_price_drop st with
                  | Raise e => Raise e
                  | Return st =>
                      let st :=
                        set_previous_prices
                          (dict_set (previous_prices st) u current_data)
                          st in
                      save_prices st
                  end
              end
          end
        else
          Return (print (LogUnchanged (firstn 40 name) current_price) st)
    end
  else
    let st := print (LogFirstSeen (firstn 40 name) current_price) st in
    let st :=
      set_previous_prices
        (dict_set (previous_prices st) u current_data) st in
    save_prices st.

(** lines 149-172, the body of the loop over the urls; [continue] passes
    the sleep of line 172 *)
Definition monitor_url (cfg : Config) (w : World) (u : pystr) (st : State)
  : Result State :=
  match check_price w u st with
  | Raise e => Raise e
  | Return (None, st) => Return st
  | Return (Some current_data, st) =>
      match compare_and_store cfg w current_data st with
      | Raise e => Raise e
      | Return st =>
          match time_sleep 3 with
          | Raise e => Raise e
          | Return _ => Return st
          end
      end
  end.

(** the world at each step: one step per url visited *)
Definition Environment := nat -> World.

(** line 148: the [for] over the urls, from step [t] on *)
Fixpoint for_urls (cfg : Config) (env : Environment) (t : nat)
         (us : list pystr) (st : State) : Result State :=
  match us with
  | [] => Return st
  | u :: rest =>
      match monitor_url cfg (env t) u st with
      | Return st' => for_urls cfg env (S t) rest st'
      | Raise e => Raise e
      end
  end.

(** lines 146-174: one turn of the [while] *)
Definition run_cycle (cfg : Config) (env : Environment) (t : nat)
           (cycle : nat) (st : State) : Result State :=
  let st := print (LogCycle cycle) st in
  match for_urls cfg env t (urls cfg) st with
  | Return st' =>
      let st' := print (LogWaiting (check_interval cfg)) st' in
      match time_sleep (check_interval cfg) with
      | Return _ => Return st'
      | Raise e => Raise e
      end
  | Raise e => Raise e
  end.

(** the first [n] turns of the [while True] of line 145, [cycle] being
    the counter before the first of them *)
Fixpoint run_cycles (cfg : Config) (env : Environment) (t : nat)
         (cycle : nat) (n : nat) (st : State) : Result State :=
  match n with
  | O => Return st
  | S n' =>
      match run_cycle cfg env t (S cycle) st with
      | Return st' =>
          run_cycles cfg env (t + length (urls cfg)) (S cycle) n' st'
      | Raise e => Raise e
      end
  end.

(** lines 130-174, observed for [n] turns of the loop.  Step 0 of the
    environment serves the opening notification. *)
Definition monitor (cfg : Config) (env : Environment) (n : nat) (st : State)
  : Result State :=
  match urls cfg with
  | [] => Return (print LogNoUrls st)
  | _ =>
      let webhook_set := negb (PyStr.eqb (discord_webhook cfg) []) in
      let st :=
        print (LogStart webhook_set (check_interval cfg) (length (urls cfg)))
              st in
      let started :=
        if webhook_set
        then
          match send_discord_notification cfg (env O)
                  (StartupMessage (length (urls cfg)) (check_interval cfg))
                  false st with
          | Return (_, st') => Return st'
          | Raise e => Raise e
          end
        else Return st in
      match started with
      | Return st' => run_cycles cfg env 1 0 n st'
      | Raise e => Raise e
      end
  end.

(** line 17: the object starts with what the file holds.  The monitor is
    followed when that value is a store of observations; [None] is a
    file that holds another JSON value, which [__init__] keeps as it is. *)
Definition initial_state (file : option FileContent) : option State :=
  match load_previous_prices file with
  | Return v =>
      match as_store v with
      | Some d => Some {| previous_prices := d;
                          price_data_file := file;
                          out := [] |}
      | None => None
      end
  | Raise _ => None
  end.

End Monitor.

(* ================================================================== *)
(** ** The configuration: the list of urls

    [__init__] takes the urls to watch from the variable [MONITOR_URLS]. *)

Module Settings.

(** [os.environ.get(name, default)]; [None] is a variable that is not
    set *)
Definition environ_get (value : option pystr) (default : pystr) : pystr :=
  match value with
  | Some v => v
  | None => default
  end.

(** [s.split(',')] *)
Fixpoint split_comma (s : pystr) : list pystr :=
  match s with
  | [] => [[]]
  | c :: s' =>
      if c =? 44 then [] :: split_comma s'
      else match split_comma s' with
           | piece :: rest => (c :: piece) :: rest
           | [] => [[c]]
           end
  end.

(** lines 13-14: the list [self.urls] *)
Definition urls (MONITOR_URLS : option pystr) : list pystr :=
  let urls_str := environ_get MONITOR_URLS [] in
  map strip
      (filter (fun url => negb (PyStr.eqb (strip url) []))
              (split_comma urls_str)).

End Settings.

(* ================================================================== *)
(** ** Notions used to state the properties *)

Module Notions.
Import Re Extractor Monitor.

(** *** Runs of characters *)

Fixpoint drop_while (p : Z -> bool) (s : pystr) : pystr :=
  match s with
  | c :: s' => if p c then drop_while p s' else s
  | [] => []
  end.

Fixpoint take_while (p : Z -> bool) (s : pystr) : pystr :=
  match s with
  | c :: s' => if p c then c :: take_while p s' else []
  | [] => []
  end.

(** the first run of digits and commas of a text, if it has one *)
Definition first_digit_run (text : pystr) : option pystr :=
  match drop_while (fun c => negb (digit_or_comma c)) text with
  | [] => None
  | s => Some (take_while digit_or_comma s)
  end.

(** the run of digits and commas a text starts with, if it starts with
    one *)
Definition digits_here (s : pystr) : option pystr :=
  match s with
  | c :: _ =>
      if digit_or_comma c then Some (take_while digit_or_comma s) else None
  | [] => None
  end.

(** *** Price candidates *)

(** a candidate text is accepted when, its commas removed, it reads as
    an integer of the range *)
Definition accepted (price_str : pystr) : option Z :=
  match PyStr.int (remove_commas price_str) with
  | Some n => if in_range n then Some n else None
  | None => None
  end.

(** the candidate an element offers: the first run of digits and commas
    of its text *)
Definition element_candidate (element : PageElement) : option Z :=
  match search price_regex (get_text element) with
  | Some group1 => accepted group1
  | None => None
  end.

Fixpoint first_accepted (candidates : list (option Z)) : option Z :=
  match candidates with
  | [] => None
  | Some p :: _ => Some p
  | None :: rest => first_accepted rest
  end.

Definition itemprop_price : list (pystr * SearchValue) :=
  [ (lit "itemprop", Exactly (lit "price")) ].

(** the tag has a [class] or [class_] attribute that contains "price"
    or "value" *)
Definition class_hint (e : PageElement) : bool :=
  match e with
  | Tag _ attrs _ =>
      existsb
        (fun name =>
           existsb
             (fun word =>
                matches (attrs_get attrs name)
                        (Pattern (contains_ignorecase word)))
             [lit "price"; lit "value"])
        [lit "class_"; lit "class"]
  | _ => false
  end.

Definition no_class_hint (soup : BeautifulSoup) : bool :=
  forallb (fun e => negb (class_hint e)) (soup_descendants soup).

(** the text holds three or more digits or commas, then optional
    spaces, then the yen unit *)
Definition yen_suffixed_number (text : pystr) : Prop :=
  exists before digits spaces after,
    text = before ++ digits ++ spaces ++ 20870 :: after
    /\ (3 <= length digits)%nat
    /\ forallb digit_or_comma digits = true
    /\ forallb isspace spaces = true.

(** the tag has some attribute whose value contains the word *)
Definition any_attribute_contains (word : pystr) (e : PageElement) : bool :=
  match e with
  | Tag _ attrs _ =>
      existsb (fun kv => matches (Some (snd kv))
                                 (Pattern (contains_ignorecase word)))
              attrs
  | _ => false
  end.

(** the search with the first two patterns read as "any attribute value
    containing the word": the candidates in that order, the first
    accepted one returned *)
Definition extract_price_any_attribute (soup : BeautifulSoup) : option Z :=
  first_accepted
    (map element_candidate
         (filter (any_attribute_contains (lit "price")) (soup_descendants soup)
          ++ filter (any_attribute_contains (lit "value"))
                    (soup_descendants soup)
          ++ find_all soup None itemprop_price)
     ++ map accepted (findall yen_regex (soup_get_text soup))).

(** *** The monitor *)

(** the calls of [notify] among the events, with their arguments *)
Definition notify_calls (events : list Event) : list (Message * bool) :=
  flat_map (fun e => match e with
                     | Notify message is_price_drop =>
                         [(message, is_price_drop)]
                     | _ => []
                     end) events.

(** the requests posted to the webhook among the events *)
Definition posts (events : list Event) : list (pystr * Embed) :=
  flat_map (fun e => match e with
                     | Posted webhook payload => [(webhook, payload)]
                     | _ => []
                     end) events.

(** checking the url yields no observation: the request raises, the
    response has an error status, or no price is found in the page *)
Inductive check_fails (w : World) (u : pystr) : Prop :=
| fetch_raises e :
    requests_get w u = Raise e -> check_fails w u
| error_status response :
    requests_get w u = Return response ->
    400 <= status_code response < 600 ->
    check_fails w u
| price_absent response :
    requests_get w u = Return response ->
    ~ (400 <= status_code response < 600) ->
    extract_price (text response) = None ->
    check_fails w u.

(** checking the url yields an observation of the price *)
Definition observes (w : World) (u : pystr) (p : Z) (name : pystr) : Prop :=
  exists response,
    requests_get w u = Return response
    /\ ~ (400 <= status_code response < 600)
    /\ extract_price (text response) = Some p
    /\ extract_product_name (text response) = name.

(** the observation built from a price and a name at the time of [w] *)
Definition observation_of (w : World) (u : pystr) (p : Z) (name : pystr)
  : Observation :=
  {| url := u; price := p; product_name := name; timestamp := now w |}.

(** *** The store *)

(** the items of a store as Python values *)
Definition value_items (d : Store) : list (pystr * pyval) :=
  map (fun kv => (fst kv, observation_value (snd kv))) d.

(** at most one entry per url *)
Definition store_unique (d : Store) : Prop := NoDup (map fst d).

(** every price of the store lies in the range of the extractor *)
Definition prices_in_range (d : Store) : Prop :=
  Forall (fun kv => 100 <= price (snd kv) <= 10000000) d.

(** the states the loop body leads to from [st0], whatever urls are
    visited and whatever the world answers *)
Inductive reaches (cfg : Config) (st0 : State) : State -> Prop :=
| reaches_start : reaches cfg st0 st0
| reaches_url st w u st' :
    reaches cfg st0 st ->
    monitor_url cfg w u st = Return st' ->
    reaches cfg st0 st'.

(** the states of a run: the object starts from the history file and
    then visits urls *)
Definition reachable (cfg : Config) (st : State) : Prop :=
  exists file st0, initial_state file = Some st0 /\ reaches cfg st0 st.

(** the file is missing, cannot be read or is not JSON *)
Definition no_history (file : option FileContent) : Prop :=
  file = None \/ exists content e, file = Some content
                                  /\ read_json content = Raise e.

(** *** Product names *)

(** a lookup that found nothing, or whose cleaned text has three
    characters or fewer *)
Definition unqualified (lookup : option PageElement) : Prop :=
  forall e, lookup = Some e -> (length (clean_name e) <= 3)%nat.

(** the element is a tag of that name *)
Definition tag_named (name : pystr) (e : PageElement) : bool :=
  match e with
  | Tag n _ _ => PyStr.eqb n name
  | _ => false
  end.

(** [found] is the first element of the document, in document order,
    that has the property, or nothing when none has it *)
Definition first_such (P : PageElement -> Prop) (soup : BeautifulSoup)
           (found : option PageElement) : Prop :=
  match found with
  | Some e =>
      exists before after,
        soup_descendants soup = before ++ e :: after
        /\ P e /\ Forall (fun x => ~ P x) before
  | None => Forall (fun x => ~ P x) (soup_descendants soup)
  end.


(** *** Texts *)

(** the text neither begins nor ends with white space *)
Definition no_outer_space (s : pystr) : bool :=
  match s with
  | [] => true
  | c :: _ => negb (isspace c) && negb (isspace (last s c))
  end.

(** the text is made of white space *)
Definition blank (s : pystr) : bool := forallb isspace s.

(** the text holds no newline *)
Definition one_line (s : pystr) : bool := forallb dot s.

(** the text [part] occurs in [whole] *)
Definition occurs_in (part whole : pystr) : Prop :=
  exists before after, whole = before ++ part ++ after.

(** the text starts with [prefix] *)
Definition starts_with (prefix s : pystr) : bool :=
  PyStr.eqb (firstn (length prefix) s) prefix.

(** *** The cleaning of a name *)

(** the text holds no bar, narrow or wide *)
Definition no_bar (s : pystr) : bool := forallb (fun c => negb (bar c)) s.

(** neither a bar nor a hyphen *)
Definition no_separator (c : Z) : bool := negb (bar c) && negb (c =? 45).

(** the text up to its first bar *)
Definition before_bar (s : pystr) : pystr :=
  take_while (fun c => negb (bar c)) s.

(** here, white space aside, stand a hyphen and the site name *)
Definition site_mark (s : pystr) : bool :=
  match drop_while isspace s with
  | c :: after => (c =? 45) && starts_with site_name (drop_while isspace after)
  | [] => false
  end.

(** the text up to the first such place *)
Fixpoint before_site (s : pystr) : pystr :=
  match s with
  | [] => []
  | c :: s' => if site_mark s then [] else c :: before_site s'
  end.

(** the text has nothing after its first line but, at most, the newline
    that ends it *)
Definition line_ends (s : pystr) : bool :=
  match drop_while dot s with
  | [] => true
  | [_] => true
  | _ => false
  end.

(** the text cut at the first bar that stands on its last line; a
    newline that ends the text stays *)
Fixpoint cut_at_bar (s : pystr) : pystr :=
  match s with
  | [] => []
  | c :: s' =>
      if bar c && line_ends s' then drop_while dot s'
      else c :: cut_at_bar s'
  end.

(** what follows the site name, when here, white space aside, stand a
    hyphen and the site name *)
Definition after_site_mark (s : pystr) : option pystr :=
  match drop_while isspace s with
  | c :: after =>
      if (c =? 45) && starts_with site_name (drop_while isspace after)
      then Some (skipn 3 (drop_while isspace after))
      else None
  | [] => None
  end.

(** the text cut at the first such place whose site name stands on the
    last line; a newline that ends the text stays *)
Fixpoint cut_at_site (s : pystr) : pystr :=
  match s with
  | [] => []
  | c :: s' =>
      match after_site_mark s with
      | Some rest =>
          if line_ends rest then drop_while dot rest
          else c :: cut_at_site s'
      | None => c :: cut_at_site s'
      end
  end.

(** the cleaning of a text: trimmed, cut at the bar, cut at the site
    name, trimmed again *)
Definition cleaned (text : pystr) : pystr :=
  strip (cut_at_site (cut_at_bar (strip text))).

(** a lookup that found nothing, or whose text, cleaned, has three
    characters or fewer *)
Definition falls_short (lookup : option PageElement) : Prop :=
  forall e, lookup = Some e -> (length (cleaned (get_text e)) <= 3)%nat.

(** *** The yen amounts of a text *)

(** white space aside, the text goes on with the yen unit *)
Definition unit_follows (s : pystr) : bool :=
  match drop_while isspace s with
  | c :: _ => yen_unit c
  | [] => false
  end.

(** the run of digits and commas that starts here, when it has three
    characters or more and the unit follows it *)
Definition yen_amount_here (s : pystr) : option pystr :=
  if (3 <=? Z.of_nat (length (take_while digit_or_comma s)))
     && unit_follows (drop_while digit_or_comma s)
  then Some (take_while digit_or_comma s)
  else None.

(** the yen amounts of a text, in the order of the text: the whole runs
    of digits and commas of three characters or more that the unit
    follows; [inside] tells that the character before is of a run *)
Fixpoint yen_amounts_from (inside : bool) (s : pystr) : list pystr :=
  match s with
  | [] => []
  | c :: s' =>
      if digit_or_comma c then
        if inside then yen_amounts_from true s'
        else match yen_amount_here s with
             | Some run => run :: yen_amounts_from true s'
             | None => yen_amounts_from true s'
             end
      else yen_amounts_from false s'
  end.

Definition yen_amounts (s : pystr) : list pystr := yen_amounts_from false s.

(** the match of line 56 at the start of a run *)
Definition amount_at (t1 : pystr) : option (pystr * pystr) :=
  if 3 <=? Z.of_nat (length (take_while digit_or_comma t1)) then
    match drop_while isspace (drop_while digit_or_comma t1) with
    | c :: t3 =>
        if yen_unit c then Some (take_while digit_or_comma t1, t3) else None
    | [] => None
    end
  else None.

(** *** Words in attribute values *)

(** two texts equal letter by letter, the case of the letters aside: the
    first is the word of a pattern, in lower case *)
Fixpoint same_letters (word m : pystr) : bool :=
  match word, m with
  | [], [] => true
  | x :: word', c :: m' => eq_ignorecase x c && same_letters word' m'
  | _, _ => false
  end.

(** the word stands somewhere in the value, in whatever case *)
Definition holds_word (word v : pystr) : Prop :=
  exists before m after,
    v = before ++ m ++ after /\ same_letters word m = true.

(** *** The list of urls *)

Definition blank_or_comma (c : Z) : bool := isspace c || (c =? 44).

(** a url as the list keeps it: not empty, no white space at either end,
    no comma *)
Definition listed_url (u : pystr) : Prop :=
  u <> [] /\ no_outer_space u = true /\ ~ In 44 u.

(** [','.join(items)] *)
Fixpoint join_comma (items : list pystr) : pystr :=
  match items with
  | [] => []
  | [x] => x
  | x :: rest => x ++ 44 :: join_comma rest
  end.

(** an entry of the variable: a url between two runs of white space *)
Definition written (entry : pystr * pystr * pystr) : pystr :=
  match entry with
  | (before, u, after) => before ++ u ++ after
  end.

Definition well_written (entry : pystr * pystr * pystr) : Prop :=
  match entry with
  | (before, u, after) =>
      blank before = true /\ blank after = true /\ listed_url u
  end.

(** the tag has a [class] whose values, joined by spaces, hold the
    word *)
Definition class_holds (word : pystr) (e : PageElement) : Prop :=
  match e with
  | Tag _ attrs _ =>
      match attrs_get attrs (lit "class") with
      | Some (AttrStr v) => holds_word word v
      | Some (AttrList vs) => holds_word word (join_space vs)
      | None => False
      end
  | _ => False
  end.

(** *** The store and the file, continued *)

(** every price of the store is above 0 *)
Definition positive_prices (d : Store) : Prop :=
  Forall (fun kv => 0 < price (snd kv)) d.

(** a piece that goes to the file without raising, and its text *)
Definition chunk_ok (c : Chunk) : bool :=
  match c with
  | ChunkText s => encodable s
  | ChunkInt n => short_enough n
  end.

Definition chunk_text (c : Chunk) : pystr :=
  match c with
  | ChunkText s => s
  | ChunkInt n => repr_int n
  end.

(** an observation that [json.dump] can write: its texts hold no
    surrogate, its price has no more digits than the interpreter
    converts *)
Definition storable (o : Observation) : bool :=
  encodable (url o) && short_enough (price o)
  && encodable (product_name o) && encodable (timestamp o).

(** the prices of the store have no more digits than the interpreter
    converts *)
Definition short_prices (d : Store) : Prop :=
  Forall (fun kv => short_enough (price (snd kv)) = true) d.

(** a store that [save_prices] can write *)
Definition writable (d : Store) : bool :=
  forallb (fun kv => encodable (fst kv) && storable (snd kv)) d.

(** what the world gives can be written: the time of its clock and the
    names found in its pages hold no surrogate *)
Definition encodable_world (w : World) : Prop :=
  encodable (now w) = true
  /\ forall u p name, observes w u p name -> encodable name = true.

(** an interval that [time.sleep] takes: not negative, and short of the
    thirty years that every clock has left *)
Definition sleepable (secs : Z) : Prop := 0 <= secs <= 1000000000.

(** every entry of the store carries the url it is kept under *)
Definition keyed_by_url (d : Store) : Prop :=
  Forall (fun kv => url (snd kv) = fst kv) d.

(** a process started on the history file as it stands would find the
    store of this state *)
Definition file_mirrors_store (st : State) : Prop :=
  initial_state (price_data_file st)
  = Some {| previous_prices := previous_prices st;
            price_data_file := price_data_file st;
            out := [] |}.

(** a character that [json.dump] with [ensure_ascii=False] writes as it
    is: no quote, no backslash, no control character *)
Definition plain_char (c : Z) : bool :=
  negb ((c =? 34) || (c =? 92) || ((0 <=? c) && (c <? 32))).

Definition plain (s : pystr) : bool := forallb plain_char s.

(** *** Requests to the webhook *)

(** what a request to the webhook shows: where it goes, the message, the
    title and the colour *)
Definition shown (post : pystr * Embed) : pystr * (Message * pystr * Z) :=
  (fst post, (description (snd post), title (snd post), color (snd post))).

(** what the request for a call of [notify] has to show: green and the
    title of a drop when the flag is set, orange and the other title when
    it is not *)
Definition posted_for (hook : pystr) (call : Message * bool)
  : pystr * (Message * pystr * Z) :=
  (hook, (fst call,
          (if snd call then title_drop else title_change),
          (if snd call then 65280 else 16750848))).

(** *** The ways through the loop body *)

(** the percentage of line 159 *)
Definition percent_of (change previous_price : Z) : float :=
  float_mul_int (SFdiv 53 1024 (exact_int change) (exact_int previous_price))
                100.

(** the message of line 162 for a price going from [old] to [new] *)
Definition change_message (name : pystr) (old new : Z) (u : pystr) : Message :=
  PriceChange (new - old <? 0) name old new (new - old)
              (percent_of (new - old) old) u.

(** the outcome of the loop body for a url: the check failed; the url is
    new; the price is the stored one; the stored price is 0; the stored
    price or the change has too many digits for the message; the price
    has changed ([new] being the events of [notify]).  Where the store is
    to be saved and cannot be written, [save_prices] raises. *)
Inductive visit (cfg : Config) (w : World) (u : pystr) (st : State)
  : Result State -> Prop :=
| visit_failed line :
    check_fails w u ->
    visit cfg w u st (Return (print line st))
| visit_first p name :
    observes w u p name ->
    dict_contains (previous_prices st) u = false ->
    writable (previous_prices st ++ [(u, observation_of w u p name)]) = true ->
    visit cfg w u st
      (Return {| previous_prices :=
                   previous_prices st ++ [(u, observation_of w u p name)];
                 price_data_file :=
                   Some (Text (json_dump
                     (previous_prices st ++ [(u, observation_of w u p name)])));
                 out := out st
                        ++ [Printed (LogFirstSeen (firstn 40 name) p)] |})
| visit_first_unsaved p name e :
    observes w u p name ->
    dict_contains (previous_prices st) u = false ->
    writable (previous_prices st ++ [(u, observation_of w u p name)]) = false ->
    e = UnicodeEncodeError \/ e = ValueError ->
    visit cfg w u st (Raise e)
| visit_unchanged p name previous :
    observes w u p name ->
    dict_get (previous_prices st) u = Some previous ->
    price previous = p ->
    visit cfg w u st (Return (print (LogUnchanged (firstn 40 name) p) st))
| visit_zero p name previous :
    observes w u p name ->
    dict_get (previous_prices st) u = Some previous ->
    price previous = 0 ->
    visit cfg w u st (Raise ZeroDivisionError)
| visit_long p name previous :
    observes w u p name ->
    dict_get (previous_prices st) u = Some previous ->
    price previous <> p ->
    price previous <> 0 ->
    short_enough (price previous) && short_enough (p - price previous)
    = false ->
    visit cfg w u st (Raise ValueError)
| visit_changed p name previous new :
    observes w u p name ->
    dict_get (previous_prices st) u = Some previous ->
    price previous <> p ->
    price previous <> 0 ->
    writable (dict_set (previous_prices st) u (observation_of w u p name))
    = true ->
    notify_calls new
    = [(change_message name (price previous) p u, p - price previous <? 0)] ->
    posts new
    = match discord_webhook cfg with
      | [] => []
      | hook =>
          [(hook,
            build_embed w (change_message name (price previous) p u)
                        (p - price previous <? 0))]
      end ->
    visit cfg w u st
      (Return {| previous_prices :=
                   dict_set (previous_prices st) u (observation_of w u p name);
                 price_data_file :=
                   Some (Text (json_dump
                     (dict_set (previous_prices st) u
                               (observation_of w u p name))));
                 out := out st ++ new |})
| visit_changed_unsaved p name previous e :
    observes w u p name ->
    dict_get (previous_prices st) u = Some previous ->
    price previous <> p ->
    price previous <> 0 ->
    writable (dict_set (previous_prices st) u (observation_of w u p name))
    = false ->
    e = UnicodeEncodeError \/ e = ValueError ->
    visit cfg w u st (Raise e).

End Notions.
Import Notions.

(* ================================================================== *)
(** ** Sample documents, worlds and states *)

Module Samples.
Import Monitor.

(** [<span id="price">500</span>] *)
Definition page_id_price : BeautifulSoup :=
  [ Tag (lit "span") [ (lit "id", AttrStr (lit "price")) ]
        [ NavigableString (lit "500") ] ].

(** [<span class="price">500</span>] *)
Definition page_class_price : BeautifulSoup :=
  [ Tag (lit "span") [ (lit "class", AttrList [lit "price"]) ]
        [ NavigableString (lit "500") ] ].

(** [<span itemprop="price">1,980</span>] *)
Definition page_itemprop : BeautifulSoup :=
  [ Tag (lit "span") [ (lit "itemprop", AttrStr (lit "price")) ]
        [ NavigableString (lit "1,980") ] ].

(** [<p itemprop="price">99</p><p> 12,800 Y</p>], Y the yen unit *)
Definition page_two_numbers : BeautifulSoup :=
  [ Tag (lit "p") [ (lit "itemprop", AttrStr (lit "price")) ]
        [ NavigableString (lit "99") ];
    Tag (lit "p") [] [ NavigableString (lit " 12,800 " ++ [20870]) ] ].

(** [<h1>Camera X100</h1><span itemprop="price">800</span>] *)
Definition page_800 : BeautifulSoup :=
  [ Tag (lit "h1") [] [ NavigableString (lit "Camera X100") ];
    Tag (lit "span") [ (lit "itemprop", AttrStr (lit "price")) ]
        [ NavigableString (lit "800") ] ].

Definition url_x : pystr := lit "https://online.nojima.co.jp/x".
Definition url_y : pystr := lit "https://online.nojima.co.jp/y".

(** every request is answered with the given status and page, every
    post to the webhook with [posted] *)
Definition world (status : Z) (page : BeautifulSoup) (posted : Result Z)
  : World :=
  {| requests_get := fun _ => Return {| status_code := status; text := page |};
     requests_post := fun _ _ => posted;
     now := lit "2026-01-02T03:04:05.000006";
     utcnow := lit "2026-01-01T18:04:05.000007" |}.

(** no request gets through *)
Definition world_down : World :=
  {| requests_get := fun _ => Raise (RequestException (lit "timed out"));
     requests_post := fun _ _ => Raise (RequestException (lit "timed out"));
     now := lit "2026-01-02T03:04:05.000006";
     utcnow := lit "2026-01-01T18:04:05.000007" |}.

Definition cfg : Config :=
  {| discord_webhook := lit "https://discord.example/api/webhooks/1";
     urls := [url_x; url_y];
     check_interval := 300 |}.

Definition stored (p : Z) : Observation :=
  {| url := url_x; price := p; product_name := lit "Camera X100";
     timestamp := lit "2026-01-01T00:00:00.000001" |}.

(** the monitor with one entry, of price [p], for [url_x] *)
Definition state_with (p : Z) : State :=
  {| previous_prices := [(url_x, stored p)];
     price_data_file := Some (Text (json_dump [(url_x, stored p)]));
     out := [] |}.

Definition state_empty : State :=
  {| previous_prices := []; price_data_file := None; out := [] |}.

(** a history file with one entry of price 50 *)
Definition history_price_50 : option FileContent :=
  Some (Text (json_dump [(url_x, stored 50)])).

(** a history file that is not JSON *)
Definition history_broken : option FileContent :=
  Some (Text (lit "{ broken")).


(** no webhook configured *)
Definition cfg_silent : Config :=
  {| discord_webhook := [];
     urls := [url_x; url_y];
     check_interval := 300 |}.

(** the world at each step: the answer 204 of the webhook, and a page
    that shows 800 *)
Definition always_800 : Environment :=
  fun _ => world 200 page_800 (Return 204).

(** the page shows 800 at the first step and 1,980 afterwards *)
Definition first_800_then_1980 : Environment :=
  fun t => match t with
           | O => world 200 page_800 (Return 204)
           | _ => world 200 page_itemprop (Return 204)
           end.

(** [<h1>  Camera X100 </h1><title>Camera X100 - (site) online</title>] *)
Definition page_heading : BeautifulSoup :=
  [ Tag (lit "h1") [] [ NavigableString (lit "  Camera X100 ") ];
    Tag (lit "title") []
        [ NavigableString (lit "Camera X100 - " ++ Extractor.site_name
                           ++ lit " online") ] ].

(** [<h2 class="name">Great TV 55</h2><h1>TV</h1>
    <h2 class="main Product-Title">Great TV 55 | shop</h2>
    <title>Shop - (site)</title>] *)
Definition page_three_lookups : BeautifulSoup :=
  [ Tag (lit "h2") [ (lit "class", AttrList [lit "name"]) ]
        [ NavigableString (lit "Great TV 55") ];
    Tag (lit "h1") [] [ NavigableString (lit "TV") ];
    Tag (lit "h2") [ (lit "class", AttrList [lit "main"; lit "Product-Title"]) ]
        [ NavigableString (lit "Great TV 55 | shop") ];
    Tag (lit "title") []
        [ NavigableString (lit "Shop - " ++ Extractor.site_name) ] ].

(** the text "Camera X100 - (site) online | shop" *)
Definition title_text : pystr :=
  lit "Camera X100 - " ++ Extractor.site_name ++ lit " online | shop".

(** a product name in katakana (terebi) *)
Definition name_terebi : pystr := [12486; 12524; 12499].

(** an entry with that name *)
Definition stored_terebi : Observation :=
  {| url := url_x; price := 800; product_name := name_terebi;
     timestamp := lit "2026-01-02T03:04:05.000006" |}.

(** [<script itemprop="price">500</script><p>1,200 Y</p>], Y the yen
    unit *)
Definition page_script_price : BeautifulSoup :=
  [ Tag (lit "script") [ (lit "itemprop", AttrStr (lit "price")) ]
        [ ContainerString Script (lit "500") ];
    Tag (lit "p") [] [ NavigableString (lit "1,200 " ++ [20870]) ] ].

(** a name that holds a lone surrogate, U+D800 *)
Definition name_surrogate : pystr := lit "Camera " ++ [55296] ++ lit "X100".

(** [<h1>Camera &#xD800;X100</h1><span itemprop="price">800</span>]: the
    parser turns the character reference into the surrogate *)
Definition page_surrogate : BeautifulSoup :=
  [ Tag (lit "h1") [] [ NavigableString name_surrogate ];
    Tag (lit "span") [ (lit "itemprop", AttrStr (lit "price")) ]
        [ NavigableString (lit "800") ] ].

(** an entry for [url_y] with that name *)
Definition stored_surrogate : Observation :=
  {| url := url_y; price := 500; product_name := name_surrogate;
     timestamp := lit "2026-01-01T00:00:00.000001" |}.

(** a text between quotes *)
Definition quoted (s : pystr) : pystr := 34 :: s ++ [34].

(** a history file with an entry for [url_x] and one for [url_y] whose
    name is written with the escape of the surrogate,
    ["Camera \ud800X100"] *)
Definition history_entry (u : pystr) (p name : pystr) : pystr :=
  quoted u ++ lit ": {"
  ++ quoted (lit "url") ++ lit ": " ++ quoted u ++ lit ", "
  ++ quoted (lit "price") ++ lit ": " ++ p ++ lit ", "
  ++ quoted (lit "product_name") ++ lit ": " ++ quoted name ++ lit ", "
  ++ quoted (lit "timestamp") ++ lit ": "
  ++ quoted (lit "2026-01-01T00:00:00.000001") ++ lit "}".

Definition history_surrogate : pystr :=
  lit "{" ++ history_entry url_x (lit "1000") (lit "Camera X100") ++ lit ", "
  ++ history_entry url_y (lit "500") (lit "Camera \ud800X100") ++ lit "}".

(** the monitor started on such a file: the entry of price [p] for
    [url_x], the entry with the surrogate for [url_y] *)
Definition state_with_surrogate (p : Z) : State :=
  {| previous_prices := [(url_x, stored p); (url_y, stored_surrogate)];
     price_data_file := Some (Text history_surrogate);
     out := [] |}.

(** an interval below 0, as [CHECK_INTERVAL=-1] gives *)
Definition cfg_negative : Config :=
  {| discord_webhook := [];
     urls := [url_x];
     check_interval := -1 |}.

(** the variable [MONITOR_URLS] holding " (url_x) ,, (url_y)" *)
Definition two_urls : option pystr :=
  Some (lit " " ++ url_x ++ lit " ,," ++ url_y).

End Samples.
Import Samples.

(* ================================================================== *)
(** ** Strings and patterns *)

Module PyStrFacts.

Lemma eqb_eq (a b : pystr) : PyStr.eqb a b = true <-> a = b.
Proof.
  revert b; induction a as [|x a IH]; intros [|y b]; simpl;
    try (split; [discriminate | discriminate]); try tauto.
  rewrite andb_true_iff, Z.eqb_eq, IH.
  split; [intros [-> ->]; reflexivity | intros H; inversion H; auto].
Qed.

Lemma eqb_refl (a : pystr) : PyStr.eqb a a = true.
Proof. apply eqb_eq; reflexivity. Qed.

Lemma eqb_neq (a b : pystr) : PyStr.eqb a b = false <-> a <> b.
Proof.
  rewrite <- eqb_eq. destruct (PyStr.eqb a b); split; congruence.
Qed.

End PyStrFacts.

Module ReFacts.
Import Re.

Section Sound.
Variable R : Type.
Implicit Types (k : cont R) (s : pystr) (r : R).

Lemma chr_sound p k s r :
  chr p k s = Some r ->
  exists c rest, s = c :: rest /\ p c = true /\ k rest = Some r.
Proof.
  destruct s as [|c s']; simpl; [discriminate|].
  destruct (p c) eqn:Hp; [|discriminate].
  intros H; exists c, s'; auto.
Qed.

Lemma opt_sound p k s r :
  opt p k s = Some r ->
  exists pre rest,
    s = pre ++ rest /\ forallb p pre = true /\ (length pre <= 1)%nat
    /\ k rest = Some r.
Proof.
  destruct s as [|c s']; simpl.
  - intros H; exists [], []; simpl; auto.
  - destruct (p c) eqn:Hp.
    + destruct (k s') eqn:Hk.
      * intros H; inversion H; subst.
        exists [c], s'; simpl; rewrite Hp; auto.
      * intros H; exists [], (c :: s'); simpl; auto.
    + intros H; exists [], (c :: s'); simpl; auto.
Qed.

Lemma star_sound p k s r :
  star p k s = Some r ->
  exists pre rest,
    s = pre ++ rest /\ forallb p pre = true /\ k rest = Some r.
Proof.
  induction s as [|c s' IH]; simpl.
  - intros H; exists [], []; simpl; auto.
  - destruct (p c) eqn:Hp.
    + destruct (star p k s') eqn:Hs.
      * intros H; inversion H; subst.
        destruct (IH eq_refl) as (pre & rest & -> & Hall & Hk).
        exists (c :: pre), rest; simpl; rewrite Hp; auto.
      * intros H; exists [], (c :: s'); simpl; auto.
    + intros H; exists [], (c :: s'); simpl; auto.
Qed.

Lemma atleast3_sound p k s r :
  atleast3 p k s = Some r ->
  exists pre rest,
    s = pre ++ rest /\ forallb p pre = true /\ (3 <= length pre)%nat
    /\ k rest = Some r.
Proof.
  unfold atleast3; intros H.
  apply chr_sound in H; destruct H as (c1 & s1 & -> & H1 & H).
  apply chr_sound in H; destruct H as (c2 & s2 & -> & H2 & H).
  apply chr_sound in H; destruct H as (c3 & s3 & -> & H3 & H).
  apply star_sound in H; destruct H as (pre & rest & -> & Hall & Hk).
  exists (c1 :: c2 :: c3 :: pre), rest; simpl.
  rewrite H1, H2, H3; simpl; repeat split; auto; lia.
Qed.
End Sound.

Lemma captured_app (pre rest : pystr) : captured (pre ++ rest) rest = pre.
Proof.
  unfold captured. rewrite length_app.
  replace (length pre + length rest - length rest)%nat with (length pre) by lia.
  rewrite firstn_app, firstn_all, Nat.sub_diag; simpl.
  apply app_nil_r.
Qed.

(** *** Greedy repetition *)

Section Greedy.
Variable R : Type.
Implicit Types (k : cont R) (s : pystr).

Lemma star_ext p k k' s : (forall t, k t = k' t) -> star p k s = star p k' s.
Proof.
  intros H; induction s as [|c s IH]; simpl; [apply H|].
  rewrite IH, H. reflexivity.
Qed.

Lemma opt_ext p k k' s : (forall t, k t = k' t) -> opt p k s = opt p k' s.
Proof.
  intros H; destruct s as [|c s]; simpl; [apply H|].
  rewrite !H. reflexivity.
Qed.

(** when the rest of the pattern always matches, the repetition keeps
    the longest run *)
Lemma star_longest p k s :
  (forall t, k t <> None) -> star p k s = k (drop_while p s).
Proof.
  intros H; induction s as [|c s IH]; simpl; [reflexivity|].
  destruct (p c); [|reflexivity].
  rewrite IH. destruct (k (drop_while p s)) eqn:E; [reflexivity|].
  exfalso; eapply H; exact E.
Qed.

(** when the rest of the pattern rejects every text that starts in the
    class, giving characters back is of no use *)
Lemma star_no_retreat p k s :
  (forall c t, p c = true -> k (c :: t) = None) ->
  star p k s = k (drop_while p s).
Proof.
  intros H; induction s as [|c s IH]; simpl; [reflexivity|].
  destruct (p c) eqn:Hp; [|reflexivity].
  rewrite IH. destruct (k (drop_while p s)) eqn:E; [reflexivity|].
  apply H; exact Hp.
Qed.
End Greedy.

Lemma take_drop_while p s : take_while p s ++ drop_while p s = s.
Proof.
  induction s as [|c s IH]; simpl; [reflexivity|].
  destruct (p c); simpl; [rewrite IH|]; reflexivity.
Qed.

Lemma captured_take_while p s : captured s (drop_while p s) = take_while p s.
Proof.
  rewrite <- (take_drop_while p s) at 1. apply captured_app.
Qed.

(** a match found by [findall] starts somewhere in the text *)
Lemma findall_from_nonempty m skip s :
  findall_from m skip s <> [] ->
  exists before s' g rest, s = before ++ s' /\ m s' = Some (g, rest).
Proof.
  revert skip; induction s as [|c s' IH]; intros skip; simpl; [congruence|].
  destruct skip as [|n].
  - destruct (m (c :: s')) as [[g rest]|] eqn:Hm.
    + intros _; exists [], (c :: s'), g, rest; auto.
    + intros H; destruct (IH _ H) as (b & t & g & rest & -> & Hm').
      exists (c :: b), t, g, rest; auto.
  - intros H; destruct (IH _ H) as (b & t & g & rest & -> & Hm').
    exists (c :: b), t, g, rest; auto.
Qed.

End ReFacts.

(* ================================================================== *)
(** ** The strings and the integers of JSON *)

Module JsonFacts.

(** *** Strings *)

Lemma hex_value_digit n :
  0 <= n < 16 -> hex_value (hex_digit n) = Some n.
Proof.
  intros H. unfold hex_digit, hex_value.
  destruct (n <? 10) eqn:E.
  - apply Z.ltb_lt in E.
    replace ((48 <=? 48 + n) && (48 + n <=? 57)) with true
      by (symmetry; apply andb_true_iff; split; apply Z.leb_le; lia).
    f_equal; lia.
  - apply Z.ltb_ge in E.
    replace ((48 <=? 87 + n) && (87 + n <=? 57)) with false
      by (symmetry; apply andb_false_iff; right; apply Z.leb_gt; lia).
    replace ((97 <=? 87 + n) && (87 + n <=? 102)) with true
      by (symmetry; apply andb_true_iff; split; apply Z.leb_le; lia).
    f_equal; lia.
Qed.

(** an escape with four hexadecimal digits that is no high surrogate *)
Lemma scanstring_u_single a b c d uni rest :
  decode_uXXXX a b c d = Some uni ->
  high_surrogate uni = false ->
  scanstring (92 :: 117 :: a :: b :: c :: d :: rest)
  = scanned uni (scanstring rest).
Proof.
  intros Hd Hs.
  change (scanstring (92 :: 117 :: a :: b :: c :: d :: rest))
    with (match decode_uXXXX a b c d with
          | None => None
          | Some uni =>
              let single := scanned uni (scanstring rest) in
              if high_surrogate uni then
                match rest with
                | x :: y :: a2 :: b2 :: c2 :: d2 :: rest3 =>
                    if (x =? 92) && (y =? 117) then
                      match decode_uXXXX a2 b2 c2 d2 with
                      | None => None
                      | Some uni2 =>
                          if low_surrogate uni2 then
                            scanned
                              (65536 + ((uni - 55296) * 1024 + (uni2 - 56320)))
                              (scanstring rest3)
                          else single
                      end
                    else single
                | _ => single
                end
              else single
          end).
  rewrite Hd. cbv zeta. rewrite Hs. reflexivity.
Qed.

Lemma decode_control c :
  0 <= c < 32 ->
  decode_uXXXX 48 48 (hex_digit (c / 16)) (hex_digit (c mod 16)) = Some c.
Proof.
  intros H. unfold decode_uXXXX.
  pose proof (Z.div_mod c 16 ltac:(lia)) as Hdm.
  pose proof (Z.mod_pos_bound c 16 ltac:(lia)) as Hm.
  assert (Hq : 0 <= c / 16 < 16).
  { split; [apply Z.div_pos; lia | apply Z.div_lt_upper_bound; lia]. }
  rewrite (hex_value_digit (c / 16) Hq), (hex_value_digit (c mod 16) Hm).
  change (hex_value 48) with (Some 0). cbv beta iota.
  f_equal; lia.
Qed.

Lemma scanstring_escape_char c tail :
  scanstring (escape_char c ++ tail) = scanned c (scanstring tail).
Proof.
  unfold escape_char.
  destruct (c =? 34) eqn:E34; [apply Z.eqb_eq in E34; subst; reflexivity|].
  destruct (c =? 92) eqn:E92; [apply Z.eqb_eq in E92; subst; reflexivity|].
  destruct (c =? 10) eqn:E10; [apply Z.eqb_eq in E10; subst; reflexivity|].
  destruct (c =? 13) eqn:E13; [apply Z.eqb_eq in E13; subst; reflexivity|].
  destruct (c =? 9) eqn:E9; [apply Z.eqb_eq in E9; subst; reflexivity|].
  destruct (c =? 8) eqn:E8; [apply Z.eqb_eq in E8; subst; reflexivity|].
  destruct (c =? 12) eqn:E12; [apply Z.eqb_eq in E12; subst; reflexivity|].
  destruct ((0 <=? c) && (c <? 32)) eqn:Ectl.
  - apply andb_true_iff in Ectl; destruct Ectl as [H0 H32].
    apply Z.leb_le in H0; apply Z.ltb_lt in H32.
    cbn [app]. apply scanstring_u_single.
    + apply decode_control; lia.
    + unfold high_surrogate. apply andb_false_iff; left.
      apply Z.leb_gt; lia.
  - cbn [app scanstring]. rewrite E34, E92.
    assert (Hc : (0 <=? c) && (c <=? 31) = false).
    { apply andb_false_iff. apply andb_false_iff in Ectl.
      destruct Ectl as [H|H]; [left; exact H | right].
      apply Z.ltb_ge in H. apply Z.leb_gt. lia. }
    rewrite Hc. reflexivity.
Qed.

Lemma scanstring_encoded s rest :
  scanstring (flat_map escape_char s ++ 34 :: rest) = Some (s, rest).
Proof.
  induction s as [|c s IH]; [reflexivity|].
  cbn [flat_map]. rewrite <- app_assoc, scanstring_escape_char, IH.
  reflexivity.
Qed.

(** *** Integers *)

Lemma uint_chars_digits d : forallb isdigit (uint_chars d) = true.
Proof. induction d; simpl; auto. Qed.

Lemma span_digits_app ds c rest :
  forallb isdigit ds = true -> isdigit c = false ->
  span_digits (ds ++ c :: rest) = (ds, c :: rest).
Proof.
  intros Hds Hc; induction ds as [|x ds IH]; simpl.
  - rewrite Hc; reflexivity.
  - simpl in Hds; apply andb_true_iff in Hds; destruct Hds as [Hx Hds].
    rewrite Hx, (IH Hds). reflexivity.
Qed.

Lemma int_digits_cons acc c s :
  isdigit c = true ->
  int_digits acc (c :: s) = int_digits (10 * acc + (c - 48)) s.
Proof. intros H; simpl; rewrite H; reflexivity. Qed.

Lemma int_digits_acc d acc :
  int_digits (Zpos acc) (uint_chars d) = Some (Zpos (Pos.of_uint_acc d acc)).
Proof.
  revert acc; induction d; intros acc; cbn [uint_chars Pos.of_uint_acc];
    try reflexivity;
    rewrite int_digits_cons by reflexivity; rewrite <- IHd; f_equal; lia.
Qed.

Lemma int_digits_zero d :
  int_digits 0 (uint_chars d) = Some (Z.of_N (Pos.of_uint d)).
Proof.
  induction d; cbn [uint_chars Pos.of_uint Z.of_N]; try reflexivity;
    rewrite int_digits_cons by reflexivity;
    first [ exact IHd | rewrite <- int_digits_acc; reflexivity ].
Qed.

Lemma to_uint_head p :
  exists c cs,
    uint_chars (Pos.to_uint p) = c :: cs /\ 49 <= c <= 57.
Proof.
  pose proof (DecimalPos.Unsigned.to_uint_nonzero p) as Hnz.
  pose proof (DecimalPos.Unsigned.to_of (Pos.to_uint p)) as Hnorm.
  rewrite DecimalPos.Unsigned.of_to in Hnorm. simpl in Hnorm.
  pose proof (DecimalFacts.unorm_0 (Pos.to_uint p)) as H0.
  assert (Hhead : Decimal.nzhead (Pos.to_uint p) <> Decimal.Nil).
  { intros E. apply H0 in E. rewrite <- Hnorm in E. congruence. }
  rewrite (DecimalFacts.unorm_nzhead _ Hhead) in Hnorm.
  pose proof (DecimalFacts.nzhead_nonzero (Pos.to_uint p)) as Hd0.
  rewrite <- Hnorm in Hd0, Hhead.
  destruct (Pos.to_uint p) as [|d|d|d|d|d|d|d|d|d|d];
    [congruence | exfalso; eapply Hd0; reflexivity | ..];
    simpl; eexists _, _; (split; [reflexivity | lia]).
Qed.

Lemma int_to_uint p : PyStr.int (uint_chars (Pos.to_uint p)) = Some (Zpos p).
Proof.
  destruct (to_uint_head p) as (c & cs & E & _).
  unfold PyStr.int. rewrite E, <- E.
  rewrite int_digits_zero, DecimalPos.Unsigned.of_to. reflexivity.
Qed.

Lemma match_integer_to_uint p rest :
  match_integer (uint_chars (Pos.to_uint p) ++ 44 :: rest)
  = Some (uint_chars (Pos.to_uint p), 44 :: rest).
Proof.
  destruct (to_uint_head p) as (c & cs & E & Hc).
  pose proof (uint_chars_digits (Pos.to_uint p)) as Hd.
  rewrite E in *. simpl in Hd. apply andb_true_iff in Hd.
  destruct Hd as [_ Hcs].
  cbn [app match_integer].
  destruct (c =? 48) eqn:E48; [apply Z.eqb_eq in E48; lia|].
  assert (Hr : (49 <=? c) && (c <=? 57) = true).
  { apply andb_true_iff; split; apply Z.leb_le; lia. }
  rewrite Hr, (span_digits_app cs 44 rest Hcs eq_refl). reflexivity.
Qed.

Lemma short_enough_digits p :
  short_enough (Zpos p) = true ->
  (max_str_digits <? Z.of_nat (length (uint_chars (Pos.to_uint p)))) = false.
Proof.
  unfold short_enough, repr_int. cbn [Z.abs Z.to_int].
  intros H. apply Z.leb_le in H. apply Z.ltb_ge. exact H.
Qed.

(** an integer written by [repr_int] and followed by a comma is read
    back, when it has no more digits than the interpreter allows *)
Lemma match_number_repr z rest :
  short_enough z = true ->
  match_number (repr_int z ++ 44 :: rest) = Some (PyInt z, 44 :: rest).
Proof.
  destruct z as [|p|p]; intros Hshort; [reflexivity| |].
  - unfold repr_int, match_number. cbn [Z.to_int].
    destruct (to_uint_head p) as (c & cs & E & Hc).
    rewrite E. cbn [app].
    destruct (c =? 45) eqn:E45; [apply Z.eqb_eq in E45; lia|].
    change (c :: cs ++ 44 :: rest) with ((c :: cs) ++ 44 :: rest).
    rewrite <- E, match_integer_to_uint.
    cbn [match_fraction match_exponent Z.eqb Pos.eqb orb].
    rewrite (short_enough_digits p Hshort), int_to_uint. reflexivity.
  - unfold repr_int, match_number. cbn [Z.to_int app Z.eqb Pos.eqb].
    rewrite match_integer_to_uint.
    cbn [match_fraction match_exponent Z.eqb Pos.eqb orb].
    rewrite (short_enough_digits p Hshort), int_to_uint. reflexivity.
Qed.

(** *** The digits of an integer *)

Lemma int_digits_bounds s :
  forallb isdigit s = true ->
  forall acc,
    exists v,
      int_digits acc s = Some (acc * 10 ^ Z.of_nat (length s) + v)
      /\ 0 <= v < 10 ^ Z.of_nat (length s).
Proof.
  induction s as [|c s IH]; intros Hd acc.
  - exists 0. simpl. split; [f_equal; lia | lia].
  - simpl in Hd. apply andb_true_iff in Hd. destruct Hd as [Hc Hs].
    destruct (IH Hs (10 * acc + (c - 48))) as (v & Hv & Hb).
    unfold isdigit in Hc. apply andb_true_iff in Hc. destruct Hc as [H1 H2].
    apply Z.leb_le in H1. apply Z.leb_le in H2.
    exists ((c - 48) * 10 ^ Z.of_nat (length s) + v).
    rewrite int_digits_cons
      by (unfold isdigit; apply andb_true_iff; split; apply Z.leb_le; lia).
    rewrite Hv.
    replace (Z.of_nat (length (c :: s))) with (Z.succ (Z.of_nat (length s)))
      by (cbn [length]; lia).
    rewrite Z.pow_succ_r by lia.
    split; [f_equal; lia | nia].
Qed.

(** a positive integer of [n] digits lies between [10 ^ (n - 1)] and
    [10 ^ n] *)
Lemma digits_bounds p :
  let n := Z.of_nat (length (uint_chars (Pos.to_uint p))) in
  1 <= n /\ 10 ^ (n - 1) <= Zpos p < 10 ^ n.
Proof.
  cbv zeta.
  destruct (to_uint_head p) as (c & cs & E & Hc).
  pose proof (int_to_uint p) as Hint.
  pose proof (uint_chars_digits (Pos.to_uint p)) as Hd.
  rewrite E in *. simpl in Hd. apply andb_true_iff in Hd.
  destruct Hd as [Hdc Hcs].
  unfold PyStr.int in Hint. rewrite int_digits_cons in Hint by exact Hdc.
  destruct (int_digits_bounds cs Hcs (10 * 0 + (c - 48))) as (v & Hv & Hb).
  rewrite Hv in Hint. inversion Hint as [Hp].
  replace (Z.of_nat (length (c :: cs)) - 1) with (Z.of_nat (length cs))
    by (cbn [length]; lia).
  replace (Z.of_nat (length (c :: cs))) with (Z.succ (Z.of_nat (length cs)))
    by (cbn [length]; lia).
  rewrite Z.pow_succ_r by lia.
  assert (H0 : 0 < 10 ^ Z.of_nat (length cs)) by (apply Z.pow_pos_nonneg; lia).
  split; [lia | nia].
Qed.

Lemma max_str_digits_pos : 0 <= max_str_digits.
Proof. unfold max_str_digits. lia. Qed.

Lemma short_enough_iff z :
  short_enough z = true <-> Z.abs z < 10 ^ max_str_digits.
Proof.
  pose proof max_str_digits_pos as Hm.
  assert (H1 : 1 <= max_str_digits) by (unfold max_str_digits; lia).
  assert (Hone : 1 < 10 ^ max_str_digits).
  { replace 1 with (10 ^ 0) at 1 by reflexivity.
    apply Z.pow_lt_mono_r; lia. }
  unfold short_enough.
  destruct (Z.abs z) as [|p|p] eqn:Ez; [| |lia].
  - split; [intros _; lia | intros _; reflexivity].
  - unfold repr_int. cbn [Z.to_int].
    destruct (digits_bounds p) as (Hn & Hlo & Hhi).
    set (n := Z.of_nat (length (uint_chars (Pos.to_uint p)))) in *.
    rewrite Z.leb_le. split.
    + intros Hle.
      apply Z.lt_le_trans with (10 ^ n); [exact Hhi|].
      apply Z.pow_le_mono_r; lia.
    + intros Hlt.
      destruct (Z_le_gt_dec n max_str_digits) as [Hle|Hgt]; [exact Hle|].
      exfalso.
      assert (Hpow : 10 ^ max_str_digits <= 10 ^ (n - 1))
        by (apply Z.pow_le_mono_r; lia).
      lia.
Qed.

(** the integers of the extractor's range, and their differences, are
    short *)
Lemma short_enough_small z : Z.abs z <= 10000000 -> short_enough z = true.
Proof.
  intros H. apply short_enough_iff.
  assert (Hpow : 10 ^ 7 < 10 ^ max_str_digits)
    by (apply Z.pow_lt_mono_r; unfold max_str_digits; lia).
  change (10 ^ 7) with 10000000 in Hpow. lia.
Qed.

(** an integer between two short ones is short *)
Lemma short_enough_between a z b :
  short_enough a = true -> short_enough b = true ->
  Z.abs z <= Z.max (Z.abs a) (Z.abs b) -> short_enough z = true.
Proof.
  rewrite !short_enough_iff. intros Ha Hb Hz. lia.
Qed.

End JsonFacts.

(* ================================================================== *)
(** ** The extractor *)

Module ExtractorFacts.
Import Re ReFacts Extractor.

Lemma yen_unit_eq c : yen_unit c = true -> c = 20870.
Proof. unfold yen_unit; intros H; apply Z.eqb_eq in H; exact H. Qed.

(** what a match of the pattern of line 56 looks like *)
Lemma yen_regex_sound s g rest :
  yen_regex s = Some (g, rest) ->
  exists lead spaces,
    s = lead ++ g ++ spaces ++ 20870 :: rest
    /\ (3 <= length g)%nat
    /\ forallb digit_or_comma g = true
    /\ forallb isspace spaces = true.
Proof.
  unfold yen_regex; intros H.
  apply opt_sound in H; destruct H as (p1 & r1 & -> & _ & _ & H).
  apply star_sound in H; destruct H as (p2 & r2 & -> & _ & H).
  apply atleast3_sound in H; destruct H as (p3 & r3 & -> & Hd & Hlen & H).
  apply star_sound in H; destruct H as (p4 & r4 & -> & Hsp & H).
  apply chr_sound in H; destruct H as (c & r5 & -> & Hc & H).
  apply yen_unit_eq in Hc; subst c.
  rewrite captured_app in H; inversion H; subst.
  exists (p1 ++ p2), p4; repeat split; auto.
  rewrite <- !app_assoc; reflexivity.
Qed.

Lemma findall_yen_nil text :
  ~ yen_suffixed_number text -> findall yen_regex text = [].
Proof.
  intros Hno. unfold findall.
  destruct (findall_from yen_regex 0 text) eqn:Hf; [reflexivity|].
  exfalso; apply Hno.
  assert (Hne : findall_from yen_regex 0 text <> []) by (rewrite Hf; discriminate).
  apply findall_from_nonempty in Hne.
  destruct Hne as (before & s' & g & rest & -> & Hm).
  apply yen_regex_sound in Hm.
  destruct Hm as (lead & spaces & -> & Hlen & Hd & Hsp).
  exists (before ++ lead), g, spaces, rest; repeat split; auto.
  rewrite <- !app_assoc; reflexivity.
Qed.

(** *** The pattern of line 46 *)

Lemma space_no_digit c : isspace c = true -> digit_or_comma c = false.
Proof.
  unfold isspace, digit_or_comma, isdigit. intros H.
  destruct ((48 <=? c) && (c <=? 57) || (c =? 44)) eqn:E; [|reflexivity].
  exfalso.
  rewrite ?orb_true_iff, ?andb_true_iff, ?Z.leb_le, ?Z.eqb_eq in H, E. lia.
Qed.

Lemma yen_no_digit c : yen_sign c = true -> digit_or_comma c = false.
Proof.
  unfold yen_sign, digit_or_comma, isdigit. intros H.
  destruct ((48 <=? c) && (c <=? 57) || (c =? 44)) eqn:E; [|reflexivity].
  exfalso.
  rewrite ?orb_true_iff, ?andb_true_iff, ?Z.leb_le, ?Z.eqb_eq in H, E. lia.
Qed.

Lemma yen_no_space c : yen_sign c = true -> isspace c = false.
Proof.
  unfold yen_sign, isspace. intros H.
  match goal with |- ?b = false => destruct b eqn:E; [|reflexivity] end.
  exfalso.
  rewrite ?orb_true_iff, ?andb_true_iff, ?Z.leb_le, ?Z.eqb_eq in H, E. lia.
Qed.

Lemma plus_digits s1 :
  plus digit_or_comma
       (fun s2 => star isspace
                       (opt yen_unit (fun _ => Some (captured s1 s2))) s2)
       s1
  = digits_here s1.
Proof.
  unfold plus, digits_here. destruct s1 as [|c t]; [reflexivity|].
  cbn [chr]. destruct (digit_or_comma c) eqn:Hc; [|reflexivity].
  rewrite star_longest.
  - rewrite star_longest.
    + assert (Ho : forall v u, opt yen_unit (fun _ : pystr => Some v) u
                               = Some (v : pystr)).
      { intros v [|x u]; simpl; [reflexivity|].
        destruct (yen_unit x); reflexivity. }
      rewrite Ho. f_equal. cbn [take_while]. rewrite Hc.
      pose proof (captured_app (c :: take_while digit_or_comma t)
                               (drop_while digit_or_comma t)) as Hcap.
      cbn [app] in Hcap. rewrite take_drop_while in Hcap. exact Hcap.
    + intros u. destruct u as [|x u]; simpl; [discriminate|].
      destruct (yen_unit x); discriminate.
  - intros u. rewrite star_longest.
    + destruct (drop_while isspace u) as [|x v]; simpl; [discriminate|].
      destruct (yen_unit x); discriminate.
    + intros v. destruct v as [|x v]; simpl; [discriminate|].
      destruct (yen_unit x); discriminate.
Qed.

Lemma price_regex_eq s :
  price_regex s =
  opt yen_sign (fun t => digits_here (drop_while isspace t)) s.
Proof.
  unfold price_regex. apply opt_ext. intros t.
  rewrite (star_ext _ _ _ digits_here t plus_digits).
  apply star_no_retreat.
  intros c u Hc. simpl. rewrite (space_no_digit c Hc). reflexivity.
Qed.

Lemma drop_nondigit_space s :
  drop_while (fun c => negb (digit_or_comma c)) (drop_while isspace s)
  = drop_while (fun c => negb (digit_or_comma c)) s.
Proof.
  induction s as [|c s IH]; simpl; [reflexivity|].
  destruct (isspace c) eqn:Hc; [|reflexivity].
  rewrite (space_no_digit c Hc). simpl. exact IH.
Qed.

Lemma digits_here_first s g :
  digits_here s = Some g -> first_digit_run s = Some g.
Proof.
  unfold digits_here, first_digit_run. destruct s as [|c t]; [discriminate|].
  destruct (digit_or_comma c) eqn:Hc; [|discriminate].
  cbn [drop_while]. rewrite Hc. simpl negb. cbv iota. auto.
Qed.

Lemma digits_after_spaces s g :
  digits_here (drop_while isspace s) = Some g -> first_digit_run s = Some g.
Proof.
  intros H. apply digits_here_first in H.
  unfold first_digit_run in *. rewrite drop_nondigit_space in H. exact H.
Qed.

(** [re.search] with the pattern of line 46 finds the first run of digits
    and commas of the text; the yen sign and the yen unit around it play
    no part in what group 1 is *)
Lemma search_price_regex text :
  search price_regex text = first_digit_run text.
Proof.
  induction text as [|c s IH]; [reflexivity|].
  cbn [search]. rewrite price_regex_eq. cbn [opt].
  destruct (digit_or_comma c) eqn:Hd.
  - assert (Hy : yen_sign c = false).
    { destruct (yen_sign c) eqn:E; [|reflexivity].
      apply yen_no_digit in E. congruence. }
    assert (Hs : isspace c = false).
    { destruct (isspace c) eqn:E; [|reflexivity].
      apply space_no_digit in E. congruence. }
    rewrite Hy. cbn [drop_while]. rewrite Hs. unfold digits_here at 1.
    rewrite Hd. unfold first_digit_run. cbn [drop_while]. rewrite Hd.
    reflexivity.
  - assert (Hfirst : first_digit_run (c :: s) = first_digit_run s).
    { unfold first_digit_run. cbn [drop_while]. rewrite Hd. reflexivity. }
    assert (Hhere : digits_here (c :: s) = None).
    { unfold digits_here. rewrite Hd. reflexivity. }
    rewrite Hfirst.
    destruct (yen_sign c) eqn:Hy.
    + cbn [drop_while]. rewrite (yen_no_space c Hy), Hhere.
      destruct (digits_here (drop_while isspace s)) as [g|] eqn:E.
      * symmetry. apply digits_after_spaces. exact E.
      * exact IH.
    + cbn [drop_while]. destruct (isspace c) eqn:Hs.
      * destruct (digits_here (drop_while isspace s)) as [g|] eqn:E.
        -- symmetry. apply digits_after_spaces. exact E.
        -- exact IH.
      * rewrite Hhere. exact IH.
Qed.

(** *** The loops as a search for the first accepted candidate *)

Lemma first_accepted_app a b :
  first_accepted (a ++ b) =
  match first_accepted a with
  | Some p => Some p
  | None => first_accepted b
  end.
Proof.
  induction a as [|[p|] a IH]; simpl; auto.
Qed.

Lemma scan_elements_first elements :
  scan_elements elements = first_accepted (map element_candidate elements).
Proof.
  induction elements as [|e rest IH]; [reflexivity|].
  cbn [scan_elements map first_accepted]. rewrite IH.
  unfold element_candidate, accepted.
  destruct (search price_regex (get_text e)) as [g|]; [|reflexivity].
  destruct (PyStr.int (remove_commas g)) as [n|]; [|reflexivity].
  destruct (in_range n); reflexivity.
Qed.

Lemma scan_prices_first prices :
  scan_prices prices = first_accepted (map accepted prices).
Proof.
  induction prices as [|s rest IH]; [reflexivity|].
  cbn [scan_prices map first_accepted]. rewrite IH.
  unfold accepted.
  destruct (PyStr.int (remove_commas s)) as [n|]; [|reflexivity].
  destruct (in_range n); reflexivity.
Qed.

Lemma scan_patterns_first soup patterns :
  scan_patterns soup patterns =
  first_accepted
    (map element_candidate (flat_map (find_all soup None) patterns)).
Proof.
  induction patterns as [|pat rest IH]; simpl; [reflexivity|].
  rewrite map_app, first_accepted_app, <- scan_elements_first, IH.
  reflexivity.
Qed.

Lemma extract_price_first soup :
  extract_price soup =
  first_accepted
    (map element_candidate (flat_map (find_all soup None) price_patterns)
     ++ map accepted (findall yen_regex (soup_get_text soup))).
Proof.
  unfold extract_price.
  rewrite first_accepted_app, <- scan_patterns_first, <- scan_prices_first.
  reflexivity.
Qed.

(** *** The range *)

Lemma in_range_bounds n : in_range n = true <-> 100 <= n <= 10000000.
Proof. unfold in_range; rewrite andb_true_iff, !Z.leb_le; tauto. Qed.

Lemma accepted_in_range s p : accepted s = Some p -> in_range p = true.
Proof.
  unfold accepted.
  destruct (PyStr.int (remove_commas s)) as [n|]; [|discriminate].
  destruct (in_range n) eqn:Hr; [|discriminate].
  intros H; inversion H; subst; exact Hr.
Qed.

Lemma element_candidate_in_range e p :
  element_candidate e = Some p -> in_range p = true.
Proof.
  unfold element_candidate.
  destruct (search price_regex (get_text e)); [|discriminate].
  apply accepted_in_range.
Qed.

Lemma first_accepted_in candidates p :
  first_accepted candidates = Some p -> In (Some p) candidates.
Proof.
  induction candidates as [|[q|] rest IH]; simpl; [discriminate| |].
  - intros H; inversion H; auto.
  - intros H; right; auto.
Qed.

Lemma extract_price_in_range soup p :
  extract_price soup = Some p -> in_range p = true.
Proof.
  rewrite extract_price_first; intros H.
  apply first_accepted_in in H.
  apply in_app_or in H; destruct H as [H|H]; apply in_map_iff in H;
    destruct H as (x & Hx & _).
  - eapply element_candidate_in_range; eauto.
  - eapply accepted_in_range; eauto.
Qed.

(** *** Elements the code never finds *)

Lemma filter_nil_forallb {A} (f : A -> bool) l :
  forallb (fun x => negb (f x)) l = true -> filter f l = [].
Proof.
  induction l as [|x l IH]; simpl; [reflexivity|].
  rewrite andb_true_iff; intros [Hx Hl].
  destruct (f x); [discriminate | auto].
Qed.

Lemma forallb_impl {A} (f g : A -> bool) l :
  (forall x, f x = true -> g x = true) ->
  forallb f l = true -> forallb g l = true.
Proof.
  intros Hfg; induction l as [|x l IH]; simpl; [reflexivity|].
  rewrite !andb_true_iff; intros [Hx Hl]; auto.
Qed.

Lemma no_class_hint_find_all soup word :
  In word [lit "price"; lit "value"] ->
  no_class_hint soup = true ->
  find_all soup None [(lit "class_", Pattern (contains_ignorecase word))] = [].
Proof.
  intros Hw Hno. unfold find_all. apply filter_nil_forallb.
  revert Hno; unfold no_class_hint; apply forallb_impl.
  intros [s|s|kind s|n attrs cs]; simpl; try reflexivity.
  intros Hh. apply negb_true_iff in Hh. apply negb_true_iff.
  rewrite andb_true_r.
  destruct (matches (attrs_get attrs (lit "class_"))
                    (Pattern (contains_ignorecase word))) eqn:Hm; [|reflexivity].
  rewrite <- Hh. symmetry.
  unfold class_hint. cbn [existsb].
  simpl in Hw. destruct Hw as [<-|[<-|[]]]; rewrite Hm;
    rewrite ?orb_true_r; reflexivity.
Qed.

(** The first two patterns name the attribute [class_]: a tag whose
    [class] is "price" is not among the elements searched. *)
Remark class_attribute_not_searched :
  find_all page_class_price None
           [(lit "class_", Pattern (contains_ignorecase (lit "price")))] = []
  /\ Extractor.extract_price page_class_price = None.
Proof. split; reflexivity. Qed.

End ExtractorFacts.

Module NameFacts.
Import Extractor.

Lemma first_name_some lookups text :
  first_name lookups = Some text ->
  (3 < length text)%nat
  /\ exists before element after,
       lookups = before ++ Some element :: after
       /\ Forall unqualified before
       /\ text = clean_name element.
Proof.
  induction lookups as [|[e|] rest IH]; simpl; [discriminate| |].
  - destruct (negb (PyStr.eqb (clean_name e) [])
              && (3 <? Z.of_nat (length (clean_name e)))) eqn:Hq.
    + intros H; inversion H; subst.
      apply andb_true_iff in Hq; destruct Hq as [_ Hlen].
      apply Z.ltb_lt in Hlen.
      split; [lia|]. exists [], e, rest; auto.
    + intros H; destruct (IH H) as (Hlen & b & el & a & -> & Hb & ->).
      split; [exact Hlen|].
      exists (Some e :: b), el, a; repeat split; auto.
      constructor; [|exact Hb].
      intros e' He'; inversion He'; subst e'.
      apply andb_false_iff in Hq; destruct Hq as [Hq|Hq].
      * apply negb_false_iff, PyStrFacts.eqb_eq in Hq.
        rewrite Hq; simpl; lia.
      * apply Z.ltb_ge in Hq; lia.
  - intros H; destruct (IH H) as (Hlen & b & el & a & -> & Hb & ->).
    split; [exact Hlen|].
    exists (None :: b), el, a; repeat split; auto.
    constructor; [|exact Hb]. intros e' He'; discriminate.
Qed.

Lemma first_name_none lookups :
  first_name lookups = None -> Forall unqualified lookups.
Proof.
  induction lookups as [|[e|] rest IH]; simpl; [constructor| |].
  - destruct (negb (PyStr.eqb (clean_name e) [])
              && (3 <? Z.of_nat (length (clean_name e)))) eqn:Hq;
      [discriminate|].
    intros H; constructor; [|auto].
    intros e' He'; inversion He'; subst e'.
    apply andb_false_iff in Hq; destruct Hq as [Hq|Hq].
    + apply negb_false_iff, PyStrFacts.eqb_eq in Hq.
      rewrite Hq; simpl; lia.
    + apply Z.ltb_ge in Hq; lia.
  - intros H; constructor; [|auto]. intros e' He'; discriminate.
Qed.

(** The cleaning at work: a bar and what follows it go, the site name
    after a hyphen goes; [.] matching no newline, the two patterns cut
    on the last line of the text only. *)
Example clean_name_bar :
  clean_name (NavigableString (lit " Great TV | Nojima ")) = lit "Great TV".
Proof. reflexivity. Qed.

Example clean_name_site :
  clean_name (NavigableString (lit "Camera X100 - " ++ site_name ++ lit " online"))
  = lit "Camera X100".
Proof. reflexivity. Qed.

Example clean_name_two_lines :
  clean_name (NavigableString (lit "ab|cd" ++ [10] ++ lit "ef"))
  = lit "ab|cd" ++ [10] ++ lit "ef".
Proof. reflexivity. Qed.

End NameFacts.

(** C3 as stated fails: on [<span id="price">500</span>] an attribute value
    contains "price" and the text 500 is an acceptable candidate, so the
    search over "any attribute value" returns 500, while [extract_price]
    looks only at the attributes named [class_] and [itemprop], finds no
    yen unit in the text and returns nothing. *)
Lemma extract_price_ignores_other_attributes :
  extract_price_any_attribute page_id_price = Some 500
  /\ Extractor.extract_price page_id_price = None.
Proof. split; reflexivity. Qed.

(** C3, amended: on a document where no tag carries a [class] or [class_]
    attribute containing "price" or "value", [extract_price] returns the
    first accepted candidate of this list: the tags with [itemprop] equal
    to "price" in document order, each offering the first run of digits
    and commas of its text, then the runs of three or more digits or
    commas that the flattened text shows before optional spaces and the
    yen unit.  It returns nothing when no candidate is accepted, in
    particular when there is no such tag and no such run. *)
Theorem extract_price_search_order (soup : BeautifulSoup) :
  no_class_hint soup = true ->
  Extractor.extract_price soup =
    first_accepted
      (map element_candidate
           (filter (search_tag None itemprop_price) (soup_descendants soup))
       ++ map accepted
              (Re.findall Extractor.yen_regex (soup_get_text soup)))
  /\ (forall element,
         element_candidate element =
         match first_digit_run (get_text element) with
         | Some run => accepted run
         | None => None
         end)
  /\ (filter (search_tag None itemprop_price) (soup_descendants soup) = [] ->
      ~ yen_suffixed_number (soup_get_text soup) ->
      Extractor.extract_price soup = None).
Proof.
  intros Hno.
  assert (Heq : Extractor.extract_price soup =
    first_accepted
      (map element_candidate
           (filter (search_tag None itemprop_price) (soup_descendants soup))
       ++ map accepted
              (Re.findall Extractor.yen_regex (soup_get_text soup)))).
  { rewrite ExtractorFacts.extract_price_first.
    unfold Extractor.price_patterns. cbn [flat_map].
    rewrite (ExtractorFacts.no_class_hint_find_all soup (lit "price"));
      [|simpl; auto|exact Hno].
    rewrite (ExtractorFacts.no_class_hint_find_all soup (lit "value"));
      [|simpl; auto|exact Hno].
    rewrite app_nil_r. reflexivity. }
  split; [exact Heq|].
  split.
  { intros element. unfold element_candidate.
    rewrite ExtractorFacts.search_price_regex. reflexivity. }
  intros Hnone Hyen. rewrite Heq, Hnone.
  rewrite (ExtractorFacts.findall_yen_nil _ Hyen). reflexivity.
Qed.

Lemma extract_price_search_order_witness :
  no_class_hint page_itemprop = true
  /\ Extractor.extract_price page_itemprop = Some 1980.
Proof.
  split; [reflexivity|].
  rewrite (proj1 (extract_price_search_order page_itemprop eq_refl)).
  reflexivity.
Defined.

(** The text of an element is the text [get_text] gives for it: a
    [script] with [itemprop="price"] offers its body, which the flattened
    text of the document leaves out. *)
Example script_body_is_a_candidate :
  get_text (Tag (lit "script") [ (lit "itemprop", AttrStr (lit "price")) ]
                [ ContainerString Script (lit "500") ]) = lit "500"
  /\ soup_get_text page_script_price = lit "1,200 " ++ [20870]
  /\ Extractor.extract_price page_script_price = Some 500.
Proof. repeat split; reflexivity. Qed.

(** C5: a price returned by [extract_price] lies in [100, 10000000]; a
    candidate that reads as a number outside the range is passed over and
    the search goes on with the next candidate, in the loop over the
    elements as in the loop over the matches of the whole text. *)
Theorem extract_price_range :
  (forall soup p,
      Extractor.extract_price soup = Some p -> 100 <= p <= 10000000)
  /\ (forall element rest group1 n,
         Re.search Extractor.price_regex (get_text element) = Some group1 ->
         PyStr.int (remove_commas group1) = Some n ->
         ~ (100 <= n <= 10000000) ->
         Extractor.scan_elements (element :: rest)
         = Extractor.scan_elements rest)
  /\ (forall price_str rest n,
         PyStr.int (remove_commas price_str) = Some n ->
         ~ (100 <= n <= 10000000) ->
         Extractor.scan_prices (price_str :: rest)
         = Extractor.scan_prices rest).
Proof.
  split; [|split].
  - intros soup p H. apply ExtractorFacts.in_range_bounds.
    eapply ExtractorFacts.extract_price_in_range; eauto.
  - intros element rest g n Hs Hi Hout. simpl. rewrite Hs, Hi.
    destruct (Extractor.in_range n) eqn:Hr; [|reflexivity].
    apply ExtractorFacts.in_range_bounds in Hr. contradiction.
  - intros s rest n Hi Hout. simpl. rewrite Hi.
    destruct (Extractor.in_range n) eqn:Hr; [|reflexivity].
    apply ExtractorFacts.in_range_bounds in Hr. contradiction.
Qed.

Lemma extract_price_range_witness :
  Extractor.extract_price page_two_numbers = Some 12800
  /\ 100 <= 12800 <= 10000000.
Proof.
  assert (H : Extractor.extract_price page_two_numbers = Some 12800)
    by reflexivity.
  split; [exact H|].
  exact (proj1 extract_price_range page_two_numbers 12800 H).
Defined.

(* ================================================================== *)
(** ** The monitor *)

Module DictFacts.

Section Dict.
Variable V : Type.
Implicit Types (d : list (pystr * V)) (k : pystr) (v : V).

Lemma dict_contains_get d k :
  dict_contains d k = true <-> exists v, dict_get d k = Some v.
Proof.
  induction d as [|[k' v'] d IH]; simpl.
  - split; [discriminate | intros [v H]; discriminate].
  - destruct (PyStr.eqb k' k); simpl; [|exact IH].
    split; [intros _; eauto | reflexivity].
Qed.

Lemma dict_contains_in d k :
  dict_contains d k = true <-> In k (map fst d).
Proof.
  induction d as [|[k' v'] d IH]; simpl.
  - split; [discriminate | tauto].
  - rewrite orb_true_iff, IH, PyStrFacts.eqb_eq. tauto.
Qed.

Lemma dict_get_set_same d k v : dict_get (dict_set d k v) k = Some v.
Proof.
  induction d as [|[k' v'] d IH]; simpl.
  - rewrite PyStrFacts.eqb_refl; reflexivity.
  - destruct (PyStr.eqb k' k) eqn:E; simpl; rewrite E; auto.
Qed.

Lemma dict_set_keys d k v :
  map fst (dict_set d k v) =
  if dict_contains d k then map fst d else map fst d ++ [k].
Proof.
  induction d as [|[k' v'] d IH]; simpl; [reflexivity|].
  destruct (PyStr.eqb k' k) eqn:E; simpl; [reflexivity|].
  rewrite IH. destruct (dict_contains d k); reflexivity.
Qed.

Lemma dict_set_nodup d k v :
  NoDup (map fst d) -> NoDup (map fst (dict_set d k v)).
Proof.
  intros Hnd. rewrite dict_set_keys.
  destruct (dict_contains d k) eqn:E; [exact Hnd|].
  apply NoDup_app; [exact Hnd | repeat constructor; simpl; tauto |].
  intros x Hx [<-|[]].
  apply dict_contains_in in Hx. congruence.
Qed.

Lemma dict_set_in d k v k' v' :
  In (k', v') (dict_set d k v) -> v' = v \/ In (k', v') d.
Proof.
  induction d as [|[k0 v0] d IH]; simpl.
  - intros [H|[]]; inversion H; auto.
  - destruct (PyStr.eqb k0 k); simpl.
    + intros [H|H]; [inversion H; auto | auto].
    + intros [H|H]; [auto|]. destruct (IH H); auto.
Qed.
End Dict.

End DictFacts.

(** *** Writing the history file *)

Module SaveFacts.
Import Monitor.

Lemma encodable_app a b : encodable (a ++ b) = encodable a && encodable b.
Proof. unfold encodable. apply forallb_app. Qed.

Lemma hex_digit_plain n : 0 <= n < 16 -> surrogate (hex_digit n) = false.
Proof.
  intros H. unfold surrogate, hex_digit.
  apply andb_false_iff. left. apply Z.leb_gt.
  destruct (n <? 10); lia.
Qed.

(** the escapes are ASCII: a character is written with a surrogate only
    when it is one *)
Lemma escape_char_encodable c :
  encodable (escape_char c) = negb (surrogate c).
Proof.
  unfold escape_char.
  destruct (c =? 34) eqn:E34; [apply Z.eqb_eq in E34; subst; reflexivity|].
  destruct (c =? 92) eqn:E92; [apply Z.eqb_eq in E92; subst; reflexivity|].
  destruct (c =? 10) eqn:E10; [apply Z.eqb_eq in E10; subst; reflexivity|].
  destruct (c =? 13) eqn:E13; [apply Z.eqb_eq in E13; subst; reflexivity|].
  destruct (c =? 9) eqn:E9; [apply Z.eqb_eq in E9; subst; reflexivity|].
  destruct (c =? 8) eqn:E8; [apply Z.eqb_eq in E8; subst; reflexivity|].
  destruct (c =? 12) eqn:E12; [apply Z.eqb_eq in E12; subst; reflexivity|].
  destruct ((0 <=? c) && (c <? 32)) eqn:Ectl.
  - apply andb_true_iff in Ectl. destruct Ectl as [H0 H32].
    apply Z.leb_le in H0. apply Z.ltb_lt in H32.
    assert (Hq : 0 <= c / 16 < 16).
    { split; [apply Z.div_pos; lia | apply Z.div_lt_upper_bound; lia]. }
    pose proof (Z.mod_pos_bound c 16 ltac:(lia)) as Hm.
    unfold encodable. cbn [forallb].
    rewrite (hex_digit_plain _ Hq), (hex_digit_plain _ Hm).
    assert (Hc : surrogate c = false).
    { unfold surrogate. apply andb_false_iff. left. apply Z.leb_gt. lia. }
    rewrite Hc. reflexivity.
  - unfold encodable. cbn [forallb]. apply andb_true_r.
Qed.

Lemma encode_basestring_encodable s :
  encodable (encode_basestring s) = encodable s.
Proof.
  unfold encode_basestring.
  change (34 :: flat_map escape_char s ++ [34])
    with ([34] ++ flat_map escape_char s ++ [34]).
  rewrite !encodable_app.
  change (encodable [34]) with true. rewrite andb_true_r. cbn [andb].
  induction s as [|c s IH]; [reflexivity|].
  cbn [flat_map]. rewrite encodable_app, escape_char_encodable, IH.
  reflexivity.
Qed.

Lemma observation_chunks_ok o :
  forallb chunk_ok (observation_chunks o) = storable o.
Proof.
  unfold observation_chunks, storable. cbn [forallb chunk_ok].
  rewrite !encode_basestring_encodable.
  repeat match goal with
         | |- context [encodable ?x] =>
             lazymatch x with
             | context [o] => fail
             | _ => change (encodable x) with true
             end
         end.
  cbn [andb]. rewrite andb_true_r, !andb_assoc. reflexivity.
Qed.

Lemma item_chunks_ok kv :
  forallb chunk_ok (item_chunks kv)
  = encodable (fst kv) && storable (snd kv).
Proof.
  unfold item_chunks. cbn [forallb chunk_ok].
  rewrite encode_basestring_encodable, observation_chunks_ok.
  reflexivity.
Qed.

Lemma more_item_chunks_ok d :
  forallb chunk_ok (more_item_chunks d) = writable d.
Proof.
  induction d as [|kv d IH]; [reflexivity|].
  cbn [more_item_chunks forallb chunk_ok writable].
  rewrite forallb_app, item_chunks_ok, IH. reflexivity.
Qed.

Lemma store_chunks_ok d : forallb chunk_ok (store_chunks d) = writable d.
Proof.
  destruct d as [|kv d]; [reflexivity|].
  cbn [store_chunks forallb chunk_ok writable].
  rewrite !forallb_app, item_chunks_ok, more_item_chunks_ok.
  cbn [forallb chunk_ok]. 
  change (encodable (lit "{")) with true.
  change (encodable ([10] ++ lit "  ")) with true.
  change (encodable [10]) with true.
  change (encodable (lit "}")) with true.
  cbn [andb]. rewrite andb_true_r. reflexivity.
Qed.

Lemma observation_chunks_text o :
  flat_map chunk_text (observation_chunks o) = dump_observation o.
Proof.
  unfold observation_chunks, dump_observation. cbn [flat_map chunk_text].
  repeat rewrite <- app_assoc. reflexivity.
Qed.

Lemma item_chunks_text kv :
  lit "  " ++ flat_map chunk_text (item_chunks kv) = dump_item kv.
Proof.
  unfold item_chunks, dump_item. cbn [flat_map chunk_text].
  rewrite observation_chunks_text. repeat rewrite <- app_assoc. reflexivity.
Qed.

Lemma more_item_chunks_text kv d :
  lit "  " ++ flat_map chunk_text (item_chunks kv)
  ++ flat_map chunk_text (more_item_chunks d)
  = dump_items (kv :: d).
Proof.
  revert kv; induction d as [|kv' d IH]; intros kv.
  - cbn [more_item_chunks flat_map dump_items]. rewrite app_nil_r.
    apply item_chunks_text.
  - change (dump_items (kv :: kv' :: d))
      with (dump_item kv ++ lit "," ++ [10] ++ dump_items (kv' :: d)).
    rewrite <- IH, <- item_chunks_text.
    cbn [more_item_chunks flat_map chunk_text].
    rewrite flat_map_app. repeat rewrite <- app_assoc. reflexivity.
Qed.

(** the pieces, put together, are the text [json_dump] *)
Lemma store_chunks_text d :
  flat_map chunk_text (store_chunks d) = json_dump d.
Proof.
  destruct d as [|kv d]; [reflexivity|].
  unfold json_dump. rewrite <- more_item_chunks_text.
  cbn [store_chunks flat_map chunk_text].
  rewrite !flat_map_app. cbn [flat_map chunk_text].
  repeat rewrite <- app_assoc. reflexivity.
Qed.

Lemma write_chunks_ok chunks : forall written,
  forallb chunk_ok chunks = true ->
  write_chunks chunks written
  = (written ++ flat_map chunk_text chunks, None).
Proof.
  induction chunks as [|c chunks IH]; intros written; simpl.
  - rewrite app_nil_r. reflexivity.
  - intros H. apply andb_true_iff in H. destruct H as [Hc Hs].
    destruct c as [s|n]; simpl in Hc; rewrite Hc, (IH _ Hs), <- app_assoc;
      reflexivity.
Qed.

Lemma write_chunks_fails chunks : forall written,
  forallb chunk_ok chunks = false ->
  exists text e,
    write_chunks chunks written = (text, Some e)
    /\ (e = UnicodeEncodeError \/ e = ValueError).
Proof.
  induction chunks as [|c chunks IH]; intros written; simpl; [discriminate|].
  intros H. destruct c as [s|n]; simpl in H.
  - destruct (encodable s); [apply IH; exact H | eauto].
  - destruct (short_enough n); [apply IH; exact H | eauto].
Qed.

Lemma dump_to_file_writable d :
  writable d = true -> dump_to_file d = (json_dump d, None).
Proof.
  intros H. unfold dump_to_file.
  rewrite write_chunks_ok by (rewrite store_chunks_ok; exact H).
  rewrite store_chunks_text. reflexivity.
Qed.

(** [save_prices] writes a store that can be written *)
Lemma save_prices_writable st :
  writable (previous_prices st) = true ->
  save_prices st
  = Return {| previous_prices := previous_prices st;
              price_data_file :=
                Some (Text (json_dump (previous_prices st)));
              out := out st |}.
Proof.
  intros H. unfold save_prices. rewrite (dump_to_file_writable _ H).
  reflexivity.
Qed.

(** and raises on any other *)
Lemma save_prices_unwritable st :
  writable (previous_prices st) = false ->
  exists e,
    save_prices st = Raise e
    /\ (e = UnicodeEncodeError \/ e = ValueError).
Proof.
  intros H. unfold save_prices, dump_to_file.
  destruct (write_chunks_fails (store_chunks (previous_prices st)) [])
    as (text & e & -> & He); [rewrite store_chunks_ok; exact H|].
  exists e. auto.
Qed.

Lemma save_prices_returns st st' :
  save_prices st = Return st' ->
  writable (previous_prices st) = true
  /\ st' = {| previous_prices := previous_prices st;
              price_data_file :=
                Some (Text (json_dump (previous_prices st)));
              out := out st |}.
Proof.
  intros H. destruct (writable (previous_prices st)) eqn:E.
  - rewrite (save_prices_writable _ E) in H. inversion H. auto.
  - destruct (save_prices_unwritable _ E) as (e & He & _). congruence.
Qed.

Lemma save_prices_raises st e :
  save_prices st = Raise e ->
  writable (previous_prices st) = false
  /\ (e = UnicodeEncodeError \/ e = ValueError).
Proof.
  intros H. destruct (writable (previous_prices st)) eqn:E.
  - rewrite (save_prices_writable _ E) in H. discriminate.
  - destruct (save_prices_unwritable _ E) as (e' & He & Hor).
    rewrite He in H. inversion H; subst. auto.
Qed.

Lemma writable_in d k o :
  writable d = true -> In (k, o) d ->
  encodable k = true /\ storable o = true.
Proof.
  unfold writable. rewrite forallb_forall. intros H Hin.
  specialize (H _ Hin). simpl in H. apply andb_true_iff in H. exact H.
Qed.

Lemma writable_app d k o :
  writable (d ++ [(k, o)]) = writable d && (encodable k && storable o).
Proof.
  unfold writable. rewrite forallb_app. simpl. rewrite andb_true_r.
  reflexivity.
Qed.

Lemma writable_dict_set d k o :
  writable d = true -> encodable k = true -> storable o = true ->
  writable (dict_set d k o) = true.
Proof.
  intros Hd Hk Ho. induction d as [|[k' o'] d IH]; simpl.
  - rewrite Hk, Ho. reflexivity.
  - simpl in Hd. apply andb_true_iff in Hd. destruct Hd as [Hko Hd].
    apply andb_true_iff in Hko. destruct Hko as [Hk' Ho'].
    destruct (PyStr.eqb k' k); simpl.
    + rewrite Hk', Ho, Hd. reflexivity.
    + rewrite Hk', Ho', (IH Hd). reflexivity.
Qed.

End SaveFacts.

Module MonitorFacts.
Import Extractor Monitor.

Lemma notify_calls_app a b :
  notify_calls (a ++ b) = notify_calls a ++ notify_calls b.
Proof. unfold notify_calls; apply flat_map_app. Qed.

Lemma status_ok_test response :
  ~ (400 <= status_code response < 600) ->
  raise_for_status response = Return tt.
Proof.
  intros H. unfold raise_for_status.
  destruct ((400 <=? status_code response) && (status_code response <? 600))
    eqn:E; [|reflexivity].
  apply andb_true_iff in E; destruct E as [E1 E2].
  apply Z.leb_le in E1; apply Z.ltb_lt in E2. lia.
Qed.

Lemma status_error_test response :
  400 <= status_code response < 600 ->
  raise_for_status response = Raise (HTTPError (status_code response)).
Proof.
  intros [H1 H2]. unfold raise_for_status.
  apply Z.leb_le in H1; apply Z.ltb_lt in H2. rewrite H1, H2. reflexivity.
Qed.

Lemma check_price_observes w u p name st :
  observes w u p name ->
  check_price w u st = Return (Some (observation_of w u p name), st).
Proof.
  intros (r & Hg & Hs & Hp & Hn). unfold check_price.
  rewrite Hg, (status_ok_test r Hs), Hp, Hn. reflexivity.
Qed.

Lemma check_price_fails w u st :
  check_fails w u ->
  exists line, check_price w u st = Return (None, print line st).
Proof.
  intros [e Hg | r Hg Hs | r Hg Hs Hp]; unfold check_price; rewrite Hg.
  - exists (LogError e); reflexivity.
  - rewrite (status_error_test r Hs).
    exists (LogError (HTTPError (status_code r))); reflexivity.
  - rewrite (status_ok_test r Hs), Hp.
    exists (LogPriceFailed (extract_product_name (text r))); reflexivity.
Qed.

(** [check_price] raises nothing, and what it observes is a price of the
    range found in a page that came without error status *)
Lemma check_price_returns w u st :
  (exists line, check_price w u st = Return (None, print line st))
  \/ (exists p name,
         observes w u p name
         /\ check_price w u st = Return (Some (observation_of w u p name), st)).
Proof.
  unfold check_price.
  destruct (requests_get w u) as [r|e] eqn:Hg.
  - unfold raise_for_status.
    destruct ((400 <=? status_code r) && (status_code r <? 600)) eqn:E.
    + left; eexists; reflexivity.
    + destruct (extract_price (text r)) as [p|] eqn:Hp.
      * right; exists p, (extract_product_name (text r)).
        split; [|reflexivity].
        exists r; repeat split; auto.
        intros [H1 H2]. apply Z.leb_le in H1; apply Z.ltb_lt in H2.
        rewrite H1, H2 in E. discriminate.
      * left; eexists; reflexivity.
  - left; eexists; reflexivity.
Qed.

Lemma observes_in_range w u p name :
  observes w u p name -> 100 <= p <= 10000000.
Proof.
  intros (r & _ & _ & Hp & _).
  apply ExtractorFacts.in_range_bounds.
  eapply ExtractorFacts.extract_price_in_range; eauto.
Qed.

(** [send_discord_notification] raises nothing and touches neither the
    store nor the file; it is no call of [notify] *)
Lemma send_discord_notification_frame cfg w message flag st :
  exists ok st',
    send_discord_notification cfg w message flag st = Return (ok, st')
    /\ previous_prices st' = previous_prices st
    /\ price_data_file st' = price_data_file st
    /\ notify_calls (out st') = notify_calls (out st).
Proof.
  unfold send_discord_notification.
  destruct (discord_webhook cfg) as [|c hook].
  - eexists _, _; split; [reflexivity|]. simpl.
    rewrite notify_calls_app; simpl. rewrite app_nil_r. auto.
  - destruct (requests_post w (c :: hook) (build_embed w message flag))
      as [code|e]; simpl.
    + destruct (code =? 204); eexists _, _; (split; [reflexivity|]);
        simpl; rewrite !notify_calls_app; simpl; rewrite !app_nil_r; auto.
    + eexists _, _; split; [reflexivity|].
      simpl; rewrite !notify_calls_app; simpl; rewrite !app_nil_r; auto.
Qed.

Lemma notify_frame cfg w message flag st :
  exists st',
    notify cfg w message flag st = Return st'
    /\ previous_prices st' = previous_prices st
    /\ price_data_file st' = price_data_file st
    /\ notify_calls (out st') = notify_calls (out st) ++ [(message, flag)].
Proof.
  unfold notify.
  destruct (send_discord_notification_frame cfg w message flag
              (print (LogNotifyBanner message)
                     (emit (Notify message flag) st)))
    as (ok & st' & -> & Hp & Hf & Hn).
  exists st'; split; [reflexivity|].
  rewrite Hp, Hf, Hn. simpl.
  rewrite !notify_calls_app; simpl. rewrite app_nil_r. auto.
Qed.

Lemma float_overflow_large : 10000001 < float_overflow.
Proof. reflexivity. Qed.

(** the quotient of a price change is computed: nothing overflows *)
Lemma int_truediv_change new old :
  100 <= new <= 10000000 -> old <> 0 ->
  int_truediv (new - old) old
  = Return (SFdiv 53 1024 (exact_int (new - old)) (exact_int old)).
Proof.
  intros Hnew Hold. unfold int_truediv.
  destruct (old =? 0) eqn:E; [apply Z.eqb_eq in E; contradiction|].
  destruct (float_overflow * Z.abs old <=? Z.abs (new - old)) eqn:E2;
    [|reflexivity].
  apply Z.leb_le in E2. pose proof float_overflow_large as Hbig.
  exfalso. nia.
Qed.

Lemma time_sleep_short : time_sleep 3 = Return tt.
Proof. reflexivity. Qed.

Lemma time_sleep_sleepable secs : sleepable secs -> time_sleep secs = Return tt.
Proof.
  intros [H0 H1]. unfold time_sleep.
  assert (E1 : (secs <? - max_sleep) = false)
    by (apply Z.ltb_ge; unfold max_sleep; lia).
  assert (E2 : (max_sleep <? secs) = false)
    by (apply Z.ltb_ge; unfold max_sleep; lia).
  assert (E3 : (secs <? 0) = false) by (apply Z.ltb_ge; lia).
  rewrite E1, E2, E3. reflexivity.
Qed.

(** with an observation, the loop body is the comparison with the store;
    the sleep of line 172 raises nothing *)
Lemma monitor_url_observes cfg w u p name st :
  observes w u p name ->
  monitor_url cfg w u st
  = compare_and_store cfg w (observation_of w u p name) st.
Proof.
  intros Hobs. unfold monitor_url.
  rewrite (check_price_observes _ _ _ _ st Hobs).
  destruct (compare_and_store cfg w (observation_of w u p name) st);
    reflexivity.
Qed.

Lemma format_thousands_short n :
  short_enough n = true -> exists text, format_thousands n = Return text.
Proof. intros H. unfold format_thousands. rewrite H. eauto. Qed.

(** the message of line 162 is built when the stored price and the
    change are short *)
Lemma compare_and_store_changed cfg w u p name previous st :
  dict_get (previous_prices st) u = Some previous ->
  price previous <> p ->
  price previous <> 0 ->
  100 <= p <= 10000000 ->
  short_enough (price previous) = true ->
  short_enough (p - price previous) = true ->
  compare_and_store cfg w (observation_of w u p name) st
  = match notify cfg w (change_message name (price previous) p u)
                 (p - price previous <? 0) st with
    | Raise e => Raise e
    | Return st1 =>
        save_prices
          (set_previous_prices
             (dict_set (previous_prices st1) u (observation_of w u p name))
             st1)
    end.
Proof.
  intros Hget Hne Hnz Hrange Hs1 Hs2. unfold compare_and_store.
  cbn [url price product_name observation_of].
  assert (Hc : dict_contains (previous_prices st) u = true)
    by (apply DictFacts.dict_contains_get; eauto).
  rewrite Hc, Hget.
  destruct (p =? price previous) eqn:E; [apply Z.eqb_eq in E; congruence|].
  cbn [negb]. rewrite (int_truediv_change p (price previous) Hrange Hnz).
  unfold format_thousands. rewrite Hs1, Hs2. reflexivity.
Qed.

Lemma compare_and_store_long cfg w u p name previous st :
  dict_get (previous_prices st) u = Some previous ->
  price previous <> p ->
  price previous <> 0 ->
  100 <= p <= 10000000 ->
  short_enough (price previous) && short_enough (p - price previous) = false ->
  compare_and_store cfg w (observation_of w u p name) st = Raise ValueError.
Proof.
  intros Hget Hne Hnz Hrange Hs. unfold compare_and_store.
  cbn [url price product_name observation_of].
  assert (Hc : dict_contains (previous_prices st) u = true)
    by (apply DictFacts.dict_contains_get; eauto).
  rewrite Hc, Hget.
  destruct (p =? price previous) eqn:E; [apply Z.eqb_eq in E; congruence|].
  cbn [negb]. rewrite (int_truediv_change p (price previous) Hrange Hnz).
  unfold format_thousands.
  destruct (short_enough (price previous)); [|reflexivity].
  simpl in Hs. rewrite Hs. reflexivity.
Qed.

Lemma compare_and_store_unchanged cfg w u p name previous st :
  dict_get (previous_prices st) u = Some previous ->
  price previous = p ->
  compare_and_store cfg w (observation_of w u p name) st
  = Return (print (LogUnchanged (firstn 40 name) p) st).
Proof.
  intros Hget Hp. unfold compare_and_store.
  cbn [url price product_name observation_of].
  assert (Hc : dict_contains (previous_prices st) u = true)
    by (apply DictFacts.dict_contains_get; eauto).
  rewrite Hc, Hget, Hp, Z.eqb_refl. reflexivity.
Qed.

Lemma compare_and_store_zero cfg w u p name previous st :
  dict_get (previous_prices st) u = Some previous ->
  price previous = 0 ->
  100 <= p <= 10000000 ->
  compare_and_store cfg w (observation_of w u p name) st
  = Raise ZeroDivisionError.
Proof.
  intros Hget Hz Hrange. unfold compare_and_store.
  cbn [url price product_name observation_of].
  assert (Hc : dict_contains (previous_prices st) u = true)
    by (apply DictFacts.dict_contains_get; eauto).
  rewrite Hc, Hget, Hz.
  destruct (p =? 0) eqn:E; [apply Z.eqb_eq in E; lia|].
  reflexivity.
Qed.

Lemma compare_and_store_first cfg w u p name st :
  dict_contains (previous_prices st) u = false ->
  compare_and_store cfg w (observation_of w u p name) st
  = save_prices
      {| previous_prices :=
           dict_set (previous_prices st) u (observation_of w u p name);
         price_data_file := price_data_file st;
         out := out st ++ [Printed (LogFirstSeen (firstn 40 name) p)] |}.
Proof.
  intros Hc. unfold compare_and_store.
  cbn [url price product_name observation_of]. rewrite Hc. reflexivity.
Qed.

(** the store after the comparison: as it was, or with the observation
    put under its url *)
Lemma compare_and_store_store cfg w o st st' :
  compare_and_store cfg w o st = Return st' ->
  previous_prices st' = previous_prices st
  \/ previous_prices st' = dict_set (previous_prices st) (url o) o.
Proof.
  unfold compare_and_store.
  destruct (dict_contains (previous_prices st) (url o)).
  - destruct (dict_get (previous_prices st) (url o)) as [previous|];
      [|discriminate].
    destruct (negb (price o =? price previous)).
    + destruct (int_truediv (price o - price previous) (price previous))
        as [q|e]; [|discriminate].
      destruct (format_thousands (price previous)); [|discriminate].
      destruct (format_thousands (price o - price previous)); [|discriminate].
      match goal with
      | |- context [notify cfg w ?m ?f st] =>
          destruct (notify_frame cfg w m f st)
            as (st1 & Hn & Hp & _ & _); rewrite Hn
      end.
      intros H. apply SaveFacts.save_prices_returns in H.
      destruct H as [_ ->]. right. simpl. rewrite Hp. reflexivity.
    + intros H; inversion H; subst; left; reflexivity.
  - intros H. apply SaveFacts.save_prices_returns in H.
    destruct H as [_ ->]. right. reflexivity.
Qed.

Lemma for_urls_app cfg env t before after st :
  for_urls cfg env t (before ++ after) st =
  match for_urls cfg env t before st with
  | Return st1 => for_urls cfg env (t + length before) after st1
  | Raise e => Raise e
  end.
Proof.
  revert t st; induction before as [|u before IH]; intros t st; simpl.
  - rewrite Nat.add_0_r; reflexivity.
  - destruct (monitor_url cfg (env t) u st) as [st1|e]; [|reflexivity].
    rewrite IH. replace (S t + length before)%nat
      with (t + S (length before))%nat by lia. reflexivity.
Qed.

End MonitorFacts.

(** C1 as stated fails where the store cannot be written to the file.
    The store holds a price of 1000 for the url and the page shows 800,
    under a name with a lone surrogate (the page wrote it as a character
    reference): [notify] is called, the store is replaced in memory and
    [save_prices] raises [UnicodeEncodeError], so nothing is persisted
    and the exception leaves the loop.  (A console that refuses the
    surrogate raises the same exception earlier, at the [print] of the
    message.)  The same happens, with a page like any other, when
    another entry of the store has such a name, as after the start on a
    history file that holds it as an escape. *)
Lemma unwritable_store_is_not_persisted :
  (observes (world 200 page_surrogate (Monitor.Return 204)) url_x 800
            name_surrogate
   /\ dict_get (Monitor.previous_prices (state_with 1000)) url_x
      = Some (stored 1000)
   /\ 800 <> Monitor.price (stored 1000)
   /\ Monitor.monitor_url cfg (world 200 page_surrogate (Monitor.Return 204))
                          url_x (state_with 1000)
      = Monitor.Raise Monitor.UnicodeEncodeError)
  /\ (Monitor.initial_state (Some (Monitor.Text history_surrogate))
      = Some (state_with_surrogate 1000)
      /\ observes (world 200 page_800 (Monitor.Return 204)) url_x 800
                  (lit "Camera X100")
      /\ dict_get (Monitor.previous_prices (state_with_surrogate 1000)) url_x
         = Some (stored 1000)
      /\ Monitor.monitor_url cfg (world 200 page_800 (Monitor.Return 204))
                             url_x (state_with_surrogate 1000)
         = Monitor.Raise Monitor.UnicodeEncodeError).
Proof.
  split; (split; [|split; [|split]]); try reflexivity;
    try (eexists; repeat split; try reflexivity; simpl; lia);
    try (simpl; lia).
Qed.

(** C1, amended: when the store holds for the url an entry of price
    [old], [old] in the range [100, 10000000] of the prices the monitor
    stores, the page shows a price [new] different from [old], and the
    store with the new observation can be written (no lone surrogate in
    its urls, names and time stamps, no integer of more than 4300
    digits), the loop body calls [notify] exactly once, with
    [delta = new - old], the percentage [delta / old * 100] computed in
    floats and the flag [delta < 0]; it then puts the new observation in
    the store and writes the store to the file.  This holds whatever the
    webhook answers, and when none is configured.  For 1000 and 800 the
    flag is set, [delta] is -200 and the percentage is -20.0. *)
Theorem price_change_notified_and_stored
        (cfg : Monitor.Config) (w : Monitor.World) (u : pystr)
        (st : Monitor.State) (new : Z) (name : pystr)
        (previous : Monitor.Observation) :
  observes w u new name ->
  dict_get (Monitor.previous_prices st) u = Some previous ->
  new <> Monitor.price previous ->
  100 <= Monitor.price previous <= 10000000 ->
  writable (dict_set (Monitor.previous_prices st) u
                     (observation_of w u new name)) = true ->
  let old := Monitor.price previous in
  let delta := new - old in
  exists st' quotient,
    Monitor.int_truediv delta old = Monitor.Return quotient
    /\ let percent := Monitor.float_mul_int quotient 100 in
       Monitor.monitor_url cfg w u st = Monitor.Return st'
       /\ notify_calls (Monitor.out st')
          = notify_calls (Monitor.out st)
            ++ [(Monitor.PriceChange (delta <? 0) name old new delta percent u,
                 delta <? 0)]
       /\ Monitor.previous_prices st'
          = dict_set (Monitor.previous_prices st) u (observation_of w u new name)
       /\ dict_get (Monitor.previous_prices st') u
          = Some (observation_of w u new name)
       /\ Monitor.price_data_file st'
          = Some (Monitor.Text (Monitor.json_dump (Monitor.previous_prices st')))
       /\ (old = 1000 -> new = 800 ->
           (delta <? 0) = true /\ delta = -200
           /\ percent = Monitor.float_of_int (-20)).
Proof.
  intros Hobs Hget Hne Hold Hw old delta.
  pose proof (MonitorFacts.observes_in_range _ _ _ _ Hobs) as Hrange.
  assert (Hnz : old <> 0) by (subst old; lia).
  pose proof (MonitorFacts.int_truediv_change new old Hrange Hnz) as Hdiv.
  fold delta in Hdiv.
  set (quotient := SFdiv 53 1024 (Monitor.exact_int delta) (Monitor.exact_int old))
    in *.
  set (message := Monitor.PriceChange (delta <? 0) name old new delta
                    (Monitor.float_mul_int quotient 100) u).
  destruct (MonitorFacts.notify_frame cfg w message (delta <? 0) st)
    as (st1 & Hnotify & Hp1 & Hf1 & Hn1).
  exists {| Monitor.previous_prices :=
              dict_set (Monitor.previous_prices st) u
                       (observation_of w u new name);
            Monitor.price_data_file :=
              Some (Monitor.Text (Monitor.json_dump
                (dict_set (Monitor.previous_prices st) u
                          (observation_of w u new name))));
            Monitor.out := Monitor.out st1 |}, quotient.
  split; [exact Hdiv|]. cbv zeta.
  split.
  { rewrite (MonitorFacts.monitor_url_observes _ _ _ _ _ st Hobs).
    rewrite (MonitorFacts.compare_and_store_changed
               cfg w u new name previous st Hget);
      [ | subst old; lia | exact Hnz | exact Hrange
        | apply JsonFacts.short_enough_small; lia
        | apply JsonFacts.short_enough_small; lia ].
    change (change_message name (Monitor.price previous) new u) with message.
    fold old. fold delta. rewrite Hnotify.
    rewrite SaveFacts.save_prices_writable;
      simpl; rewrite Hp1; [reflexivity | exact Hw]. }
  simpl. rewrite Hn1.
  split; [reflexivity|]. split; [reflexivity|].
  split; [apply DictFacts.dict_get_set_same|]. split; [reflexivity|].
  intros Ho Hn. subst quotient delta. rewrite Ho, Hn.
  repeat split; reflexivity.
Qed.

Lemma price_change_notified_and_stored_witness :
  exists st' quotient,
    Monitor.int_truediv (800 - 1000) 1000 = Monitor.Return quotient
    /\ Monitor.monitor_url cfg (world 200 page_800 (Monitor.Return 500)) url_x
                           (state_with 1000)
       = Monitor.Return st'
    /\ notify_calls (Monitor.out st')
       = [(Monitor.PriceChange true (lit "Camera X100") 1000 800 (-200)
                               (Monitor.float_of_int (-20)) url_x, true)]
    /\ dict_get (Monitor.previous_prices st') url_x
       = Some (observation_of (world 200 page_800 (Monitor.Return 500)) url_x
                              800 (lit "Camera X100")).
Proof.
  assert (Hobs : observes (world 200 page_800 (Monitor.Return 500)) url_x 800
                          (lit "Camera X100")).
  { eexists; repeat split; try reflexivity. simpl; lia. }
  destruct (price_change_notified_and_stored
              cfg (world 200 page_800 (Monitor.Return 500)) url_x
              (state_with 1000) 800 (lit "Camera X100") (stored 1000)
              Hobs eq_refl)
    as (st' & q & Hq & Hm & Hn & _ & Hg & _ & Hex);
    [simpl; lia | simpl; lia | reflexivity |].
  destruct (Hex eq_refl eq_refl) as (_ & _ & Hpct).
  exists st', q. split; [exact Hq|]. split; [exact Hm|].
  split; [|exact Hg].
  rewrite Hn. simpl. rewrite Hpct. reflexivity.
Defined.

(** C2 as stated fails: a webhook that answers 200, a 2xx status, is
    reported as a failed delivery. *)
Lemma status_200_reported_as_failure :
  200 <= 200 < 300
  /\ Monitor.send_discord_notification
       cfg (world 200 page_800 (Monitor.Return 200))
       (Monitor.StartupMessage 2 300) false state_empty
     = Monitor.Return
         (false,
          Monitor.print (Monitor.LogDiscordFailed 200)
            (Monitor.emit
               (Monitor.Posted (Monitor.discord_webhook cfg)
                  (Monitor.build_embed
                     (world 200 page_800 (Monitor.Return 200))
                     (Monitor.StartupMessage 2 300) false))
               state_empty)).
Proof. split; [lia | reflexivity]. Qed.

(** C2, amended: with a webhook configured, [send_discord_notification]
    posts once and returns success exactly when the post returns status
    204.  Any other status and any exception of the request are printed
    and give the failure status; nothing is raised. *)
Theorem webhook_success_is_204
        (cfg : Monitor.Config) (w : Monitor.World) (message : Monitor.Message)
        (flag : bool) (st : Monitor.State) :
  Monitor.discord_webhook cfg <> [] ->
  let embed := Monitor.build_embed w message flag in
  let answer := Monitor.requests_post w (Monitor.discord_webhook cfg) embed in
  let sent := Monitor.emit (Monitor.Posted (Monitor.discord_webhook cfg) embed)
                           st in
  exists ok line,
    Monitor.send_discord_notification cfg w message flag st
    = Monitor.Return (ok, Monitor.print line sent)
    /\ (ok = true <-> answer = Monitor.Return 204)
    /\ (answer = Monitor.Return 204 -> line = Monitor.LogDiscordSent)
    /\ (forall code, answer = Monitor.Return code -> code <> 204 ->
                     ok = false /\ line = Monitor.LogDiscordFailed code)
    /\ (forall e, answer = Monitor.Raise e ->
                  ok = false /\ line = Monitor.LogDiscordError e).
Proof.
  intros Hhook. cbv zeta.
  unfold Monitor.send_discord_notification.
  destruct (Monitor.discord_webhook cfg) as [|c hook]; [congruence|].
  set (embed := Monitor.build_embed w message flag).
  destruct (Monitor.requests_post w (c :: hook) embed) as [code|e]; simpl.
  - destruct (code =? 204) eqn:E.
    + apply Z.eqb_eq in E; subst code.
      exists true, Monitor.LogDiscordSent. split; [reflexivity|].
      split; [tauto|]. split; [reflexivity|].
      split; [intros code H; inversion H; congruence | discriminate].
    + apply Z.eqb_neq in E.
      exists false, (Monitor.LogDiscordFailed code). split; [reflexivity|].
      split; [split; [discriminate | intros H; inversion H; congruence]|].
      split; [intros H; inversion H; congruence|].
      split; [intros c' H; inversion H; auto | discriminate].
  - exists false, (Monitor.LogDiscordError e). split; [reflexivity|].
    split; [split; discriminate|].
    split; [discriminate|].
    split; [discriminate | intros e' H; inversion H; auto].
Qed.

Lemma webhook_success_is_204_witness :
  exists ok line,
    Monitor.send_discord_notification
      cfg (world 200 page_800 (Monitor.Return 204))
      (Monitor.StartupMessage 2 300) false state_empty
    = Monitor.Return
        (ok,
         Monitor.print line
           (Monitor.emit
              (Monitor.Posted (Monitor.discord_webhook cfg)
                 (Monitor.build_embed
                    (world 200 page_800 (Monitor.Return 204))
                    (Monitor.StartupMessage 2 300) false))
              state_empty))
    /\ ok = true.
Proof.
  destruct (webhook_success_is_204
              cfg (world 200 page_800 (Monitor.Return 204))
              (Monitor.StartupMessage 2 300) false state_empty)
    as (ok & line & Hs & Hok & _); [discriminate|].
  exists ok, line. split; [exact Hs|]. apply Hok. reflexivity.
Defined.

(** C6: when the page shows the price the store already holds for the
    url, the loop body leaves the store and the file as they are, calls
    no [notify], posts nothing and prints one line. *)
Theorem unchanged_price_changes_nothing
        (cfg : Monitor.Config) (w : Monitor.World) (u : pystr)
        (st : Monitor.State) (p : Z) (name : pystr)
        (previous : Monitor.Observation) :
  observes w u p name ->
  dict_get (Monitor.previous_prices st) u = Some previous ->
  Monitor.price previous = p ->
  exists st',
    Monitor.monitor_url cfg w u st = Monitor.Return st'
    /\ Monitor.previous_prices st' = Monitor.previous_prices st
    /\ Monitor.price_data_file st' = Monitor.price_data_file st
    /\ Monitor.out st'
       = Monitor.out st
         ++ [Monitor.Printed (Monitor.LogUnchanged (firstn 40 name) p)]
    /\ notify_calls (Monitor.out st') = notify_calls (Monitor.out st)
    /\ posts (Monitor.out st') = posts (Monitor.out st).
Proof.
  intros Hobs Hget Hp.
  exists (Monitor.print (Monitor.LogUnchanged (firstn 40 name) p) st).
  split.
  { rewrite (MonitorFacts.monitor_url_observes _ _ _ _ _ st Hobs).
    apply (MonitorFacts.compare_and_store_unchanged _ _ _ _ _ previous);
      assumption. }
  simpl. repeat split.
  - rewrite MonitorFacts.notify_calls_app; simpl; apply app_nil_r.
  - unfold posts; rewrite flat_map_app; simpl; apply app_nil_r.
Qed.

Lemma unchanged_price_changes_nothing_witness :
  exists st',
    Monitor.monitor_url cfg (world 200 page_800 (Monitor.Return 204)) url_x
                        (state_with 800)
    = Monitor.Return st'
    /\ Monitor.previous_prices st' = Monitor.previous_prices (state_with 800)
    /\ Monitor.price_data_file st' = Monitor.price_data_file (state_with 800).
Proof.
  assert (Hobs : observes (world 200 page_800 (Monitor.Return 204)) url_x 800
                          (lit "Camera X100")).
  { eexists; repeat split; try reflexivity. simpl; lia. }
  destruct (unchanged_price_changes_nothing
              cfg (world 200 page_800 (Monitor.Return 204)) url_x
              (state_with 800) 800 (lit "Camera X100") (stored 800)
              Hobs eq_refl eq_refl)
    as (st' & Hm & Hp & Hf & _).
  exists st'; auto.
Defined.

(** C8 as stated fails for a status outside 2xx that is no error status:
    a response 300 is read like any page, and the url is stored. *)
Lemma status_300_is_processed :
  ~ (200 <= 300 < 300)
  /\ match Monitor.monitor_url cfg (world 300 page_800 (Monitor.Return 204))
                               url_x state_empty with
     | Monitor.Return st' =>
         dict_get (Monitor.previous_prices st') url_x
         = Some (observation_of (world 300 page_800 (Monitor.Return 204))
                                url_x 800 (lit "Camera X100"))
         /\ Monitor.out st'
            = [Monitor.Printed (Monitor.LogFirstSeen (lit "Camera X100") 800)]
     | Monitor.Raise _ => False
     end.
Proof. split; [lia | split; reflexivity]. Qed.

(** C8, amended: when the request for a url raises (connection, timeout),
    or the response has status 4xx or 5xx, or no price is found in the
    page, the loop body prints one line, changes nothing else and raises
    nothing; the loop goes on with the urls that follow. *)
Theorem failed_check_skips_url
        (cfg : Monitor.Config) (env : Monitor.Environment) (t : nat)
        (before : list pystr) (u : pystr) (after : list pystr)
        (st st1 : Monitor.State) :
  Monitor.for_urls cfg env t before st = Monitor.Return st1 ->
  check_fails (env (t + length before)%nat) u ->
  exists line,
    Monitor.monitor_url cfg (env (t + length before)%nat) u st1
    = Monitor.Return (Monitor.print line st1)
    /\ Monitor.for_urls cfg env t (before ++ u :: after) st
       = Monitor.for_urls cfg env (S (t + length before)) after
                          (Monitor.print line st1).
Proof.
  intros Hbefore Hfail.
  destruct (MonitorFacts.check_price_fails _ _ st1 Hfail) as (line & Hc).
  exists line.
  assert (Hm : Monitor.monitor_url cfg (env (t + length before)%nat) u st1
               = Monitor.Return (Monitor.print line st1)).
  { unfold Monitor.monitor_url. rewrite Hc. reflexivity. }
  split; [exact Hm|].
  rewrite MonitorFacts.for_urls_app, Hbefore. simpl. rewrite Hm. reflexivity.
Qed.

Lemma failed_check_skips_url_witness :
  exists line,
    Monitor.for_urls cfg (fun _ => world_down) 0 ([] ++ url_x :: [url_y])
                     state_empty
    = Monitor.for_urls cfg (fun _ => world_down) 1 [url_y]
                       (Monitor.print line state_empty).
Proof.
  destruct (failed_check_skips_url cfg (fun _ => world_down) 0 [] url_x [url_y]
              state_empty state_empty eq_refl)
    as (line & _ & H).
  - apply (fetch_raises _ _ (Monitor.RequestException (lit "timed out"))).
    reflexivity.
  - exists line. exact H.
Defined.

(* ================================================================== *)
(** ** The history file *)


Module DumpFacts.
Import Monitor JsonFacts.

(** *** One step of the decoder *)

Lemma skip_ws_space c s :
  is_json_space c = true -> skip_ws (c :: s) = skip_ws s.
Proof. intros H; simpl; rewrite H; reflexivity. Qed.

Lemma skip_ws_nonspace c s :
  is_json_space c = false -> skip_ws (c :: s) = c :: s.
Proof. intros H; simpl; rewrite H; reflexivity. Qed.

Lemma scan_once_object f s :
  scan_once (S f) (123 :: s) =
  match after_char 125 (skip_ws s) with
  | Some rest => Some (PyDict [], rest)
  | None => parse_members f [] (skip_ws s)
  end.
Proof. reflexivity. Qed.

Lemma scan_once_encoded f s rest :
  scan_once (S f) (34 :: flat_map escape_char s ++ 34 :: rest)
  = Some (PyStr s, rest).
Proof.
  change (scan_once (S f) (34 :: flat_map escape_char s ++ 34 :: rest))
    with (match scanstring (flat_map escape_char s ++ 34 :: rest) with
          | Some (chars, rest') => Some (PyStr chars, rest')
          | None => None
          end).
  rewrite scanstring_encoded. reflexivity.
Qed.

Ltac differs c k :=
  replace (c =? k) with false by (symmetry; apply Z.eqb_neq; lia).

Lemma scan_atom_digit c t :
  48 <= c <= 57 -> scan_atom (c :: t) = match_number (c :: t).
Proof.
  intros H. unfold scan_atom.
  differs c 110. differs c 116. differs c 102. differs c 78. differs c 73.
  differs c 45. reflexivity.
Qed.

Lemma scan_once_digit f c t :
  48 <= c <= 57 -> scan_once (S f) (c :: t) = match_number (c :: t).
Proof.
  intros H. rewrite <- scan_atom_digit by exact H.
  cbn [scan_once after_char].
  differs c 34. differs c 123. differs c 91. reflexivity.
Qed.

Lemma scan_once_minus_digit f c t :
  48 <= c <= 57 ->
  scan_once (S f) (45 :: c :: t) = match_number (45 :: c :: t).
Proof.
  intros H.
  change (scan_once (S f) (45 :: c :: t))
    with (match (if c =? 73 then after_word (lit "nfinity") t else None) with
          | Some rest => Some (PyFloat (lit "-Infinity"), rest)
          | None => match_number (45 :: c :: t)
          end).
  differs c 73. reflexivity.
Qed.

(** the text of an integer starts with a digit, or a minus sign and a
    digit *)
Lemma repr_int_head z :
  (exists c cs, repr_int z = c :: cs /\ 48 <= c <= 57)
  \/ (exists c cs, repr_int z = 45 :: c :: cs /\ 48 <= c <= 57).
Proof.
  destruct z as [|p|p]; unfold repr_int; cbn [Z.to_int].
  - left; exists 48, []; split; [reflexivity | lia].
  - destruct (to_uint_head p) as (c & cs & E & Hc).
    left; exists c, cs; split; [exact E | lia].
  - destruct (to_uint_head p) as (c & cs & E & Hc).
    right; exists c, cs; split; [rewrite E; reflexivity | lia].
Qed.

Lemma scan_once_repr f z rest :
  short_enough z = true ->
  scan_once (S f) (repr_int z ++ 44 :: rest) = Some (PyInt z, 44 :: rest).
Proof.
  intros Hshort. rewrite <- (match_number_repr z rest Hshort).
  destruct (repr_int_head z) as [(c & cs & E & Hc)|(c & cs & E & Hc)];
    rewrite E; cbn [app].
  - apply scan_once_digit; exact Hc.
  - apply scan_once_minus_digit; exact Hc.
Qed.

Lemma skip_ws_repr z rest : skip_ws (repr_int z ++ rest) = repr_int z ++ rest.
Proof.
  destruct (repr_int_head z) as [(c & cs & E & Hc)|(c & cs & E & Hc)];
    rewrite E; cbn [app]; apply skip_ws_nonspace.
  - unfold is_json_space.
    repeat (apply orb_false_iff; split); apply Z.eqb_neq; lia.
  - reflexivity.
Qed.

Lemma parse_members_eq f acc s1 :
  parse_members (S f) acc (34 :: s1) =
  match scanstring s1 with
  | None => None
  | Some (key, s2) =>
      match after_char 58 (skip_ws s2) with
      | None => None
      | Some s3 =>
          match scan_once f (skip_ws s3) with
          | None => None
          | Some (value, s4) =>
              let acc' := dict_set acc key value in
              match after_char 125 (skip_ws s4) with
              | Some rest => Some (PyDict acc', rest)
              | None =>
                  match after_char 44 (skip_ws s4) with
                  | Some s5 => parse_members f acc' (skip_ws s5)
                  | None => None
                  end
              end
          end
      end
  end.
Proof. reflexivity. Qed.

(** one member of an object, as [json.dump] writes it: the key, a colon
    and a space, and a value that the decoder reads *)
Lemma parse_member f acc key vtext value rest :
  scan_once f vtext = Some (value, rest) ->
  skip_ws vtext = vtext ->
  parse_members (S f) acc
                (34 :: flat_map escape_char key ++ 34 :: 58 :: 32 :: vtext)
  = match after_char 125 (skip_ws rest) with
    | Some r => Some (PyDict (dict_set acc key value), r)
    | None =>
        match after_char 44 (skip_ws rest) with
        | Some s5 => parse_members f (dict_set acc key value) (skip_ws s5)
        | None => None
        end
    end.
Proof.
  intros Hscan Hskip.
  rewrite parse_members_eq, scanstring_encoded.
  rewrite (skip_ws_nonspace 58) by reflexivity.
  change (after_char 58 (58 :: 32 :: vtext)) with (Some (32 :: vtext)).
  cbv beta iota.
  rewrite (skip_ws_space 32) by reflexivity.
  rewrite Hskip, Hscan. reflexivity.
Qed.

(** *** An observation *)

Lemma dump_observation_eq o tail :
  dump_observation o ++ tail =
  123 :: 10 :: 32 :: 32 :: 32 :: 32
  :: 34 :: flat_map escape_char (lit "url") ++ 34 :: 58 :: 32
  :: 34 :: flat_map escape_char (url o) ++ 34
  :: 44 :: 10 :: 32 :: 32 :: 32 :: 32
  :: 34 :: flat_map escape_char (lit "price") ++ 34 :: 58 :: 32
  :: repr_int (price o)
  ++ 44 :: 10 :: 32 :: 32 :: 32 :: 32
  :: 34 :: flat_map escape_char (lit "product_name") ++ 34 :: 58 :: 32
  :: 34 :: flat_map escape_char (product_name o) ++ 34
  :: 44 :: 10 :: 32 :: 32 :: 32 :: 32
  :: 34 :: flat_map escape_char (lit "timestamp") ++ 34 :: 58 :: 32
  :: 34 :: flat_map escape_char (timestamp o) ++ 34
  :: 10 :: 32 :: 32 :: 125 :: tail.
Proof.
  unfold dump_observation, encode_basestring.
  repeat (rewrite <- ?app_assoc; cbn [app lit map String.list_ascii_of_string
                                       N_of_ascii N_of_digits Z.of_N
                                       flat_map escape_char]).
  reflexivity.
Qed.

Lemma after_char_hit c s : after_char c (c :: s) = Some s.
Proof. simpl; rewrite Z.eqb_refl; reflexivity. Qed.

Lemma after_char_miss c x s : (x =? c) = false -> after_char c (x :: s) = None.
Proof. intros H; simpl; rewrite H; reflexivity. Qed.

(** pass the spaces of the layout, then decide the tests on the
    character that follows *)
Ltac skip_spaces :=
  repeat first [ rewrite (skip_ws_space 32) by reflexivity
               | rewrite (skip_ws_space 10) by reflexivity ].

Ltac next_char c :=
  skip_spaces; rewrite (skip_ws_nonspace c) by reflexivity;
  repeat first [ rewrite after_char_hit
               | rewrite after_char_miss by reflexivity ];
  cbv beta iota.

Lemma dump_observation_parse o tail f :
  short_enough (price o) = true ->
  scan_once (6 + f) (dump_observation o ++ tail)
  = Some (observation_value o, tail).
Proof.
  intros Hshort.
  change (6 + f)%nat with (S (S (S (S (S (S f)))))).
  rewrite dump_observation_eq, scan_once_object.
  next_char 34.
  erewrite parse_member;
    [ | apply scan_once_encoded | apply skip_ws_nonspace; reflexivity ].
  next_char 44. next_char 34.
  erewrite parse_member;
    [ | apply scan_once_repr; exact Hshort | apply skip_ws_repr ].
  next_char 44. next_char 34.
  erewrite parse_member;
    [ | apply scan_once_encoded | apply skip_ws_nonspace; reflexivity ].
  next_char 44. next_char 34.
  erewrite parse_member;
    [ | apply scan_once_encoded | apply skip_ws_nonspace; reflexivity ].
  next_char 125.
  reflexivity.
Qed.

Lemma skip_ws_dump_observation o tail :
  skip_ws (dump_observation o ++ tail) = dump_observation o ++ tail.
Proof.
  rewrite dump_observation_eq. apply skip_ws_nonspace. reflexivity.
Qed.

(** *** A store *)

Lemma dump_item_eq k o tail :
  dump_item (k, o) ++ tail =
  32 :: 32 :: 34 :: flat_map escape_char k ++ 34 :: 58 :: 32
  :: dump_observation o ++ tail.
Proof.
  unfold dump_item, encode_basestring. cbn [fst snd].
  repeat (rewrite <- ?app_assoc; cbn [app lit map String.list_ascii_of_string
                                       N_of_ascii N_of_digits Z.of_N]).
  reflexivity.
Qed.

Lemma dict_set_fresh {V} (d : list (pystr * V)) k v :
  ~ In k (map fst d) -> dict_set d k v = d ++ [(k, v)].
Proof.
  induction d as [|[k' v'] d IH]; simpl; [reflexivity|].
  intros Hn.
  destruct (PyStr.eqb k' k) eqn:E.
  - apply PyStrFacts.eqb_eq in E. tauto.
  - rewrite IH by tauto. reflexivity.
Qed.

Lemma value_items_keys d : map fst (value_items d) = map fst d.
Proof. unfold value_items; rewrite map_map; reflexivity. Qed.

Lemma writable_short_prices d : writable d = true -> short_prices d.
Proof.
  unfold writable, short_prices. rewrite forallb_forall, Forall_forall.
  intros H kv Hin. specialize (H kv Hin).
  apply andb_true_iff in H. destruct H as [_ H]. unfold storable in H.
  apply andb_true_iff in H. destruct H as [H _].
  apply andb_true_iff in H. destruct H as [H _].
  apply andb_true_iff in H. tauto.
Qed.

(** the members of a store, read after the decoder has passed the
    spaces in front of the first one *)
Lemma parse_items d :
  forall acc f tail,
    d <> [] ->
    short_prices d ->
    NoDup (map fst acc ++ map fst d) ->
    parse_members (length d + 6 + f) acc
                  (skip_ws (dump_items d ++ 10 :: 125 :: tail))
    = Some (PyDict (acc ++ value_items d), tail).
Proof.
  induction d as [|[k o] rest IH]; intros acc f tail Hne Hshort Hnd;
    [congruence|].
  inversion Hshort as [|? ? Ho Hrest]; subst. simpl in Ho.
  assert (Hfresh : ~ In k (map fst acc)).
  { cbn [map fst] in Hnd. apply NoDup_remove_2 in Hnd.
    intros Hin; apply Hnd; apply in_or_app; auto. }
  assert (Hset : dict_set acc k (observation_value o)
                 = acc ++ [(k, observation_value o)])
    by (apply dict_set_fresh; exact Hfresh).
  change (length ((k, o) :: rest) + 6 + f)%nat
    with (S (length rest + 6 + f)).
  destruct rest as [|kv rest'].
  - cbn [dump_items]. rewrite dump_item_eq.
    skip_spaces. rewrite (skip_ws_nonspace 34) by reflexivity.
    erewrite parse_member;
      [ | apply (dump_observation_parse o _ f); exact Ho
        | apply skip_ws_dump_observation ].
    next_char 125. rewrite Hset. reflexivity.
  - change (dump_items ((k, o) :: kv :: rest'))
      with (dump_item (k, o) ++ lit "," ++ [10] ++ dump_items (kv :: rest')).
    rewrite <- app_assoc, dump_item_eq.
    skip_spaces. rewrite (skip_ws_nonspace 34) by reflexivity.
    replace (length (kv :: rest') + 6 + f)%nat
      with (6 + (length (kv :: rest') + f))%nat by lia.
    erewrite parse_member;
      [ | apply dump_observation_parse; exact Ho
        | apply skip_ws_dump_observation ].
    cbn [app lit map String.list_ascii_of_string N_of_ascii N_of_digits
         Z.of_N].
    next_char 44. skip_spaces.
    replace (6 + (length (kv :: rest') + f))%nat
      with (length (kv :: rest') + 6 + f)%nat by lia.
    rewrite Hset, IH.
    + cbn [value_items map fst snd]. rewrite <- app_assoc. reflexivity.
    + discriminate.
    + exact Hrest.
    + rewrite map_app. cbn [map fst]. rewrite <- app_assoc. exact Hnd.
Qed.

Lemma dump_items_length d : (3 * length d <= length (dump_items d))%nat.
Proof.
  induction d as [|[k o] rest IH]; [simpl; lia|].
  destruct rest as [|kv rest'].
  - cbn [dump_items]. rewrite <- (app_nil_r (dump_item (k, o))).
    rewrite dump_item_eq. simpl. lia.
  - change (dump_items ((k, o) :: kv :: rest'))
      with (dump_item (k, o) ++ lit "," ++ [10] ++ dump_items (kv :: rest')).
    rewrite dump_item_eq.
    repeat (rewrite ?length_app;
            cbn [length lit map String.list_ascii_of_string] in *).
    lia.
Qed.

(** what [json.dump] writes is read back by [json.loads] *)
Lemma json_loads_dump d :
  NoDup (map fst d) -> short_prices d ->
  json_loads (json_dump d) = Some (store_value d).
Proof.
  intros Hnd Hshort. destruct d as [|kv rest]; [reflexivity|].
  set (d := kv :: rest) in *.
  assert (Hjson : json_dump d = 123 :: 10 :: dump_items d ++ [10; 125])
    by reflexivity.
  unfold json_loads. rewrite Hjson.
  rewrite (skip_ws_nonspace 123) by reflexivity.
  cbn [length]. rewrite scan_once_object.
  skip_spaces.
  pose proof (dump_items_length d) as Hlen.
  assert (Hd : (1 <= length d)%nat) by (subst d; simpl; lia).
  rewrite length_app in *. cbn [length] in *.
  replace (S (S (length (dump_items d) + 2)))
    with (length d + 6 + (length (dump_items d) - length d - 2))%nat by lia.
  pose proof (parse_items d [] (length (dump_items d) - length d - 2) []
                ltac:(subst d; discriminate) Hshort Hnd) as Hp.
  assert (Hc : after_char 125 (skip_ws (dump_items d ++ [10; 125])) = None).
  { subst d. destruct kv as [k o].
    destruct rest as [|kv' rest']; cbn [dump_items];
      [ | change (dump_items ((k, o) :: kv' :: rest'))
            with (dump_item (k, o) ++ lit "," ++ [10]
                            ++ dump_items (kv' :: rest'));
          rewrite <- app_assoc ];
      rewrite dump_item_eq; next_char 34; reflexivity. }
  rewrite Hc, Hp. reflexivity.
Qed.

Lemma as_observation_value o : as_observation (observation_value o) = Some o.
Proof. destruct o; reflexivity. Qed.

Lemma as_store_value d : as_store (store_value d) = Some d.
Proof.
  unfold as_store, store_value.
  induction d as [|[k o] rest IH]; [reflexivity|].
  cbn [map as_items fst snd]. rewrite as_observation_value, IH. reflexivity.
Qed.

End DumpFacts.

Module LoadFacts.
Import Monitor.

(** *** What the decoder returns *)

Lemma parse_members_unique fuel :
  forall acc s v rest,
    parse_members fuel acc s = Some (v, rest) ->
    NoDup (map fst acc) ->
    exists items, v = PyDict items /\ NoDup (map fst items).
Proof.
  induction fuel as [|fuel IH]; intros acc s v rest H Hnd;
    [discriminate|].
  cbn [parse_members] in H.
  destruct (after_char 34 s) as [s1|]; [|discriminate].
  destruct (scanstring s1) as [[key s2]|]; [|discriminate].
  destruct (after_char 58 (skip_ws s2)) as [s3|]; [|discriminate].
  destruct (scan_once fuel (skip_ws s3)) as [[value s4]|]; [|discriminate].
  cbv zeta in H.
  destruct (after_char 125 (skip_ws s4)) as [r|].
  - inversion H; subst. eexists; split; [reflexivity|].
    apply DictFacts.dict_set_nodup; exact Hnd.
  - destruct (after_char 44 (skip_ws s4)) as [s5|]; [|discriminate].
    eapply IH; [exact H|]. apply DictFacts.dict_set_nodup; exact Hnd.
Qed.

Lemma parse_elements_list fuel :
  forall acc s v rest,
    parse_elements fuel acc s = Some (v, rest) -> exists l, v = PyList l.
Proof.
  induction fuel as [|fuel IH]; intros acc s v rest H; [discriminate|].
  cbn [parse_elements] in H.
  destruct (scan_once fuel s) as [[value s1]|]; [|discriminate].
  cbv zeta in H.
  destruct (after_char 93 (skip_ws s1)) as [r|].
  - inversion H; subst. eexists; reflexivity.
  - destruct (after_char 44 (skip_ws s1)) as [s2|]; [|discriminate].
    eapply IH; exact H.
Qed.

Lemma match_number_atom s v rest :
  match_number s = Some (v, rest) ->
  (exists z, v = PyInt z) \/ (exists l, v = PyFloat l).
Proof.
  unfold match_number.
  destruct (match s with
            | [] => ([], s)
            | c :: t => if c =? 45 then ([45], t) else ([], s)
            end) as [sign s1].
  destruct (match_integer s1) as [[digits r]|]; [|discriminate].
  destruct (match_fraction r) as [frac r1].
  destruct (match_exponent r1) as [exp r2].
  destruct frac; destruct exp;
    try (intros H; inversion H; subst; right; eexists; reflexivity).
  destruct (max_str_digits <? Z.of_nat (length digits)); [discriminate|].
  destruct (PyStr.int digits); [|discriminate].
  intros H; inversion H; subst; left; eexists; reflexivity.
Qed.

Lemma scan_atom_no_dict s items rest :
  scan_atom s <> Some (PyDict items, rest).
Proof.
  unfold scan_atom. destruct s as [|c t]; [discriminate|].
  repeat match goal with
         | |- (if ?b then _ else _) <> _ => destruct b
         | |- match after_word ?w ?x with _ => _ end <> _ =>
             destruct (after_word w x)
         end;
    try discriminate;
    intros H; apply match_number_atom in H;
    destruct H as [[z H]|[l H]]; discriminate.
Qed.

Lemma scan_once_unique fuel s items rest :
  scan_once fuel s = Some (PyDict items, rest) -> NoDup (map fst items).
Proof.
  destruct fuel as [|fuel]; [discriminate|].
  cbn [scan_once].
  destruct (after_char 34 s) as [s1|].
  { destruct (scanstring s1) as [[chars r]|]; discriminate. }
  destruct (after_char 123 s) as [s1|].
  { destruct (after_char 125 (skip_ws s1)) as [r|].
    - intros H; inversion H; subst; constructor.
    - intros H. apply parse_members_unique in H; [|constructor].
      destruct H as (items' & E & Hnd). inversion E; subst. exact Hnd. }
  destruct (after_char 91 s) as [s1|].
  { destruct (after_char 93 (skip_ws s1)) as [r|]; [discriminate|].
    intros H. apply parse_elements_list in H.
    destruct H as (l & E). discriminate. }
  intros H. exfalso. eapply scan_atom_no_dict; exact H.
Qed.

Lemma json_loads_unique s items :
  json_loads s = Some (PyDict items) -> NoDup (map fst items).
Proof.
  unfold json_loads.
  destruct (scan_once (S (length s)) (skip_ws s)) as [[v r]|] eqn:E;
    [|discriminate].
  destruct (skip_ws r); [|discriminate].
  intros H; inversion H; subst. eapply scan_once_unique; exact E.
Qed.

Lemma as_items_keys items d :
  as_items items = Some d -> map fst d = map fst items.
Proof.
  revert d; induction items as [|[k v] items IH]; intros d; simpl.
  - intros H; inversion H; reflexivity.
  - destruct (as_observation v) as [o|]; [|discriminate].
    destruct (as_items items) as [d'|]; [|discriminate].
    intros H; inversion H; subst. simpl. rewrite (IH d' eq_refl).
    reflexivity.
Qed.

(** *** Loading *)

Lemma load_returns file :
  load_previous_prices file = Return (PyDict [])
  \/ exists s v, file = Some (Text s) /\ json_loads s = Some v
                 /\ load_previous_prices file = Return v.
Proof.
  destruct file as [[|s]|]; simpl; auto.
  destruct (json_loads s) as [v|] eqn:E; simpl; auto.
  right; exists s, v; auto.
Qed.

Lemma load_no_history file :
  no_history file -> load_previous_prices file = Return (PyDict []).
Proof.
  intros [->|(content & e & -> & H)]; simpl; [reflexivity|].
  rewrite H; reflexivity.
Qed.

Lemma initial_state_unique file st0 :
  initial_state file = Some st0 -> store_unique (previous_prices st0).
Proof.
  unfold initial_state, store_unique.
  destruct (load_returns file) as [E|(s & v & _ & Hl & E)]; rewrite E.
  - simpl. intros H; inversion H; subst; constructor.
  - destruct v as [| | | | | |items]; simpl; try discriminate.
    destruct (as_items items) as [d|] eqn:Ed; [|discriminate].
    intros H; inversion H; subst; simpl.
    rewrite (as_items_keys _ _ Ed). apply json_loads_unique in Hl. exact Hl.
Qed.

Lemma initial_state_no_history file st0 :
  no_history file -> initial_state file = Some st0 ->
  previous_prices st0 = [].
Proof.
  intros Hno. unfold initial_state. rewrite (load_no_history _ Hno).
  simpl. intros H; inversion H; reflexivity.
Qed.

(** *** The loop body and the store *)

Lemma monitor_url_store cfg w u st st' :
  monitor_url cfg w u st = Return st' ->
  previous_prices st' = previous_prices st
  \/ exists p name,
       observes w u p name
       /\ previous_prices st'
          = dict_set (previous_prices st) u (observation_of w u p name).
Proof.
  destruct (MonitorFacts.check_price_returns w u st)
    as [(line & Hc)|(p & name & Hobs & Hc)].
  - unfold monitor_url. rewrite Hc.
    intros H; inversion H; subst; left; reflexivity.
  - rewrite (MonitorFacts.monitor_url_observes _ _ _ _ _ st Hobs).
    intros H. apply MonitorFacts.compare_and_store_store in H.
    destruct H as [H|H]; [left; exact H|].
    right. exists p, name. split; [exact Hobs | exact H].
Qed.

Lemma dict_set_prices d u o :
  prices_in_range d -> 100 <= price o <= 10000000 ->
  prices_in_range (dict_set d u o).
Proof.
  unfold prices_in_range. rewrite !Forall_forall.
  intros Hd Ho [k v] Hin. simpl.
  apply DictFacts.dict_set_in in Hin. destruct Hin as [->|Hin]; [exact Ho|].
  apply (Hd _ Hin).
Qed.

Lemma reaches_unique cfg st0 st :
  reaches cfg st0 st ->
  store_unique (previous_prices st0) -> store_unique (previous_prices st).
Proof.
  unfold store_unique.
  induction 1 as [|st w u st' _ IH Hm]; intros H0; [exact H0|].
  destruct (monitor_url_store _ _ _ _ _ Hm) as [E|(p & name & _ & E)];
    rewrite E; [auto|].
  apply DictFacts.dict_set_nodup; auto.
Qed.

Lemma reaches_prices cfg st0 st :
  reaches cfg st0 st ->
  prices_in_range (previous_prices st0) ->
  prices_in_range (previous_prices st).
Proof.
  induction 1 as [|st w u st' _ IH Hm]; intros H0; [exact H0|].
  destruct (monitor_url_store _ _ _ _ _ Hm) as [E|(p & name & Hobs & E)];
    rewrite E; [auto|].
  apply dict_set_prices; [auto|].
  simpl. eapply MonitorFacts.observes_in_range; eauto.
Qed.

End LoadFacts.

(** C4 as stated fails at the load: a history file that holds a price of
    50 gives a store with that price. *)
Lemma loaded_price_out_of_range :
  exists st,
    reachable cfg st
    /\ dict_get (Monitor.previous_prices st) url_x = Some (stored 50)
    /\ ~ prices_in_range (Monitor.previous_prices st).
Proof.
  exists {| Monitor.previous_prices := [(url_x, stored 50)];
            Monitor.price_data_file := history_price_50;
            Monitor.out := [] |}.
  split; [|split].
  - exists history_price_50,
      {| Monitor.previous_prices := [(url_x, stored 50)];
         Monitor.price_data_file := history_price_50;
         Monitor.out := [] |}.
    split; [vm_compute; reflexivity | constructor].
  - reflexivity.
  - intros H. inversion H as [|x l Hx Hl]; subst. simpl in Hx. lia.
Qed.

(** C4, amended: in every state of a run the store has at most one entry
    per url.  Every price of the store lies in [100, 10000000] provided
    the prices loaded at startup do; this is the case when the history
    file is missing, cannot be read or is not JSON.  Nothing checks the
    prices that the file holds. *)
Theorem store_invariant
        (cfg : Monitor.Config) (file : option Monitor.FileContent)
        (st0 st : Monitor.State) :
  Monitor.initial_state file = Some st0 ->
  reaches cfg st0 st ->
  store_unique (Monitor.previous_prices st)
  /\ (prices_in_range (Monitor.previous_prices st0) ->
      prices_in_range (Monitor.previous_prices st))
  /\ (no_history file -> prices_in_range (Monitor.previous_prices st)).
Proof.
  intros Hinit Hreach. split; [|split].
  - eapply LoadFacts.reaches_unique; [exact Hreach|].
    eapply LoadFacts.initial_state_unique; exact Hinit.
  - apply (LoadFacts.reaches_prices cfg); exact Hreach.
  - intros Hno. eapply LoadFacts.reaches_prices; [exact Hreach|].
    rewrite (LoadFacts.initial_state_no_history _ _ Hno Hinit). constructor.
Qed.

Lemma store_invariant_witness :
  exists st,
    Monitor.monitor_url cfg (world 200 page_800 (Monitor.Return 204)) url_x
                        state_empty
    = Monitor.Return st
    /\ store_unique (Monitor.previous_prices st)
    /\ prices_in_range (Monitor.previous_prices st).
Proof.
  destruct (Monitor.monitor_url cfg (world 200 page_800 (Monitor.Return 204))
                                url_x state_empty) as [st|e] eqn:Hm;
    [|vm_compute in Hm; discriminate].
  exists st. split; [reflexivity|].
  assert (Hinit : Monitor.initial_state None = Some state_empty) by reflexivity.
  assert (Hreach : reaches cfg state_empty st).
  { eapply reaches_url; [apply reaches_start | exact Hm]. }
  destruct (store_invariant cfg None state_empty st Hinit Hreach)
    as (Hu & _ & Hp).
  split; [exact Hu|]. apply Hp. left; reflexivity.
Defined.

(** C9 as stated fails on a store that holds a lone surrogate.
    [load_previous_prices] returns such a store for a history file that
    writes the surrogate as an escape.  [save_prices] opens the file as
    UTF-8: it raises [UnicodeEncodeError] at the name and leaves the file
    cut there, which is no JSON, so the next load returns the empty
    mapping and not the store. *)
Lemma lone_surrogate_breaks_round_trip :
  let st := state_with_surrogate 1000 in
  Monitor.load_previous_prices (Some (Monitor.Text history_surrogate))
  = Monitor.Return (Monitor.store_value (Monitor.previous_prices st))
  /\ store_unique (Monitor.previous_prices st)
  /\ Monitor.save_prices st = Monitor.Raise Monitor.UnicodeEncodeError
  /\ snd (Monitor.dump_to_file (Monitor.previous_prices st))
     = Some Monitor.UnicodeEncodeError
  /\ Monitor.load_previous_prices
       (Some (Monitor.Text
                (fst (Monitor.dump_to_file (Monitor.previous_prices st)))))
     = Monitor.Return (PyDict [])
  /\ Monitor.store_value (Monitor.previous_prices st) <> PyDict [].
Proof.
  cbv zeta. split; [vm_compute; reflexivity|].
  split.
  { unfold store_unique. simpl. repeat constructor; simpl;
      intros H; repeat (destruct H as [H|H]; [discriminate|]); exact H. }
  split; [vm_compute; reflexivity|].
  split; [vm_compute; reflexivity|].
  split; [vm_compute; reflexivity | discriminate].
Qed.

(** C9, amended: [save_prices] returns exactly on the stores that can be
    written: no lone surrogate in their urls, names and time stamps, no
    integer of more than 4300 digits.  For such a store with one entry
    per url, reading the file with [load_previous_prices] gives back the
    store: the same urls in the same order, each with the same
    observation.  On the other stores [save_prices] raises. *)
Theorem save_then_load_is_identity (st : Monitor.State) :
  store_unique (Monitor.previous_prices st) ->
  (writable (Monitor.previous_prices st) = true
   <-> exists st', Monitor.save_prices st = Monitor.Return st')
  /\ (forall st',
        Monitor.save_prices st = Monitor.Return st' ->
        Monitor.previous_prices st' = Monitor.previous_prices st
        /\ Monitor.load_previous_prices (Monitor.price_data_file st')
           = Monitor.Return (Monitor.store_value (Monitor.previous_prices st))
        /\ Monitor.as_store (Monitor.store_value (Monitor.previous_prices st))
           = Some (Monitor.previous_prices st)
        /\ exists st0,
             Monitor.initial_state (Monitor.price_data_file st') = Some st0
             /\ Monitor.previous_prices st0 = Monitor.previous_prices st).
Proof.
  intros Hu. split.
  - split.
    + intros Hw. rewrite (SaveFacts.save_prices_writable _ Hw). eauto.
    + intros (st' & Hs). apply SaveFacts.save_prices_returns in Hs. tauto.
  - intros st' Hs. apply SaveFacts.save_prices_returns in Hs.
    destruct Hs as [Hw ->].
    assert (Hload :
      Monitor.load_previous_prices
        (Some (Monitor.Text (Monitor.json_dump (Monitor.previous_prices st))))
      = Monitor.Return (Monitor.store_value (Monitor.previous_prices st))).
    { simpl.
      rewrite (DumpFacts.json_loads_dump _ Hu
                 (DumpFacts.writable_short_prices _ Hw)).
      reflexivity. }
    cbn [Monitor.previous_prices Monitor.price_data_file].
    split; [reflexivity|]. split; [exact Hload|].
    split; [apply DumpFacts.as_store_value|].
    unfold Monitor.initial_state. rewrite Hload, DumpFacts.as_store_value.
    eexists; split; reflexivity.
Qed.

Lemma save_then_load_is_identity_witness :
  exists st',
    Monitor.save_prices (state_with 1000) = Monitor.Return st'
    /\ Monitor.load_previous_prices (Monitor.price_data_file st')
       = Monitor.Return (Monitor.store_value [(url_x, stored 1000)]).
Proof.
  assert (Hu : store_unique (Monitor.previous_prices (state_with 1000))).
  { repeat constructor. simpl. tauto. }
  destruct (save_then_load_is_identity (state_with 1000) Hu) as [Hiff Hload].
  destruct (proj1 Hiff eq_refl) as (st' & Hs).
  exists st'. split; [exact Hs|].
  exact (proj1 (proj2 (Hload st' Hs))).
Defined.

(** C10: [load_previous_prices] always returns and never raises.  It
    returns the empty mapping when the file does not exist, when it
    cannot be read and when its text is not JSON; the monitor then starts
    with an empty store, and the first price seen for any url is taken
    as a first observation: the line is printed, the observation makes
    the store and [save_prices] is called, which returns when the
    observation can be written. *)
Theorem load_previous_prices_total :
  (forall file, exists v, Monitor.load_previous_prices file = Monitor.Return v)
  /\ Monitor.load_previous_prices None = Monitor.Return (PyDict [])
  /\ Monitor.load_previous_prices (Some Monitor.Unreadable)
     = Monitor.Return (PyDict [])
  /\ (forall s, json_loads s = None ->
                Monitor.load_previous_prices (Some (Monitor.Text s))
                = Monitor.Return (PyDict []))
  /\ (forall file, no_history file ->
        Monitor.initial_state file
        = Some {| Monitor.previous_prices := [];
                  Monitor.price_data_file := file;
                  Monitor.out := [] |})
  /\ (forall cfg w u p name st0,
        Monitor.previous_prices st0 = [] ->
        observes w u p name ->
        Monitor.monitor_url cfg w u st0
        = Monitor.save_prices
            {| Monitor.previous_prices := [(u, observation_of w u p name)];
               Monitor.price_data_file := Monitor.price_data_file st0;
               Monitor.out :=
                 Monitor.out st0
                 ++ [Monitor.Printed
                       (Monitor.LogFirstSeen (firstn 40 name) p)] |}
        /\ (writable [(u, observation_of w u p name)] = true ->
            exists st,
              Monitor.monitor_url cfg w u st0 = Monitor.Return st
              /\ Monitor.previous_prices st = [(u, observation_of w u p name)]
              /\ Monitor.out st
                 = Monitor.out st0
                   ++ [Monitor.Printed
                         (Monitor.LogFirstSeen (firstn 40 name) p)])).
Proof.
  split; [|split; [|split; [|split; [|split]]]].
  - intros file.
    destruct (LoadFacts.load_returns file) as [E|(s & v & _ & _ & E)];
      rewrite E; eexists; reflexivity.
  - reflexivity.
  - reflexivity.
  - intros s H. simpl. rewrite H. reflexivity.
  - intros file Hno. unfold Monitor.initial_state.
    rewrite (LoadFacts.load_no_history _ Hno). reflexivity.
  - intros cfg w u p name st0 Hempty Hobs.
    assert (Hm : Monitor.monitor_url cfg w u st0
                 = Monitor.save_prices
                     {| Monitor.previous_prices :=
                          [(u, observation_of w u p name)];
                        Monitor.price_data_file := Monitor.price_data_file st0;
                        Monitor.out :=
                          Monitor.out st0
                          ++ [Monitor.Printed
                                (Monitor.LogFirstSeen (firstn 40 name) p)] |}).
    { rewrite (MonitorFacts.monitor_url_observes _ _ _ _ _ st0 Hobs).
      rewrite MonitorFacts.compare_and_store_first
        by (rewrite Hempty; reflexivity).
      rewrite Hempty. reflexivity. }
    split; [exact Hm|].
    intros Hw. rewrite Hm, SaveFacts.save_prices_writable by exact Hw.
    eexists; split; [reflexivity|]. simpl. auto.
Qed.

Lemma load_previous_prices_total_witness :
  json_loads (lit "{ broken") = None
  /\ Monitor.load_previous_prices history_broken = Monitor.Return (PyDict []).
Proof.
  assert (H : json_loads (lit "{ broken") = None) by reflexivity.
  split; [exact H|].
  exact (proj1 (proj2 (proj2 (proj2 load_previous_prices_total))) _ H).
Defined.

(* ================================================================== *)
(** ** Further properties

    What follows goes beyond the properties above: the other paths of the
    loop body, the run as a whole, the shape of the names, and the list
    of urls of [__init__]. *)

(** *** White space *)

Module StripFacts.

Lemma lstrip_head s c t : lstrip s = c :: t -> isspace c = false.
Proof.
  induction s as [|x s IH]; simpl; [discriminate|].
  destruct (isspace x) eqn:E; [exact IH|].
  intros H; inversion H; subst; exact E.
Qed.

Lemma lstrip_suffix s : exists pre, s = pre ++ lstrip s /\ blank pre = true.
Proof.
  induction s as [|x s (pre & IH & Hb)]; simpl.
  - exists []; auto.
  - destruct (isspace x) eqn:E.
    + exists (x :: pre); simpl. rewrite E, Hb.
      split; [congruence | reflexivity].
    + exists []; auto.
Qed.

Lemma blank_rev s : blank s = true -> blank (rev s) = true.
Proof.
  unfold blank. rewrite !forallb_forall. intros H x Hx.
  apply H. apply in_rev. exact Hx.
Qed.

Lemma rstrip_prefix s : exists post, s = rstrip s ++ post /\ blank post = true.
Proof.
  unfold rstrip. destruct (lstrip_suffix (rev s)) as (pre & H & Hb).
  exists (rev pre). split; [|apply blank_rev; exact Hb].
  rewrite <- rev_app_distr, <- H, rev_involutive. reflexivity.
Qed.

Lemma rstrip_last s c : rstrip s <> [] -> isspace (last (rstrip s) c) = false.
Proof.
  unfold rstrip. destruct (lstrip (rev s)) as [|x t] eqn:E; [tauto|].
  intros _. simpl rev. rewrite last_last. eapply lstrip_head; exact E.
Qed.

(** what [strip] returns has no white space at either end *)
Lemma strip_no_outer_space s : no_outer_space (strip s) = true.
Proof.
  unfold strip, no_outer_space.
  destruct (rstrip (lstrip s)) as [|c t] eqn:E; [reflexivity|].
  destruct (rstrip_prefix (lstrip s)) as (post & H & _).
  rewrite E in H. simpl in H.
  rewrite (lstrip_head _ _ _ H).
  rewrite <- E. rewrite rstrip_last; [reflexivity|]. rewrite E; discriminate.
Qed.

Lemma lstrip_blank s : blank s = true -> lstrip s = [].
Proof.
  induction s as [|c s IH]; simpl; [reflexivity|].
  intros H. apply andb_true_iff in H. destruct H as [Hc Hs].
  rewrite Hc. auto.
Qed.

Lemma lstrip_app_blank pre s :
  blank pre = true -> lstrip (pre ++ s) = lstrip s.
Proof.
  induction pre as [|c pre IH]; simpl; [reflexivity|].
  intros H. apply andb_true_iff in H. destruct H as [Hc Hs].
  rewrite Hc. auto.
Qed.

Lemma lstrip_fixed c s : isspace c = false -> lstrip (c :: s) = c :: s.
Proof. simpl. intros ->. reflexivity. Qed.

Lemma rstrip_app_blank s post :
  blank post = true -> rstrip (s ++ post) = rstrip s.
Proof.
  intros H. unfold rstrip.
  rewrite rev_app_distr, lstrip_app_blank; [reflexivity|].
  apply blank_rev; exact H.
Qed.

Lemma last_rev_head (s : pystr) c d : last (c :: s) d = hd d (rev (c :: s)).
Proof.
  destruct (rev (c :: s)) as [|x t] eqn:E.
  - apply (f_equal (@length Z)) in E. rewrite length_rev in E. discriminate.
  - apply (f_equal (@rev Z)) in E. rewrite rev_involutive in E. rewrite E.
    simpl rev. rewrite last_last. reflexivity.
Qed.

(** a text without white space at its ends is left as it is *)
Lemma strip_fixed s : no_outer_space s = true -> strip s = s.
Proof.
  unfold no_outer_space, strip. destruct s as [|c s]; [reflexivity|].
  intros H. apply andb_true_iff in H. destruct H as [H1 H2].
  apply negb_true_iff in H1, H2.
  rewrite (lstrip_fixed c s H1).
  unfold rstrip. rewrite last_rev_head in H2.
  destruct (rev (c :: s)) as [|x t] eqn:E.
  - apply (f_equal (@length Z)) in E. rewrite length_rev in E. discriminate.
  - simpl in H2. rewrite (lstrip_fixed x t H2), <- E.
    apply rev_involutive.
Qed.

Lemma strip_padded before u after :
  blank before = true -> blank after = true -> no_outer_space u = true ->
  strip (before ++ u ++ after) = u.
Proof.
  intros Hb Ha Hu. unfold strip.
  rewrite lstrip_app_blank by exact Hb.
  destruct u as [|c u].
  - simpl. rewrite (lstrip_blank _ Ha). reflexivity.
  - pose proof (strip_fixed _ Hu) as Hfix. unfold strip in Hfix.
    unfold no_outer_space in Hu. apply andb_true_iff in Hu.
    destruct Hu as [H1 _]. apply negb_true_iff in H1.
    change ((c :: u) ++ after) with (c :: (u ++ after)).
    rewrite (lstrip_fixed c (u ++ after) H1).
    change (c :: (u ++ after)) with ((c :: u) ++ after).
    rewrite rstrip_app_blank by exact Ha.
    rewrite (lstrip_fixed c u H1) in Hfix. exact Hfix.
Qed.

Lemma strip_blank s : blank s = true -> strip s = [].
Proof. intros H. unfold strip. rewrite (lstrip_blank _ H). reflexivity. Qed.

Lemma strip_nil_blank s : strip s = [] -> blank s = true.
Proof.
  intros H. destruct (lstrip_suffix s) as (pre & Hs & Hpre).
  destruct (rstrip_prefix (lstrip s)) as (post & Hl & Hpost).
  unfold strip in H. rewrite H in Hl. simpl in Hl.
  rewrite Hs, Hl. unfold blank in *. rewrite forallb_app, Hpre, Hpost.
  reflexivity.
Qed.

Lemma strip_subset s c : In c (strip s) -> In c s.
Proof.
  intros H. destruct (lstrip_suffix s) as (pre & Hs & _).
  destruct (rstrip_prefix (lstrip s)) as (post & Hl & _).
  rewrite Hs, Hl. apply in_or_app; right. apply in_or_app; left. exact H.
Qed.

Lemma strip_forallb (p : Z -> bool) s :
  forallb p s = true -> forallb p (strip s) = true.
Proof.
  rewrite !forallb_forall. intros H c Hc.
  apply H. apply strip_subset. exact Hc.
Qed.

End StripFacts.

(** *** The loop body, case by case *)

Module LoopFacts.
Import Extractor Monitor.

Lemma posts_app a b : posts (a ++ b) = posts a ++ posts b.
Proof. unfold posts; apply flat_map_app. Qed.

Lemma dict_get_set_other {V} (d : list (pystr * V)) k v k' :
  k' <> k -> dict_get (dict_set d k v) k' = dict_get d k'.
Proof.
  intros Hne. induction d as [|[k0 v0] d IH]; simpl.
  - destruct (PyStr.eqb k k') eqn:E; [|reflexivity].
    apply PyStrFacts.eqb_eq in E. congruence.
  - destruct (PyStr.eqb k0 k) eqn:E; simpl.
    + apply PyStrFacts.eqb_eq in E; subst k0.
      destruct (PyStr.eqb k k') eqn:E'; [|reflexivity].
      apply PyStrFacts.eqb_eq in E'. congruence.
    + rewrite IH. reflexivity.
Qed.

Lemma dict_set_twice {V} (d : list (pystr * V)) k v v' :
  dict_set (dict_set d k v) k v' = dict_set d k v'.
Proof.
  induction d as [|[k0 v0] d IH]; simpl.
  - rewrite PyStrFacts.eqb_refl. reflexivity.
  - destruct (PyStr.eqb k0 k) eqn:E; simpl; rewrite E; [reflexivity|].
    rewrite IH. reflexivity.
Qed.

Lemma dict_get_in {V} (d : list (pystr * V)) k v :
  dict_get d k = Some v -> In (k, v) d.
Proof.
  induction d as [|[k0 v0] d IH]; simpl; [discriminate|].
  destruct (PyStr.eqb k0 k) eqn:E.
  - apply PyStrFacts.eqb_eq in E; subst. intros H; inversion H; auto.
  - auto.
Qed.

Lemma dict_contains_false {V} (d : list (pystr * V)) k :
  dict_contains d k = false -> ~ In k (map fst d).
Proof.
  intros H Hin. apply DictFacts.dict_contains_in in Hin. congruence.
Qed.

Lemma dict_get_app_fresh {V} (d : list (pystr * V)) k v :
  dict_contains d k = false -> dict_get (d ++ [(k, v)]) k = Some v.
Proof.
  intros H.
  rewrite <- (DumpFacts.dict_set_fresh _ _ _ (dict_contains_false _ _ H)).
  apply DictFacts.dict_get_set_same.
Qed.

Lemma observes_unique w u p name p' name' :
  observes w u p name -> observes w u p' name' -> p = p' /\ name = name'.
Proof.
  intros (r & Hg & _ & Hp & Hn) (r' & Hg' & _ & Hp' & Hn').
  rewrite Hg in Hg'. inversion Hg'; subst r'.
  rewrite Hp in Hp'. inversion Hp'. split; congruence.
Qed.

Lemma observes_not_fails w u p name :
  observes w u p name -> check_fails w u -> False.
Proof.
  intros (r & Hg & Hs & Hp & _) [e Hg' | r' Hg' Hs' | r' Hg' Hs' Hp'];
    rewrite Hg in Hg'; inversion Hg'; subst; auto; congruence.
Qed.

(** what [send_discord_notification] adds to the events *)
Lemma send_discord_notification_out cfg w message flag st :
  exists ok new,
    send_discord_notification cfg w message flag st
    = Return (ok, {| previous_prices := previous_prices st;
                     price_data_file := price_data_file st;
                     out := out st ++ new |})
    /\ notify_calls new = []
    /\ posts new
       = match discord_webhook cfg with
         | [] => []
         | hook => [(hook, build_embed w message flag)]
         end.
Proof.
  unfold send_discord_notification.
  destruct (discord_webhook cfg) as [|c hook].
  - exists false, [Printed LogWebhookMissing]. auto.
  - destruct (requests_post w (c :: hook) (build_embed w message flag))
      as [code|e]; simpl.
    + destruct (code =? 204); eexists _, [_; _];
        unfold print, emit; simpl; rewrite <- app_assoc; simpl; auto.
    + eexists _, [_; _]; unfold print, emit; simpl;
        rewrite <- app_assoc; simpl; auto.
Qed.

Lemma send_keeps_store cfg w message flag st ok st' :
  send_discord_notification cfg w message flag st = Return (ok, st') ->
  previous_prices st' = previous_prices st
  /\ price_data_file st' = price_data_file st
  /\ notify_calls (out st') = notify_calls (out st).
Proof.
  intros H.
  destruct (MonitorFacts.send_discord_notification_frame cfg w message flag st)
    as (ok' & st1 & Hs & Hp & Hf & Hn).
  rewrite Hs in H. inversion H; subst. auto.
Qed.

(** what [notify] adds to the events *)
Lemma notify_out cfg w message flag st :
  exists new,
    notify cfg w message flag st
    = Return {| previous_prices := previous_prices st;
                price_data_file := price_data_file st;
                out := out st ++ new |}
    /\ notify_calls new = [(message, flag)]
    /\ posts new
       = match discord_webhook cfg with
         | [] => []
         | hook => [(hook, build_embed w message flag)]
         end.
Proof.
  unfold notify.
  destruct (send_discord_notification_out cfg w message flag
              (print (LogNotifyBanner message)
                     (emit (Notify message flag) st)))
    as (ok & new & -> & Hn & Hp).
  exists (Notify message flag :: Printed (LogNotifyBanner message) :: new).
  simpl. rewrite <- !app_assoc. simpl. rewrite Hn, Hp. auto.
Qed.

Lemma check_price_cases w u st :
  (check_fails w u
   /\ exists line, check_price w u st = Return (None, print line st))
  \/ (exists p name,
         observes w u p name
         /\ check_price w u st = Return (Some (observation_of w u p name), st)).
Proof.
  unfold check_price.
  destruct (requests_get w u) as [r|e] eqn:Hg.
  - unfold raise_for_status.
    destruct ((400 <=? status_code r) && (status_code r <? 600)) eqn:E.
    + left; split; [|eexists; reflexivity].
      apply andb_true_iff in E. destruct E as [E1 E2].
      apply Z.leb_le in E1. apply Z.ltb_lt in E2.
      eapply error_status; eauto.
    + assert (Hs : ~ (400 <= status_code r < 600)).
      { intros [H1 H2]. apply Z.leb_le in H1; apply Z.ltb_lt in H2.
        rewrite H1, H2 in E. discriminate. }
      destruct (extract_price (text r)) as [p|] eqn:Hp.
      * right; exists p, (extract_product_name (text r)).
        split; [|reflexivity]. exists r; repeat split; auto.
      * left; split; [|eexists; reflexivity].
        eapply price_absent; eauto.
  - left; split; [|eexists; reflexivity]. eapply fetch_raises; eauto.
Qed.

(** what the observation of a visit needs to be written *)
Lemma observation_storable w u p name :
  observes w u p name -> encodable u = true -> encodable_world w ->
  storable (observation_of w u p name) = true.
Proof.
  intros Hobs Hu [Hnow Hnames]. unfold storable. simpl.
  pose proof (MonitorFacts.observes_in_range _ _ _ _ Hobs) as Hr.
  rewrite Hu, Hnow, (Hnames _ _ _ Hobs).
  rewrite JsonFacts.short_enough_small by lia. reflexivity.
Qed.

(** the loop body takes one of these ways *)
Lemma monitor_url_visit cfg w u st : visit cfg w u st (monitor_url cfg w u st).
Proof.
  destruct (check_price_cases w u st)
    as [(Hf & line & Hc)|(p & name & Hobs & Hc)].
  { unfold monitor_url. rewrite Hc. apply visit_failed; exact Hf. }
  rewrite (MonitorFacts.monitor_url_observes _ _ _ _ _ st Hobs).
  pose proof (MonitorFacts.observes_in_range _ _ _ _ Hobs) as Hrange.
  destruct (dict_contains (previous_prices st) u) eqn:Hin.
  - destruct (proj1 (DictFacts.dict_contains_get _ _ _) Hin)
      as (previous & Hget).
    destruct (Z.eq_dec (price previous) p) as [Heq|Hne].
    { rewrite (MonitorFacts.compare_and_store_unchanged
                 cfg w u p name previous st Hget Heq).
      eapply visit_unchanged; eauto. }
    destruct (Z.eq_dec (price previous) 0) as [Hz|Hnz].
    { rewrite (MonitorFacts.compare_and_store_zero
                 cfg w u p name previous st Hget Hz Hrange).
      eapply visit_zero; eauto. }
    destruct (short_enough (price previous)
              && short_enough (p - price previous)) eqn:Hs.
    + apply andb_true_iff in Hs. destruct Hs as [Hs1 Hs2].
      rewrite (MonitorFacts.compare_and_store_changed
                 cfg w u p name previous st Hget Hne Hnz Hrange Hs1 Hs2).
      destruct (notify_out cfg w
                  (change_message name (price previous) p u)
                  (p - price previous <? 0) st)
        as (new & Hnotify & Hn & Hp).
      rewrite Hnotify. unfold set_previous_prices. simpl.
      destruct (writable (dict_set (previous_prices st) u
                                   (observation_of w u p name))) eqn:Hw.
      * rewrite SaveFacts.save_prices_writable by exact Hw. simpl.
        apply (visit_changed cfg w u st p name previous new); auto.
      * match goal with
        | |- visit _ _ _ _ (save_prices ?s) =>
            destruct (SaveFacts.save_prices_unwritable s Hw) as (e & -> & He)
        end.
        eapply visit_changed_unsaved; eauto.
    + rewrite (MonitorFacts.compare_and_store_long
                 cfg w u p name previous st Hget Hne Hnz Hrange Hs).
      eapply visit_long; eauto.
  - rewrite (MonitorFacts.compare_and_store_first cfg w u p name st Hin).
    rewrite (DumpFacts.dict_set_fresh _ _ _ (dict_contains_false _ _ Hin)).
    destruct (writable (previous_prices st ++ [(u, observation_of w u p name)]))
      eqn:Hw.
    + rewrite SaveFacts.save_prices_writable by exact Hw. simpl.
      apply visit_first; auto.
    + match goal with
      | |- visit _ _ _ _ (save_prices ?s) =>
          destruct (SaveFacts.save_prices_unwritable s Hw) as (e & -> & He)
      end.
      eapply visit_first_unsaved; eauto.
Qed.

(** a visit whose check succeeds for a url not yet in the store: the
    line is printed, the observation goes to the end of the store, and
    [save_prices] decides *)
Lemma monitor_url_first cfg w u st p name :
  observes w u p name ->
  dict_contains (previous_prices st) u = false ->
  monitor_url cfg w u st
  = save_prices
      {| previous_prices :=
           previous_prices st ++ [(u, observation_of w u p name)];
         price_data_file := price_data_file st;
         out := out st ++ [Printed (LogFirstSeen (firstn 40 name) p)] |}.
Proof.
  intros Hobs Hnew.
  rewrite (MonitorFacts.monitor_url_observes _ _ _ _ _ st Hobs).
  rewrite (MonitorFacts.compare_and_store_first cfg w u p name st Hnew).
  rewrite (DumpFacts.dict_set_fresh _ _ _ (dict_contains_false _ _ Hnew)).
  reflexivity.
Qed.

(** a visit that finds a price other than the stored one, where the
    message can be built and the store written *)
Lemma monitor_url_changed cfg w u st p name previous :
  observes w u p name ->
  dict_get (previous_prices st) u = Some previous ->
  price previous <> p ->
  price previous <> 0 ->
  short_enough (price previous) = true ->
  short_enough (p - price previous) = true ->
  writable (dict_set (previous_prices st) u (observation_of w u p name))
  = true ->
  exists new,
    monitor_url cfg w u st
    = Return {| previous_prices :=
                  dict_set (previous_prices st) u (observation_of w u p name);
                price_data_file :=
                  Some (Text (json_dump
                    (dict_set (previous_prices st) u
                              (observation_of w u p name))));
                out := out st ++ new |}
    /\ notify_calls new
       = [(change_message name (price previous) p u,
           p - price previous <? 0)].
Proof.
  intros Hobs Hget Hne Hnz Hs1 Hs2 Hw.
  pose proof (MonitorFacts.observes_in_range _ _ _ _ Hobs) as Hrange.
  rewrite (MonitorFacts.monitor_url_observes _ _ _ _ _ st Hobs).
  rewrite (MonitorFacts.compare_and_store_changed
             cfg w u p name previous st Hget Hne Hnz Hrange Hs1 Hs2).
  destruct (notify_out cfg w (change_message name (price previous) p u)
              (p - price previous <? 0) st)
    as (new & Hnotify & Hn & _).
  rewrite Hnotify. unfold set_previous_prices. simpl.
  rewrite SaveFacts.save_prices_writable by exact Hw.
  exists new. split; [reflexivity | exact Hn].
Qed.

(** the loop body returns when no stored price is 0 or below and all
    that it may have to write can be written *)
Lemma monitor_url_returns cfg w u st :
  positive_prices (previous_prices st) ->
  writable (previous_prices st) = true ->
  encodable u = true ->
  encodable_world w ->
  exists st', monitor_url cfg w u st = Return st'.
Proof.
  intros Hpos Hw Hu Hworld.
  destruct (monitor_url_visit cfg w u st)
    as [line Hf | p name Hobs Hc Hw'
        | p name e Hobs Hc Hw' He
        | p name previous Hobs Hget Hp
        | p name previous Hobs Hget Hz
        | p name previous Hobs Hget Hne Hnz Hs
        | p name previous new Hobs Hget Hne Hnz Hw' Hn Hposts
        | p name previous e Hobs Hget Hne Hnz Hw' He];
    try (eexists; reflexivity); exfalso.
  - rewrite SaveFacts.writable_app, Hw, Hu in Hw'.
    rewrite (observation_storable _ _ _ _ Hobs Hu Hworld) in Hw'.
    discriminate.
  - unfold positive_prices in Hpos. rewrite Forall_forall in Hpos.
    apply dict_get_in in Hget. specialize (Hpos _ Hget). simpl in Hpos. lia.
  - pose proof (MonitorFacts.observes_in_range _ _ _ _ Hobs) as Hr.
    pose proof Hget as Hin. apply dict_get_in in Hin.
    destruct (SaveFacts.writable_in _ _ _ Hw Hin) as [_ Hst].
    unfold storable in Hst.
    apply andb_true_iff in Hst. destruct Hst as [Hst _].
    apply andb_true_iff in Hst. destruct Hst as [Hst _].
    apply andb_true_iff in Hst. destruct Hst as [_ Hshort].
    unfold positive_prices in Hpos. rewrite Forall_forall in Hpos.
    specialize (Hpos _ Hin). simpl in Hpos.
    rewrite Hshort in Hs. simpl in Hs.
    rewrite (JsonFacts.short_enough_between p (p - price previous)
               (price previous)) in Hs;
      [discriminate | apply JsonFacts.short_enough_small; lia
       | exact Hshort | lia].
  - rewrite SaveFacts.writable_dict_set in Hw';
      [discriminate | exact Hw | exact Hu
       | exact (observation_storable _ _ _ _ Hobs Hu Hworld)].
Qed.

(** the store and the file after a visit *)
Lemma monitor_url_effect cfg w u st st' :
  monitor_url cfg w u st = Return st' ->
  (previous_prices st' = previous_prices st
   /\ price_data_file st' = price_data_file st)
  \/ (exists p name,
         observes w u p name
         /\ writable (previous_prices st') = true
         /\ previous_prices st'
            = dict_set (previous_prices st) u (observation_of w u p name)
         /\ price_data_file st'
            = Some (Text (json_dump (previous_prices st')))).
Proof.
  intros Hm. pose proof (monitor_url_visit cfg w u st) as Hv.
  rewrite Hm in Hv. inversion Hv; subst; simpl; auto.
  - right. exists p, name. split; [assumption|].
    match goal with
    | Hc : dict_contains _ _ = false |- _ =>
        rewrite (DumpFacts.dict_set_fresh _ _ _ (dict_contains_false _ _ Hc))
    end.
    auto.
  - right. exists p, name. auto.
Qed.

(** the events a visit adds: every call of [notify] has its request *)
Lemma monitor_url_events cfg w u st st' :
  monitor_url cfg w u st = Return st' ->
  exists new,
    out st' = out st ++ new
    /\ posts new
       = match discord_webhook cfg with
         | [] => []
         | hook =>
             map (fun call => (hook, build_embed w (fst call) (snd call)))
                 (notify_calls new)
         end.
Proof.
  intros Hm. pose proof (monitor_url_visit cfg w u st) as Hv.
  rewrite Hm in Hv. inversion Hv; subst; simpl.
  - eexists [_]; split; [reflexivity|]. simpl.
    destruct (discord_webhook cfg); reflexivity.
  - eexists [_]; split; [reflexivity|]. simpl.
    destruct (discord_webhook cfg); reflexivity.
  - eexists [_]; split; [reflexivity|]. simpl.
    destruct (discord_webhook cfg); reflexivity.
  - exists new. split; [reflexivity|].
    match goal with Hn : notify_calls new = _ |- _ => rewrite Hn end.
    match goal with Hp : posts new = _ |- _ => rewrite Hp end.
    destruct (discord_webhook cfg); reflexivity.
Qed.

Lemma for_urls_events cfg env us : forall t st st',
  for_urls cfg env t us st = Return st' ->
  exists new,
    out st' = out st ++ new
    /\ map shown (posts new)
       = match discord_webhook cfg with
         | [] => []
         | hook => map (posted_for hook) (notify_calls new)
         end.
Proof.
  induction us as [|u us IH]; intros t st st'; simpl.
  - intros H; inversion H; subst. exists []. rewrite app_nil_r.
    destruct (discord_webhook cfg); auto.
  - destruct (monitor_url cfg (env t) u st) as [st1|e] eqn:Hm; [|discriminate].
    intros H. destruct (IH _ _ _ H) as (new2 & Ho2 & Hp2).
    destruct (monitor_url_events _ _ _ _ _ Hm) as (new1 & Ho1 & Hp1).
    exists (new1 ++ new2). split.
    + rewrite Ho2, Ho1, app_assoc. reflexivity.
    + rewrite posts_app, MonitorFacts.notify_calls_app, map_app, Hp2, Hp1.
      destruct (discord_webhook cfg) as [|c hook]; [reflexivity|].
      rewrite map_app, map_map. reflexivity.
Qed.

(** *** Invariants of the loops *)

Section Invariant.
Variable cfg : Config.
Variable env : Environment.
Variable I : State -> Prop.
Hypothesis I_print : forall line st, I st -> I (print line st).
Hypothesis I_send :
  forall w message flag st ok st',
    send_discord_notification cfg w message flag st = Return (ok, st') ->
    I st -> I st'.
Hypothesis I_visit :
  forall t u st st',
    In u (urls cfg) ->
    monitor_url cfg (env t) u st = Return st' -> I st -> I st'.

Lemma for_urls_keeps us : forall t st st',
  incl us (urls cfg) ->
  for_urls cfg env t us st = Return st' -> I st -> I st'.
Proof.
  induction us as [|u us IH]; intros t st st' Hincl; simpl.
  - intros H; inversion H; subst; auto.
  - destruct (monitor_url cfg (env t) u st) as [st1|e] eqn:Hm; [|discriminate].
    intros H Hst. eapply IH; [|exact H|].
    + intros x Hx; apply Hincl; simpl; auto.
    + eapply I_visit; [|exact Hm|exact Hst]. apply Hincl; simpl; auto.
Qed.

Lemma run_cycles_keeps n : forall t cycle st st',
  run_cycles cfg env t cycle n st = Return st' -> I st -> I st'.
Proof.
  induction n as [|n IH]; intros t cycle st st'; simpl.
  - intros H; inversion H; subst; auto.
  - unfold run_cycle.
    destruct (for_urls cfg env t (urls cfg) (print (LogCycle (S cycle)) st))
      as [st1|e] eqn:Hf; [|discriminate].
    cbv zeta.
    destruct (time_sleep (check_interval cfg)) as [[]|e]; [|discriminate].
    intros H Hst. eapply IH; [exact H|].
    apply I_print. eapply for_urls_keeps; [|exact Hf|].
    + apply incl_refl.
    + apply I_print; exact Hst.
Qed.

(** what the steps of the monitor keep, a run keeps *)
Lemma monitor_keeps n st st' :
  monitor cfg env n st = Return st' -> I st -> I st'.
Proof.
  unfold monitor. case_eq (urls cfg); [intros Hu | intros u0 us Hu].
  - intros H; inversion H; subst. apply I_print.
  - rewrite <- Hu.
    destruct (negb (PyStr.eqb (discord_webhook cfg) [])).
    + match goal with
      | |- context [send_discord_notification cfg ?w ?m ?f ?s] =>
          destruct (send_discord_notification cfg w m f s)
            as [[ok st1]|e] eqn:Hs; [|discriminate]
      end.
      intros H Hst. eapply run_cycles_keeps; [exact H|].
      eapply I_send; [exact Hs|]. apply I_print; exact Hst.
    + intros H Hst. eapply run_cycles_keeps; [exact H|].
      apply I_print; exact Hst.
Qed.

Hypothesis I_runs :
  forall t u st, In u (urls cfg) -> I st ->
                 exists st', monitor_url cfg (env t) u st = Return st'.
Hypothesis I_sleep : time_sleep (check_interval cfg) = Return tt.

Lemma for_urls_runs us : forall t st,
  incl us (urls cfg) -> I st ->
  exists st', for_urls cfg env t us st = Return st'.
Proof.
  induction us as [|u us IH]; intros t st Hincl Hst; simpl.
  - eexists; reflexivity.
  - destruct (I_runs t u st) as (st1 & Hm);
      [apply Hincl; simpl; auto | exact Hst |].
    rewrite Hm. apply IH.
    + intros x Hx; apply Hincl; simpl; auto.
    + eapply I_visit; [|exact Hm|exact Hst]. apply Hincl; simpl; auto.
Qed.

Lemma run_cycles_runs n : forall t cycle st,
  I st -> exists st', run_cycles cfg env t cycle n st = Return st'.
Proof.
  induction n as [|n IH]; intros t cycle st Hst; simpl.
  - eexists; reflexivity.
  - unfold run_cycle.
    destruct (for_urls_runs (urls cfg) t (print (LogCycle (S cycle)) st))
      as (st1 & Hf); [apply incl_refl | apply I_print; exact Hst |].
    rewrite Hf. cbv zeta. rewrite I_sleep. apply IH. apply I_print.
    eapply for_urls_keeps; [|exact Hf|]; [apply incl_refl|].
    apply I_print; exact Hst.
Qed.

(** under an invariant that lets every visit return, and with an
    interval that [time.sleep] takes, the monitor runs for as many turns
    as one likes *)
Lemma monitor_runs n st :
  I st -> exists st', monitor cfg env n st = Return st'.
Proof.
  intros Hst. unfold monitor.
  case_eq (urls cfg); [intros Hu | intros u0 us Hu].
  - eexists; reflexivity.
  - rewrite <- Hu.
    destruct (negb (PyStr.eqb (discord_webhook cfg) [])).
    + match goal with
      | |- context [send_discord_notification cfg ?w ?m ?f ?s] =>
          destruct (MonitorFacts.send_discord_notification_frame cfg w m f s)
            as (ok & st1 & Hs & _)
      end.
      rewrite Hs. apply run_cycles_runs.
      eapply I_send; [exact Hs|]. apply I_print; exact Hst.
    + apply run_cycles_runs. apply I_print; exact Hst.
Qed.
End Invariant.

(** *** What the visits keep *)

Lemma dict_set_positive d u o :
  positive_prices d -> 0 < price o -> positive_prices (dict_set d u o).
Proof.
  unfold positive_prices. rewrite !Forall_forall.
  intros Hd Ho [k v] Hin. simpl.
  apply DictFacts.dict_set_in in Hin. destruct Hin as [->|Hin]; [exact Ho|].
  apply (Hd _ Hin).
Qed.

(** a visit keeps the prices above 0, and the store writable: what it
    saved, it could write *)
Lemma monitor_url_sound cfg w u st st' :
  monitor_url cfg w u st = Return st' ->
  positive_prices (previous_prices st) /\ writable (previous_prices st) = true ->
  positive_prices (previous_prices st')
  /\ writable (previous_prices st') = true.
Proof.
  intros Hm [Hpos Hw].
  destruct (monitor_url_effect _ _ _ _ _ Hm)
    as [[E _]|(p & name & Hobs & Hw' & E & _)].
  - rewrite E. auto.
  - split; [|exact Hw']. rewrite E.
    apply dict_set_positive; [exact Hpos|]. simpl.
    pose proof (MonitorFacts.observes_in_range _ _ _ _ Hobs). lia.
Qed.

Lemma dict_set_keyed d u o :
  keyed_by_url d -> url o = u -> keyed_by_url (dict_set d u o).
Proof.
  unfold keyed_by_url. intros Hd Ho.
  induction Hd as [|[k v] d Hk Hd IH]; simpl.
  - repeat constructor. exact Ho.
  - destruct (PyStr.eqb k u) eqn:E.
    + apply PyStrFacts.eqb_eq in E.
      constructor; [simpl; congruence | exact Hd].
    + constructor; [exact Hk | exact IH].
Qed.

Lemma file_mirrors_saved d file :
  store_unique d ->
  writable d = true ->
  file = Some (Text (json_dump d)) ->
  file_mirrors_store {| previous_prices := d; price_data_file := file;
                        out := [] |}.
Proof.
  intros Hu Hw ->. unfold file_mirrors_store, initial_state. simpl.
  rewrite (DumpFacts.json_loads_dump _ Hu (DumpFacts.writable_short_prices _ Hw)).
  simpl.
  pose proof (DumpFacts.as_store_value d) as Hs.
  unfold as_store, store_value in Hs. rewrite Hs. reflexivity.
Qed.

Lemma initial_state_mirrors file st0 :
  initial_state file = Some st0 -> file_mirrors_store st0.
Proof.
  unfold file_mirrors_store. intros H. pose proof H as H'.
  unfold initial_state in H'.
  destruct (load_previous_prices file) as [v|]; [|discriminate].
  destruct (as_store v) as [d|]; [|discriminate].
  inversion H'; subst; simpl. exact H.
Qed.

Lemma monitor_url_mirrors cfg w u st st' :
  monitor_url cfg w u st = Return st' ->
  store_unique (previous_prices st) /\ file_mirrors_store st ->
  store_unique (previous_prices st') /\ file_mirrors_store st'.
Proof.
  intros Hm [Hu Hf].
  destruct (monitor_url_effect _ _ _ _ _ Hm)
    as [[Ep Ef]|(p & name & Hobs & Hw & Ep & Ef)].
  - split; [rewrite Ep; exact Hu|].
    unfold file_mirrors_store in *. rewrite Ep, Ef. exact Hf.
  - assert (Hu' : store_unique (previous_prices st')).
    { rewrite Ep. apply DictFacts.dict_set_nodup. exact Hu. }
    split; [exact Hu'|].
    pose proof (file_mirrors_saved _ _ Hu' Hw Ef) as H.
    unfold file_mirrors_store in *. simpl in H. exact H.
Qed.

Lemma extract_product_name_nonempty soup : extract_product_name soup <> [].
Proof.
  unfold extract_product_name.
  destruct (first_name (name_lookups soup)) as [text|] eqn:Hf; [|discriminate].
  apply NameFacts.first_name_some in Hf. destruct Hf as (Hlen & _).
  intros ->. simpl in Hlen. lia.
Qed.

End LoopFacts.

(** *** Visits and notifications *)

Module CountFacts.
Import Extractor Monitor LoopFacts.

(** a visit calls [notify] once at most *)
Lemma monitor_url_notifies_once cfg w u st st' :
  monitor_url cfg w u st = Return st' ->
  exists new,
    out st' = out st ++ new /\ (length (notify_calls new) <= 1)%nat.
Proof.
  intros Hm. pose proof (monitor_url_visit cfg w u st) as Hv.
  rewrite Hm in Hv. inversion Hv; subst; simpl;
    try (eexists [_]; split; [reflexivity | simpl; lia]).
  exists new. split; [reflexivity|].
  match goal with Hn : notify_calls new = _ |- _ => rewrite Hn end.
  simpl. lia.
Qed.

Lemma dict_contains_app_other {V} (d : list (pystr * V)) u o other :
  other <> u -> dict_contains (d ++ [(u, o)]) other = dict_contains d other.
Proof.
  intros Hne. induction d as [|[k v] d IH]; simpl.
  - destruct (PyStr.eqb u other) eqn:E; [|reflexivity].
    apply PyStrFacts.eqb_eq in E. congruence.
  - rewrite IH. reflexivity.
Qed.

(** a visit of a url that the store does not have: silent when it
    returns, and what it raises comes from writing the file *)
Lemma monitor_url_new cfg w u st :
  dict_contains (previous_prices st) u = false ->
  match monitor_url cfg w u st with
  | Return st' =>
      notify_calls (out st') = notify_calls (out st)
      /\ posts (out st') = posts (out st)
      /\ (forall other, other <> u ->
            dict_contains (previous_prices st') other
            = dict_contains (previous_prices st) other)
  | Raise e => e = UnicodeEncodeError \/ e = ValueError
  end.
Proof.
  intros Hnew.
  assert (Hnone : forall previous,
             dict_get (previous_prices st) u = Some previous -> False).
  { intros previous Hget.
    assert (Hc : dict_contains (previous_prices st) u = true)
      by (apply DictFacts.dict_contains_get; eauto).
    congruence. }
  destruct (monitor_url_visit cfg w u st)
    as [line Hf | p name Hobs Hc Hw
        | p name e Hobs Hc Hw He
        | p name previous Hobs Hget Hp
        | p name previous Hobs Hget Hz
        | p name previous Hobs Hget Hne Hnz Hs
        | p name previous new Hobs Hget Hne Hnz Hw Hn Hposts
        | p name previous e Hobs Hget Hne Hnz Hw He];
    try (destruct (Hnone _ Hget)).
  - simpl. rewrite MonitorFacts.notify_calls_app, posts_app. simpl.
    rewrite !app_nil_r. auto.
  - simpl. rewrite MonitorFacts.notify_calls_app, posts_app. simpl.
    rewrite !app_nil_r. split; [reflexivity|]. split; [reflexivity|].
    intros other Hne. apply dict_contains_app_other. exact Hne.
  - exact He.
Qed.

End CountFacts.

(** *** The monitor, one visit *)

(** X1: when the check of a url succeeds and the store has no entry for
    the url, the loop body prints one line, appends the observation to
    the store and calls [save_prices]; it calls no [notify] and posts
    nothing.  When the store so extended can be written, the loop body
    returns and the file holds that store; when it cannot, the loop body
    raises what [save_prices] raises, [UnicodeEncodeError] or
    [ValueError]. *)
Theorem first_observation_stored_silently
        (cfg : Monitor.Config) (w : Monitor.World) (u : pystr)
        (st : Monitor.State) (p : Z) (name : pystr) :
  observes w u p name ->
  dict_contains (Monitor.previous_prices st) u = false ->
  let store :=
    Monitor.previous_prices st ++ [(u, observation_of w u p name)] in
  let line := Monitor.Printed (Monitor.LogFirstSeen (firstn 40 name) p) in
  Monitor.monitor_url cfg w u st
  = Monitor.save_prices
      {| Monitor.previous_prices := store;
         Monitor.price_data_file := Monitor.price_data_file st;
         Monitor.out := Monitor.out st ++ [line] |}
  /\ (writable store = true ->
      exists st',
        Monitor.monitor_url cfg w u st = Monitor.Return st'
        /\ Monitor.previous_prices st' = store
        /\ Monitor.price_data_file st'
           = Some (Monitor.Text (Monitor.json_dump store))
        /\ Monitor.out st' = Monitor.out st ++ [line]
        /\ notify_calls (Monitor.out st') = notify_calls (Monitor.out st)
        /\ posts (Monitor.out st') = posts (Monitor.out st))
  /\ (writable store = false ->
      exists e,
        Monitor.monitor_url cfg w u st = Monitor.Raise e
        /\ (e = Monitor.UnicodeEncodeError \/ e = Monitor.ValueError)).
Proof.
  intros Hobs Hnew store line.
  pose proof (LoopFacts.monitor_url_first cfg w u st p name Hobs Hnew) as Hm.
  fold store in Hm. fold line in Hm.
  split; [exact Hm|]. split.
  - intros Hw. rewrite Hm, SaveFacts.save_prices_writable by exact Hw.
    eexists. split; [reflexivity|]. simpl. repeat split.
    + rewrite MonitorFacts.notify_calls_app. simpl. apply app_nil_r.
    + rewrite LoopFacts.posts_app. simpl. apply app_nil_r.
  - intros Hw. rewrite Hm. apply SaveFacts.save_prices_unwritable. exact Hw.
Qed.

Lemma first_observation_stored_silently_witness :
  exists st',
    Monitor.monitor_url cfg (always_800 0%nat) url_y (state_with 1000)
    = Monitor.Return st'
    /\ Monitor.previous_prices st'
       = [(url_x, stored 1000);
          (url_y, observation_of (always_800 0%nat) url_y 800
                                 (lit "Camera X100"))]
    /\ notify_calls (Monitor.out st') = [].
Proof.
  destruct (first_observation_stored_silently
              cfg (always_800 0%nat) url_y (state_with 1000) 800
              (lit "Camera X100"))
    as (_ & Hsaved & _).
  - eexists; repeat split; try reflexivity. simpl; lia.
  - reflexivity.
  - destruct (Hsaved eq_refl) as (st' & Hm & Hp & _ & _ & Hn & _).
    exists st'. split; [exact Hm|]. split; [exact Hp | exact Hn].
Defined.

(** X2: a stored price of 0 stops the monitor.  A history file can hold
    one, since nothing checks the prices it gives.  When the check of
    the url succeeds, the loop body raises [ZeroDivisionError] at line
    159, before any call of [notify]; the loop over the urls raises with
    it, and the urls that follow are not visited. *)
Theorem stored_price_zero_stops_the_loop
        (cfg : Monitor.Config) (env : Monitor.Environment) (t : nat)
        (before : list pystr) (u : pystr) (after : list pystr)
        (st st1 : Monitor.State) (p : Z) (name : pystr)
        (previous : Monitor.Observation) :
  Monitor.for_urls cfg env t before st = Monitor.Return st1 ->
  observes (env (t + length before)%nat) u p name ->
  dict_get (Monitor.previous_prices st1) u = Some previous ->
  Monitor.price previous = 0 ->
  Monitor.monitor_url cfg (env (t + length before)%nat) u st1
  = Monitor.Raise Monitor.ZeroDivisionError
  /\ Monitor.for_urls cfg env t (before ++ u :: after) st
     = Monitor.Raise Monitor.ZeroDivisionError.
Proof.
  intros Hbefore Hobs Hget Hz.
  assert (Hm : Monitor.monitor_url cfg (env (t + length before)%nat) u st1
               = Monitor.Raise Monitor.ZeroDivisionError).
  { rewrite (MonitorFacts.monitor_url_observes _ _ _ _ _ st1 Hobs).
    apply (MonitorFacts.compare_and_store_zero _ _ _ _ _ previous);
      [exact Hget | exact Hz |].
    exact (MonitorFacts.observes_in_range _ _ _ _ Hobs). }
  split; [exact Hm|].
  rewrite MonitorFacts.for_urls_app, Hbefore. simpl. rewrite Hm. reflexivity.
Qed.

Lemma stored_price_zero_stops_the_loop_witness :
  Monitor.initial_state (Monitor.price_data_file (state_with 0))
  = Some (state_with 0)
  /\ Monitor.for_urls cfg always_800 0 ([] ++ url_x :: [url_y]) (state_with 0)
     = Monitor.Raise Monitor.ZeroDivisionError.
Proof.
  split; [vm_compute; reflexivity|].
  apply (stored_price_zero_stops_the_loop
           cfg always_800 0 [] url_x [url_y] (state_with 0) (state_with 0)
           800 (lit "Camera X100") (stored 0)).
  - reflexivity.
  - eexists; repeat split; try reflexivity. simpl; lia.
  - reflexivity.
  - reflexivity.
Defined.

(** X3: a visit of one url leaves the entries of all other urls as they
    are. *)
Theorem visit_leaves_other_urls
        (cfg : Monitor.Config) (w : Monitor.World) (u other : pystr)
        (st st' : Monitor.State) :
  Monitor.monitor_url cfg w u st = Monitor.Return st' ->
  other <> u ->
  dict_get (Monitor.previous_prices st') other
  = dict_get (Monitor.previous_prices st) other.
Proof.
  intros Hm Hne.
  destruct (LoadFacts.monitor_url_store _ _ _ _ _ Hm)
    as [E|(p & name & _ & E)]; rewrite E; [reflexivity|].
  apply LoopFacts.dict_get_set_other. exact Hne.
Qed.

Lemma visit_leaves_other_urls_witness :
  exists st',
    Monitor.monitor_url cfg (always_800 0%nat) url_y (state_with 1000)
    = Monitor.Return st'
    /\ dict_get (Monitor.previous_prices st') url_x = Some (stored 1000).
Proof.
  destruct (Monitor.monitor_url cfg (always_800 0%nat) url_y (state_with 1000))
    as [st'|e] eqn:Hm; [|vm_compute in Hm; discriminate].
  exists st'. split; [reflexivity|].
  rewrite (visit_leaves_other_urls _ _ _ url_x _ _ Hm);
    [reflexivity | discriminate].
Defined.

(** X4: after a visit whose check succeeded, the store holds the observed
    price for the url, whichever way the loop body took; a second visit
    that finds the same page changes nothing and prints the line of an
    unchanged price. *)
Theorem second_visit_is_silent
        (cfg : Monitor.Config) (w : Monitor.World) (u : pystr)
        (st st1 : Monitor.State) (p : Z) (name : pystr) :
  observes w u p name ->
  Monitor.monitor_url cfg w u st = Monitor.Return st1 ->
  (exists entry,
      dict_get (Monitor.previous_prices st1) u = Some entry
      /\ Monitor.price entry = p)
  /\ Monitor.monitor_url cfg w u st1
     = Monitor.Return
         (Monitor.print (Monitor.LogUnchanged (firstn 40 name) p) st1).
Proof.
  intros Hobs Hm.
  assert (Hentry : exists entry,
             dict_get (Monitor.previous_prices st1) u = Some entry
             /\ Monitor.price entry = p).
  { pose proof (LoopFacts.monitor_url_visit cfg w u st) as Hv.
    rewrite Hm in Hv.
    inversion Hv as [line Hf E | p' name' Hobs' Hc _ E
                     | | p' name' previous Hobs' Hget Hp E
                     | | | p' name' previous new Hobs' Hget _ _ _ _ _ E |].
    - destruct (LoopFacts.observes_not_fails _ _ _ _ Hobs Hf).
    - destruct (LoopFacts.observes_unique _ _ _ _ _ _ Hobs Hobs') as [<- <-].
      simpl. rewrite (LoopFacts.dict_get_app_fresh _ _ _ Hc). eauto.
    - destruct (LoopFacts.observes_unique _ _ _ _ _ _ Hobs Hobs') as [<- <-].
      simpl. eauto.
    - destruct (LoopFacts.observes_unique _ _ _ _ _ _ Hobs Hobs') as [<- <-].
      simpl. rewrite DictFacts.dict_get_set_same. eauto. }
  split; [exact Hentry|].
  destruct Hentry as (entry & Hget & Hp).
  rewrite (MonitorFacts.monitor_url_observes _ _ _ _ _ st1 Hobs).
  apply (MonitorFacts.compare_and_store_unchanged _ _ _ _ _ entry);
    assumption.
Qed.

Lemma second_visit_is_silent_witness :
  exists st1,
    Monitor.monitor_url cfg (always_800 0%nat) url_x (state_with 1000)
    = Monitor.Return st1
    /\ Monitor.monitor_url cfg (always_800 0%nat) url_x st1
       = Monitor.Return
           (Monitor.print (Monitor.LogUnchanged (lit "Camera X100") 800) st1).
Proof.
  destruct (Monitor.monitor_url cfg (always_800 0%nat) url_x (state_with 1000))
    as [st1|e] eqn:Hm; [|vm_compute in Hm; discriminate].
  exists st1. split; [reflexivity|].
  apply (second_visit_is_silent cfg (always_800 0%nat) url_x
           (state_with 1000) st1 800 (lit "Camera X100")).
  - eexists; repeat split; try reflexivity. simpl; lia.
  - exact Hm.
Defined.

(** X5: a price that goes from [a] to [b] and back to [a] is notified
    both times: where the store can be written after each of the two
    visits, they call [notify] twice, with the flags of the two changes,
    and the store ends with the last observation.  Nothing holds a
    notification back. *)
Theorem price_flip_notifies_each_time
        (cfg : Monitor.Config) (w1 w2 : Monitor.World) (u : pystr)
        (st : Monitor.State) (a b : Z) (name1 name2 : pystr)
        (previous : Monitor.Observation) :
  dict_get (Monitor.previous_prices st) u = Some previous ->
  Monitor.price previous = a ->
  observes w1 u b name1 ->
  observes w2 u a name2 ->
  a <> b ->
  writable (dict_set (Monitor.previous_prices st) u
                     (observation_of w1 u b name1)) = true ->
  writable (dict_set (Monitor.previous_prices st) u
                     (observation_of w2 u a name2)) = true ->
  exists st1 st2,
    Monitor.monitor_url cfg w1 u st = Monitor.Return st1
    /\ Monitor.monitor_url cfg w2 u st1 = Monitor.Return st2
    /\ notify_calls (Monitor.out st2)
       = notify_calls (Monitor.out st)
         ++ [(change_message name1 a b u, b - a <? 0);
             (change_message name2 b a u, a - b <? 0)]
    /\ dict_get (Monitor.previous_prices st2) u
       = Some (observation_of w2 u a name2).
Proof.
  intros Hget Ha Hobs1 Hobs2 Hne Hw1 Hw2.
  pose proof (MonitorFacts.observes_in_range _ _ _ _ Hobs1) as Hb.
  pose proof (MonitorFacts.observes_in_range _ _ _ _ Hobs2) as Ha'.
  destruct (LoopFacts.monitor_url_changed cfg w1 u st b name1 previous
              Hobs1 Hget) as (new1 & Hm1 & Hn1);
    [ lia | lia | apply JsonFacts.short_enough_small; lia
      | apply JsonFacts.short_enough_small; lia | exact Hw1 | ].
  set (st1 := {| Monitor.previous_prices :=
                   dict_set (Monitor.previous_prices st) u
                            (observation_of w1 u b name1);
                 Monitor.price_data_file :=
                   Some (Monitor.Text (Monitor.json_dump
                     (dict_set (Monitor.previous_prices st) u
                               (observation_of w1 u b name1))));
                 Monitor.out := Monitor.out st ++ new1 |}) in *.
  destruct (LoopFacts.monitor_url_changed cfg w2 u st1 a name2
              (observation_of w1 u b name1) Hobs2)
    as (new2 & Hm2 & Hn2);
    [ apply DictFacts.dict_get_set_same | simpl; lia | simpl; lia
      | apply JsonFacts.short_enough_small; simpl; lia
      | apply JsonFacts.short_enough_small; simpl; lia
      | simpl; rewrite LoopFacts.dict_set_twice; exact Hw2 | ].
  eexists st1, _. split; [exact Hm1|]. split; [exact Hm2|].
  simpl. rewrite !MonitorFacts.notify_calls_app, Hn1, Hn2, Ha.
  rewrite <- app_assoc. simpl.
  split; [reflexivity|]. apply DictFacts.dict_get_set_same.
Qed.

Lemma price_flip_notifies_each_time_witness :
  exists st2,
    Monitor.for_urls cfg first_800_then_1980 0 [url_x; url_x]
                     (state_with 1980)
    = Monitor.Return st2
    /\ length (notify_calls (Monitor.out st2)) = 2%nat.
Proof.
  destruct (price_flip_notifies_each_time
              cfg (first_800_then_1980 0%nat) (first_800_then_1980 1%nat)
              url_x (state_with 1980) 1980 800 (lit "Camera X100")
              Extractor.unknown_name (stored 1980) eq_refl eq_refl)
    as (st1 & st2 & H1 & H2 & Hn & _).
  - eexists; repeat split; try reflexivity. simpl; lia.
  - eexists; repeat split; try reflexivity. simpl; lia.
  - lia.
  - reflexivity.
  - reflexivity.
  - exists st2. split.
    + cbn [Monitor.for_urls]. rewrite H1, H2. reflexivity.
    + rewrite Hn. reflexivity.
Defined.

(** X6: [check_price] raises nothing.  When it returns an observation,
    the observation carries the url asked for, a price of the range
    [100, 10000000], a name that is not empty and the time of the clock,
    and nothing was printed; when it returns nothing, the check failed
    and one line was printed.  The store and the file are not touched
    either way. *)
Theorem check_price_result
        (w : Monitor.World) (u : pystr) (st : Monitor.State) :
  exists result st',
    Monitor.check_price w u st = Monitor.Return (result, st')
    /\ Monitor.previous_prices st' = Monitor.previous_prices st
    /\ Monitor.price_data_file st' = Monitor.price_data_file st
    /\ match result with
       | Some observation =>
           st' = st
           /\ Monitor.url observation = u
           /\ 100 <= Monitor.price observation <= 10000000
           /\ Monitor.product_name observation <> []
           /\ Monitor.timestamp observation = Monitor.now w
           /\ ~ check_fails w u
       | None =>
           check_fails w u
           /\ exists line, st' = Monitor.print line st
       end.
Proof.
  destruct (LoopFacts.check_price_cases w u st)
    as [(Hf & line & Hc)|(p & name & Hobs & Hc)].
  - exists None, (Monitor.print line st). split; [exact Hc|].
    split; [reflexivity|]. split; [reflexivity|].
    split; [exact Hf | eauto].
  - exists (Some (observation_of w u p name)), st. split; [exact Hc|].
    split; [reflexivity|]. split; [reflexivity|].
    split; [reflexivity|]. split; [reflexivity|].
    split; [exact (MonitorFacts.observes_in_range _ _ _ _ Hobs)|].
    split.
    + destruct Hobs as (r & _ & _ & _ & <-). simpl.
      apply LoopFacts.extract_product_name_nonempty.
    + split; [reflexivity|].
      exact (LoopFacts.observes_not_fails _ _ _ _ Hobs).
Qed.

(** *** The monitor, a whole run *)

(** X7: what keeps the monitor running.  Started on a store that can be
    written and whose prices are above 0, with urls that hold no
    surrogate, with pages and a clock that give none, and with an
    interval that [time.sleep] takes, the monitor raises nothing, however
    many turns of the loop are observed and whatever the prices and the
    webhook do; the store stays writable, with prices above 0. *)
Theorem monitor_runs_on_sound_history
        (cfg : Monitor.Config) (env : Monitor.Environment) (n : nat)
        (st : Monitor.State) :
  positive_prices (Monitor.previous_prices st) ->
  writable (Monitor.previous_prices st) = true ->
  Forall (fun u => Monitor.encodable u = true) (Monitor.urls cfg) ->
  (forall t, encodable_world (env t)) ->
  sleepable (Monitor.check_interval cfg) ->
  exists st',
    Monitor.monitor cfg env n st = Monitor.Return st'
    /\ positive_prices (Monitor.previous_prices st')
    /\ writable (Monitor.previous_prices st') = true.
Proof.
  intros Hpos Hw Hurls Hworld Hsleep.
  set (I := fun s : Monitor.State =>
              positive_prices (Monitor.previous_prices s)
              /\ writable (Monitor.previous_prices s) = true).
  assert (I_print : forall line s, I s -> I (Monitor.print line s))
    by (intros line s H; exact H).
  assert (I_send : forall w message flag s ok s',
             Monitor.send_discord_notification cfg w message flag s
             = Monitor.Return (ok, s') -> I s -> I s').
  { intros w message flag s ok s' H Hs. unfold I.
    destruct (LoopFacts.send_keeps_store _ _ _ _ _ _ _ H) as (E & _).
    rewrite E. exact Hs. }
  assert (I_visit : forall t u s s',
             In u (Monitor.urls cfg) ->
             Monitor.monitor_url cfg (env t) u s = Monitor.Return s' ->
             I s -> I s').
  { intros t u s s' _ H Hs. eapply LoopFacts.monitor_url_sound; eauto. }
  assert (I_runs : forall t u s,
             In u (Monitor.urls cfg) -> I s ->
             exists s', Monitor.monitor_url cfg (env t) u s = Monitor.Return s').
  { intros t u s Hin [Hs1 Hs2]. apply LoopFacts.monitor_url_returns; auto.
    rewrite Forall_forall in Hurls. apply Hurls. exact Hin. }
  pose proof (MonitorFacts.time_sleep_sleepable _ Hsleep) as I_sleep.
  assert (H0 : I st) by (split; assumption).
  destruct (LoopFacts.monitor_runs cfg env I I_print I_send I_visit I_runs
              I_sleep n st H0) as (st' & Hm).
  exists st'. split; [exact Hm|].
  exact (LoopFacts.monitor_keeps cfg env I I_print I_send I_visit
           n st st' Hm H0).
Qed.

Lemma monitor_runs_on_sound_history_witness :
  exists st',
    Monitor.monitor cfg first_800_then_1980 2 (state_with 1000)
    = Monitor.Return st'.
Proof.
  destruct (monitor_runs_on_sound_history
              cfg first_800_then_1980 2 (state_with 1000)) as (st' & H & _).
  - repeat constructor.
  - reflexivity.
  - repeat constructor.
  - intros t. split; [destruct t; reflexivity|].
    intros u p name (r & Hg & _ & _ & Hn).
    destruct t; simpl in Hg; inversion Hg; subst; reflexivity.
  - unfold sleepable. simpl. lia.
  - exists st'. exact H.
Defined.

(** X8: when every check fails (the pages cannot be fetched, answer with
    an error status or show no price) and the interval is one that
    [time.sleep] takes, the monitor runs on without raising, and the
    store, the file and the calls of [notify] stay as they were. *)
Theorem unreachable_pages_change_nothing
        (cfg : Monitor.Config) (env : Monitor.Environment) (n : nat)
        (st : Monitor.State) :
  (forall t u, In u (Monitor.urls cfg) -> check_fails (env t) u) ->
  sleepable (Monitor.check_interval cfg) ->
  exists st',
    Monitor.monitor cfg env n st = Monitor.Return st'
    /\ Monitor.previous_prices st' = Monitor.previous_prices st
    /\ Monitor.price_data_file st' = Monitor.price_data_file st
    /\ notify_calls (Monitor.out st') = notify_calls (Monitor.out st).
Proof.
  intros Hdown Hsleep.
  set (I := fun s : Monitor.State =>
              Monitor.previous_prices s = Monitor.previous_prices st
              /\ Monitor.price_data_file s = Monitor.price_data_file st
              /\ notify_calls (Monitor.out s) = notify_calls (Monitor.out st)).
  assert (I_print : forall line s, I s -> I (Monitor.print line s)).
  { intros line s (H1 & H2 & H3). unfold I. simpl.
    rewrite MonitorFacts.notify_calls_app, H3. simpl. rewrite app_nil_r. auto. }
  assert (I_send : forall w message flag s ok s',
             Monitor.send_discord_notification cfg w message flag s
             = Monitor.Return (ok, s') -> I s -> I s').
  { intros w message flag s ok s' H (H1 & H2 & H3). unfold I.
    destruct (LoopFacts.send_keeps_store _ _ _ _ _ _ _ H) as (E1 & E2 & E3).
    rewrite E1, E2, E3. auto. }
  assert (Hvisit : forall t u s, In u (Monitor.urls cfg) ->
             exists line, Monitor.monitor_url cfg (env t) u s
                          = Monitor.Return (Monitor.print line s)).
  { intros t u s Hin.
    destruct (MonitorFacts.check_price_fails _ _ s (Hdown t u Hin))
      as (line & Hc).
    exists line. unfold Monitor.monitor_url. rewrite Hc. reflexivity. }
  assert (I_visit : forall t u s s',
             In u (Monitor.urls cfg) ->
             Monitor.monitor_url cfg (env t) u s = Monitor.Return s' ->
             I s -> I s').
  { intros t u s s' Hin H Hs. destruct (Hvisit t u s Hin) as (line & E).
    rewrite E in H. inversion H; subst. apply I_print. exact Hs. }
  assert (I_runs : forall t u s,
             In u (Monitor.urls cfg) -> I s ->
             exists s', Monitor.monitor_url cfg (env t) u s = Monitor.Return s').
  { intros t u s Hin _. destruct (Hvisit t u s Hin) as (line & E). eauto. }
  pose proof (MonitorFacts.time_sleep_sleepable _ Hsleep) as I_sleep.
  assert (H0 : I st) by (unfold I; auto).
  destruct (LoopFacts.monitor_runs cfg env I I_print I_send I_visit I_runs
              I_sleep n st H0) as (st' & Hm).
  exists st'. split; [exact Hm|].
  exact (LoopFacts.monitor_keeps cfg env I I_print I_send I_visit
           n st st' Hm H0).
Qed.

Lemma unreachable_pages_change_nothing_witness :
  exists st',
    Monitor.monitor cfg (fun _ => world_down) 3 (state_with 1000)
    = Monitor.Return st'
    /\ Monitor.previous_prices st' = [(url_x, stored 1000)].
Proof.
  destruct (unreachable_pages_change_nothing cfg (fun _ => world_down) 3
              (state_with 1000)) as (st' & Hm & Hp & _).
  - intros t u _.
    apply (fetch_raises _ _ (Monitor.RequestException (lit "timed out"))).
    reflexivity.
  - unfold sleepable. simpl. lia.
  - exists st'. split; [exact Hm | exact Hp].
Defined.

(** An interval below 0, as [CHECK_INTERVAL=-1] gives, stops the monitor
    at the end of the first turn: the url is visited and stored, then
    [time.sleep] raises [ValueError]. *)
Example negative_interval_raises :
  Monitor.for_urls cfg_negative always_800 0 [url_x] state_empty
  = Monitor.save_prices
      {| Monitor.previous_prices :=
           [(url_x, observation_of (always_800 0%nat) url_x 800
                                   (lit "Camera X100"))];
         Monitor.price_data_file := None;
         Monitor.out :=
           [Monitor.Printed (Monitor.LogFirstSeen (lit "Camera X100") 800)] |}
  /\ Monitor.run_cycle cfg_negative always_800 0 1 state_empty
     = Monitor.Raise Monitor.ValueError
  /\ Monitor.monitor cfg_negative always_800 1 state_empty
     = Monitor.Raise Monitor.ValueError.
Proof. repeat split; vm_compute; reflexivity. Qed.

(** X9: the history file follows the store.  In every state of a run
    that started on the file, between two visits as after any number of
    turns of the loop, a process started anew on the file as it stands
    finds the very store the running process has. *)
Theorem history_file_mirrors_store
        (cfg : Monitor.Config) (file : option Monitor.FileContent)
        (st0 : Monitor.State) :
  Monitor.initial_state file = Some st0 ->
  (forall st, reaches cfg st0 st -> file_mirrors_store st)
  /\ (forall env n st,
         Monitor.monitor cfg env n st0 = Monitor.Return st ->
         file_mirrors_store st).
Proof.
  intros Hinit.
  pose proof (LoadFacts.initial_state_unique _ _ Hinit) as Hu0.
  pose proof (LoopFacts.initial_state_mirrors _ _ Hinit) as Hf0.
  split.
  - intros st Hr.
    assert (H : store_unique (Monitor.previous_prices st)
                /\ file_mirrors_store st); [|exact (proj2 H)].
    induction Hr as [|st w u st' _ IH Hm]; [auto|].
    eapply LoopFacts.monitor_url_mirrors; eauto.
  - intros env n st Hm.
    set (I := fun s : Monitor.State =>
                store_unique (Monitor.previous_prices s)
                /\ file_mirrors_store s).
    assert (H : I st); [|exact (proj2 H)].
    apply (LoopFacts.monitor_keeps cfg env I) with (n := n) (st := st0).
    + intros line s Hs. exact Hs.
    + intros w message flag s ok s' H [Hs1 Hs2]. unfold I.
      destruct (LoopFacts.send_keeps_store _ _ _ _ _ _ _ H) as (E1 & E2 & _).
      unfold file_mirrors_store in *. rewrite E1, E2. auto.
    + intros t u s s' _ H Hs. eapply LoopFacts.monitor_url_mirrors; eauto.
    + exact Hm.
    + split; assumption.
Qed.

Lemma history_file_mirrors_store_witness :
  exists st,
    Monitor.monitor cfg always_800 1 state_empty = Monitor.Return st
    /\ map fst (Monitor.previous_prices st) = [url_x; url_y]
    /\ file_mirrors_store st.
Proof.
  destruct (Monitor.monitor cfg always_800 1 state_empty)
    as [st|e] eqn:Hm; [|vm_compute in Hm; discriminate].
  exists st. split; [reflexivity|]. split.
  - vm_compute in Hm. inversion Hm. reflexivity.
  - apply (proj2 (history_file_mirrors_store cfg None state_empty eq_refl)
             _ _ _ Hm).
Defined.

(** X10: the urls of the store are never dropped and keep their order:
    after any number of visits the urls are those the store had, followed
    by the urls seen for the first time since. *)
Theorem stored_urls_are_kept
        (cfg : Monitor.Config) (st0 st : Monitor.State) :
  reaches cfg st0 st ->
  exists added,
    map fst (Monitor.previous_prices st)
    = map fst (Monitor.previous_prices st0) ++ added.
Proof.
  induction 1 as [|st w u st' _ (added & IH) Hm].
  - exists []. rewrite app_nil_r. reflexivity.
  - destruct (LoadFacts.monitor_url_store _ _ _ _ _ Hm)
      as [E|(p & name & _ & E)]; rewrite E.
    + exists added. exact IH.
    + rewrite DictFacts.dict_set_keys.
      destruct (dict_contains (Monitor.previous_prices st) u).
      * exists added. exact IH.
      * exists (added ++ [u]). rewrite IH, app_assoc. reflexivity.
Qed.

Lemma stored_urls_are_kept_witness :
  exists st added,
    Monitor.monitor_url cfg (always_800 0%nat) url_y (state_with 1000)
    = Monitor.Return st
    /\ map fst (Monitor.previous_prices st) = [url_x] ++ added.
Proof.
  destruct (Monitor.monitor_url cfg (always_800 0%nat) url_y (state_with 1000))
    as [st|e] eqn:Hm; [|vm_compute in Hm; discriminate].
  destruct (stored_urls_are_kept cfg (state_with 1000) st) as (added & H).
  - eapply reaches_url; [apply reaches_start | exact Hm].
  - exists st, added. split; [reflexivity | exact H].
Defined.

(** X11: when every entry of the store carries under [url] the url it is
    kept under, this stays so after any number of visits: what the
    monitor stores for a url is an observation of that url. *)
Theorem entries_carry_their_url
        (cfg : Monitor.Config) (st0 st : Monitor.State) :
  reaches cfg st0 st ->
  keyed_by_url (Monitor.previous_prices st0) ->
  keyed_by_url (Monitor.previous_prices st).
Proof.
  induction 1 as [|st w u st' _ IH Hm]; intros H0; [exact H0|].
  destruct (LoadFacts.monitor_url_store _ _ _ _ _ Hm)
    as [E|(p & name & _ & E)]; rewrite E; [auto|].
  apply LoopFacts.dict_set_keyed; [auto | reflexivity].
Qed.

Lemma entries_carry_their_url_witness :
  exists st,
    Monitor.monitor_url cfg (always_800 0%nat) url_y (state_with 1000)
    = Monitor.Return st
    /\ keyed_by_url (Monitor.previous_prices st).
Proof.
  destruct (Monitor.monitor_url cfg (always_800 0%nat) url_y (state_with 1000))
    as [st|e] eqn:Hm; [|vm_compute in Hm; discriminate].
  exists st. split; [reflexivity|].
  apply (entries_carry_their_url cfg (state_with 1000) st).
  - eapply reaches_url; [apply reaches_start | exact Hm].
  - repeat constructor.
Defined.

(** X12: the loop over the urls calls [notify] once per url at most: a
    pass over a list of [n] urls notifies [n] times or less. *)
Theorem at_most_one_notification_per_url
        (cfg : Monitor.Config) (env : Monitor.Environment) (t : nat)
        (us : list pystr) (st st' : Monitor.State) :
  Monitor.for_urls cfg env t us st = Monitor.Return st' ->
  exists new,
    Monitor.out st' = Monitor.out st ++ new
    /\ (length (notify_calls new) <= length us)%nat.
Proof.
  revert t st. induction us as [|u us IH]; intros t st; simpl.
  - intros H; inversion H; subst. exists []. rewrite app_nil_r. auto.
  - destruct (Monitor.monitor_url cfg (env t) u st) as [st1|e] eqn:Hm;
      [|discriminate].
    intros H. destruct (IH _ _ H) as (new2 & Ho2 & Hl2).
    destruct (CountFacts.monitor_url_notifies_once _ _ _ _ _ Hm)
      as (new1 & Ho1 & Hl1).
    exists (new1 ++ new2). split.
    + rewrite Ho2, Ho1, app_assoc. reflexivity.
    + rewrite MonitorFacts.notify_calls_app, length_app. lia.
Qed.

Lemma at_most_one_notification_per_url_witness :
  exists st' new,
    Monitor.for_urls cfg always_800 0 [url_x; url_y] (state_with 1000)
    = Monitor.Return st'
    /\ Monitor.out st' = Monitor.out (state_with 1000) ++ new
    /\ (length (notify_calls new) <= 2)%nat.
Proof.
  destruct (Monitor.for_urls cfg always_800 0 [url_x; url_y]
                             (state_with 1000)) as [st'|e] eqn:Hf;
    [|vm_compute in Hf; discriminate].
  destruct (at_most_one_notification_per_url
              cfg always_800 0 [url_x; url_y] (state_with 1000) st' Hf)
    as (new & Ho & Hl).
  exists st', new. split; [reflexivity|]. split; [exact Ho | exact Hl].
Defined.

(** X13: a pass over urls that the store does not have, each listed once,
    is silent: whatever the pages show, no [notify] is called and nothing
    is posted.  It raises only what [save_prices] raises on a store that
    cannot be written, [UnicodeEncodeError] or [ValueError].  Such is the
    first pass of a monitor that starts without history. *)
Theorem first_pass_is_silent
        (cfg : Monitor.Config) (env : Monitor.Environment) (t : nat)
        (us : list pystr) (st : Monitor.State) :
  NoDup us ->
  (forall u, In u us -> dict_contains (Monitor.previous_prices st) u = false) ->
  match Monitor.for_urls cfg env t us st with
  | Monitor.Return st' =>
      notify_calls (Monitor.out st') = notify_calls (Monitor.out st)
      /\ posts (Monitor.out st') = posts (Monitor.out st)
  | Monitor.Raise e =>
      e = Monitor.UnicodeEncodeError \/ e = Monitor.ValueError
  end.
Proof.
  intros Hnd. revert t st.
  induction Hnd as [|u us Hnotin Hnd IH]; intros t st Hnew; simpl.
  - auto.
  - pose proof (CountFacts.monitor_url_new cfg (env t) u st
                  (Hnew u (or_introl eq_refl))) as Hm.
    destruct (Monitor.monitor_url cfg (env t) u st) as [st1|e];
      [|exact Hm].
    destruct Hm as (Hn1 & Hp1 & Hkeep).
    specialize (IH (S t) st1).
    destruct (Monitor.for_urls cfg env (S t) us st1) as [st'|e].
    + destruct IH as [Hn Hp].
      * intros x Hx. rewrite Hkeep; [apply Hnew; simpl; auto|].
        intros ->. contradiction.
      * rewrite Hn, Hp. auto.
    + apply IH. intros x Hx. rewrite Hkeep; [apply Hnew; simpl; auto|].
      intros ->. contradiction.
Qed.

Lemma first_pass_is_silent_witness :
  exists st',
    Monitor.for_urls cfg always_800 0 [url_x; url_y] state_empty
    = Monitor.Return st'
    /\ notify_calls (Monitor.out st') = []
    /\ posts (Monitor.out st') = [].
Proof.
  assert (H : match Monitor.for_urls cfg always_800 0 [url_x; url_y]
                                     state_empty with
              | Monitor.Return st' =>
                  notify_calls (Monitor.out st')
                  = notify_calls (Monitor.out state_empty)
                  /\ posts (Monitor.out st') = posts (Monitor.out state_empty)
              | Monitor.Raise e =>
                  e = Monitor.UnicodeEncodeError \/ e = Monitor.ValueError
              end).
  { apply (first_pass_is_silent cfg always_800 0 [url_x; url_y] state_empty).
    - repeat constructor; simpl; intros H;
        repeat (destruct H as [H|H]; [discriminate|]); exact H.
    - intros u _. reflexivity. }
  destruct (Monitor.for_urls cfg always_800 0 [url_x; url_y] state_empty)
    as [st'|e] eqn:Hf; [|vm_compute in Hf; discriminate].
  exists st'. split; [reflexivity | exact H].
Defined.

(** *** Requests to the webhook *)

(** X14: without a webhook the monitor posts nothing, at the start as in
    the loop, whatever the prices do. *)
Theorem nothing_posted_without_webhook
        (cfg : Monitor.Config) (env : Monitor.Environment) (n : nat)
        (st st' : Monitor.State) :
  Monitor.discord_webhook cfg = [] ->
  Monitor.monitor cfg env n st = Monitor.Return st' ->
  posts (Monitor.out st') = posts (Monitor.out st).
Proof.
  intros Hhook Hm.
  set (I := fun s : Monitor.State =>
              posts (Monitor.out s) = posts (Monitor.out st)).
  apply (LoopFacts.monitor_keeps cfg env I) with (n := n) (st := st).
  - intros line s Hs. unfold I. simpl. rewrite LoopFacts.posts_app, Hs.
    apply app_nil_r.
  - intros w message flag s ok s' H Hs. unfold I.
    destruct (LoopFacts.send_discord_notification_out cfg w message flag s)
      as (ok' & new & E & _ & Hp).
    rewrite E in H. inversion H; subst. simpl.
    rewrite LoopFacts.posts_app, Hp, Hhook, Hs. apply app_nil_r.
  - intros t u s s' _ H Hs. unfold I.
    destruct (LoopFacts.monitor_url_events _ _ _ _ _ H) as (new & E & Hp).
    rewrite E, LoopFacts.posts_app, Hp, Hhook, Hs. apply app_nil_r.
  - exact Hm.
  - reflexivity.
Qed.

Lemma nothing_posted_without_webhook_witness :
  exists st',
    Monitor.monitor cfg_silent always_800 1 (state_with 1000)
    = Monitor.Return st'
    /\ notify_calls (Monitor.out st') <> []
    /\ posts (Monitor.out st') = [].
Proof.
  destruct (Monitor.monitor cfg_silent always_800 1 (state_with 1000))
    as [st'|e] eqn:Hm; [|vm_compute in Hm; discriminate].
  exists st'. split; [reflexivity|]. split.
  - vm_compute in Hm. inversion Hm. discriminate.
  - apply (nothing_posted_without_webhook cfg_silent _ 1 (state_with 1000) st'
             eq_refl Hm).
Defined.

(** X15: with a webhook, the loop over the urls posts one request for
    each call of [notify] and no other: the requests go to the webhook in
    the order of the calls, each with the message of its call, in green
    under the title of a drop when the flag is set, in orange under the
    other title when it is not. *)
Theorem every_notification_is_posted_once
        (cfg : Monitor.Config) (env : Monitor.Environment) (t : nat)
        (us : list pystr) (st st' : Monitor.State) :
  Monitor.discord_webhook cfg <> [] ->
  Monitor.for_urls cfg env t us st = Monitor.Return st' ->
  exists new,
    Monitor.out st' = Monitor.out st ++ new
    /\ map shown (posts new)
       = map (posted_for (Monitor.discord_webhook cfg)) (notify_calls new).
Proof.
  intros Hhook Hf.
  destruct (LoopFacts.for_urls_events _ _ _ _ _ _ Hf) as (new & Ho & Hp).
  exists new. split; [exact Ho|]. rewrite Hp.
  destruct (Monitor.discord_webhook cfg); [congruence | reflexivity].
Qed.

Lemma every_notification_is_posted_once_witness :
  exists st' new,
    Monitor.for_urls cfg always_800 0 [url_x; url_y] (state_with 1000)
    = Monitor.Return st'
    /\ Monitor.out st' = Monitor.out (state_with 1000) ++ new
    /\ length (posts new) = 1%nat
    /\ map shown (posts new)
       = map (posted_for (Monitor.discord_webhook cfg)) (notify_calls new).
Proof.
  destruct (Monitor.for_urls cfg always_800 0 [url_x; url_y]
                             (state_with 1000)) as [st'|e] eqn:Hf;
    [|vm_compute in Hf; discriminate].
  destruct (every_notification_is_posted_once
              cfg always_800 0 [url_x; url_y] (state_with 1000) st')
    as (new & Ho & Hp).
  - discriminate.
  - exact Hf.
  - exists st', new. split; [reflexivity|]. split; [exact Ho|].
    split; [|exact Hp].
    vm_compute in Hf. inversion Hf; subst st'. simpl in Ho.
    inversion Ho. reflexivity.
Defined.

(** *** The names *)

Module CleanFacts.
Import Re ReFacts Extractor.

Lemma sub_empty_from_forallb (p : Z -> bool) m s : forall skip,
  forallb p s = true -> forallb p (sub_empty_from m skip s) = true.
Proof.
  induction s as [|c s IH]; intros skip; simpl; [reflexivity|].
  intros H. apply andb_true_iff in H. destruct H as [Hc Hs].
  destruct skip as [|n]; [|apply IH; exact Hs].
  destruct (m (c :: s)) as [rest|]; [apply IH; exact Hs|].
  simpl. rewrite Hc. apply IH; exact Hs.
Qed.

Lemma sub_empty_from_all m s : forall skip,
  (length s <= skip)%nat -> sub_empty_from m skip s = [].
Proof.
  induction s as [|c s IH]; intros skip; simpl; [reflexivity|].
  intros H. destruct skip as [|n]; [lia|]. apply IH. lia.
Qed.

(** where the pattern matches nowhere, [re.sub] returns the text *)
Lemma sub_empty_none m s :
  (forall a b, s = a ++ b -> m b = None) -> sub_empty m s = s.
Proof.
  unfold sub_empty. induction s as [|c s IH]; [reflexivity|].
  intros H. cbn [sub_empty_from]. rewrite (H [] (c :: s) eq_refl).
  rewrite IH; [reflexivity|].
  intros a b E. apply (H (c :: a) b). rewrite E. reflexivity.
Qed.

Lemma forallb_suffix (p : Z -> bool) a b :
  forallb p (a ++ b) = true -> forallb p b = true.
Proof. rewrite forallb_app. intros H. apply andb_true_iff in H. tauto. Qed.

Lemma one_line_tail c s : one_line (c :: s) = true -> one_line s = true.
Proof. unfold one_line. simpl. intros H. apply andb_true_iff in H. tauto. Qed.

Lemma one_line_drop_while p s :
  one_line s = true -> one_line (drop_while p s) = true.
Proof.
  induction s as [|c s IH]; simpl; [reflexivity|].
  intros H. destruct (p c); [|exact H].
  apply IH. eapply one_line_tail; exact H.
Qed.

Lemma one_line_skipn n s : one_line s = true -> one_line (skipn n s) = true.
Proof.
  revert s; induction n as [|n IH]; intros s; simpl; [auto|].
  destruct s as [|c s]; [auto|]. intros H.
  apply IH. eapply one_line_tail; exact H.
Qed.

Lemma dollar_cons {R} (k : pystr -> option R) c s :
  (c =? 10) = false -> dollar k (c :: s) = None.
Proof.
  intros H. unfold dollar.
  destruct c as [|q|q]; try reflexivity.
  do 4 (destruct q as [q|q|]; try reflexivity). discriminate.
Qed.

(** on one line, [.*$] takes the rest of the text *)
Lemma star_dot_dollar {R} (k : pystr -> option R) s :
  one_line s = true -> star dot (dollar k) s = k [].
Proof.
  unfold one_line. induction s as [|c s IH]; simpl; [reflexivity|].
  intros H. apply andb_true_iff in H. destruct H as [Hc Hs].
  rewrite Hc, (IH Hs).
  destruct (k []) as [r|] eqn:E; [reflexivity|].
  apply dollar_cons. unfold dot in Hc. apply negb_true_iff in Hc. exact Hc.
Qed.

(** **** The bar *)

Lemma bar_suffix_one_line c s :
  one_line s = true ->
  bar_suffix (c :: s) = if bar c then Some [] else None.
Proof.
  intros H. unfold bar_suffix. cbn [chr].
  destruct (bar c); [|reflexivity].
  apply star_dot_dollar. exact H.
Qed.

Lemma sub_bar_one_line s :
  one_line s = true -> sub_empty bar_suffix s = before_bar s.
Proof.
  unfold sub_empty, before_bar. induction s as [|c s IH]; [reflexivity|].
  intros H. pose proof (one_line_tail _ _ H) as Hs.
  cbn [sub_empty_from take_while].
  rewrite (bar_suffix_one_line c s Hs).
  destruct (bar c); cbn [negb].
  - apply sub_empty_from_all. simpl. lia.
  - rewrite (IH Hs). reflexivity.
Qed.

Lemma take_while_forallb (p : Z -> bool) s : forallb p (take_while p s) = true.
Proof.
  induction s as [|c s IH]; simpl; [reflexivity|].
  destruct (p c) eqn:E; simpl; [rewrite E; exact IH | reflexivity].
Qed.

Lemma one_line_before_bar s :
  one_line s = true -> one_line (before_bar s) = true.
Proof.
  unfold before_bar, one_line. intros H.
  rewrite <- (take_drop_while (fun c => negb (bar c)) s) in H.
  rewrite forallb_app in H. apply andb_true_iff in H. tauto.
Qed.

Lemma bar_suffix_none s :
  forallb no_separator s = true -> bar_suffix s = None.
Proof.
  destruct s as [|c s]; [reflexivity|]. simpl. unfold no_separator at 1.
  intros H. apply andb_true_iff in H. destruct H as [H _].
  apply andb_true_iff in H. destruct H as [H _].
  apply negb_true_iff in H. unfold bar_suffix. cbn [chr]. rewrite H.
  reflexivity.
Qed.

(** **** The site name *)

Lemma space_not_hyphen c : isspace c = true -> (c =? 45) = false.
Proof.
  intros H. destruct (c =? 45) eqn:E; [|reflexivity].
  apply Z.eqb_eq in E. subst c. discriminate.
Qed.

(** under [re.I] a character that has one case matches itself only *)
Lemma eq_ignorecase_kana x c :
  122 < x -> eq_ignorecase x c = (c =? x).
Proof.
  intros H. unfold eq_ignorecase.
  replace (x <=? 122) with false by (symmetry; apply Z.leb_gt; lia).
  replace (x =? 105) with false by (symmetry; apply Z.eqb_neq; lia).
  replace (x =? 115) with false by (symmetry; apply Z.eqb_neq; lia).
  replace (x =? 107) with false by (symmetry; apply Z.eqb_neq; lia).
  rewrite andb_false_r. simpl. rewrite !orb_false_r. reflexivity.
Qed.

Lemma literal_site_name {R} (k : pystr -> option R) s :
  literal eq_ignorecase site_name k s
  = if starts_with site_name s then k (skipn 3 s) else None.
Proof.
  unfold site_name, starts_with.
  destruct s as [|c1 [|c2 [|c3 s]]];
    cbn [literal chr length firstn PyStr.eqb skipn];
    rewrite ?eq_ignorecase_kana by lia;
    repeat match goal with
           | |- context [?c =? ?n] => destruct (c =? n)
           end; reflexivity.
Qed.

Lemma starts_with_site_space c t :
  isspace c = true -> starts_with site_name (c :: t) = false.
Proof.
  intros H. unfold starts_with, site_name. cbn [length firstn PyStr.eqb].
  destruct (c =? 12494) eqn:E; [|reflexivity].
  apply Z.eqb_eq in E. subst c. discriminate.
Qed.

(** the pattern of line 73 as a test at one place of the text: the
    repetitions of white space have nothing to give back *)
Lemma site_suffix_eq s :
  site_suffix s =
  match drop_while isspace s with
  | c :: after =>
      if (c =? 45) && starts_with site_name (drop_while isspace after)
      then star dot (dollar (fun rest => Some rest))
                (skipn 3 (drop_while isspace after))
      else None
  | [] => None
  end.
Proof.
  unfold site_suffix.
  rewrite star_no_retreat
    by (intros c t Hc; cbn [chr]; rewrite (space_not_hyphen c Hc); reflexivity).
  destruct (drop_while isspace s) as [|c after]; [reflexivity|].
  cbn [chr]. destruct (c =? 45); [|reflexivity]. cbn [andb].
  rewrite star_no_retreat.
  - apply literal_site_name.
  - intros x t Hx. rewrite literal_site_name.
    rewrite (starts_with_site_space x t Hx). reflexivity.
Qed.

Lemma site_suffix_one_line s :
  one_line s = true ->
  site_suffix s = if site_mark s then Some [] else None.
Proof.
  intros H. rewrite site_suffix_eq. unfold site_mark.
  pose proof (one_line_drop_while isspace s H) as H1.
  destruct (drop_while isspace s) as [|c after]; [reflexivity|].
  destruct ((c =? 45) && starts_with site_name (drop_while isspace after));
    [|reflexivity].
  apply star_dot_dollar. apply one_line_skipn. apply one_line_drop_while.
  eapply one_line_tail; exact H1.
Qed.

Lemma sub_site_one_line s :
  one_line s = true -> sub_empty site_suffix s = before_site s.
Proof.
  unfold sub_empty. induction s as [|c s IH]; [reflexivity|].
  intros H. cbn [sub_empty_from before_site].
  rewrite (site_suffix_one_line _ H).
  destruct (site_mark (c :: s)).
  - apply sub_empty_from_all. simpl. lia.
  - rewrite IH; [reflexivity|]. eapply one_line_tail; exact H.
Qed.

Lemma site_suffix_none s :
  forallb no_separator s = true -> site_suffix s = None.
Proof.
  intros H. rewrite site_suffix_eq.
  rewrite <- (take_drop_while isspace s) in H. apply forallb_suffix in H.
  destruct (drop_while isspace s) as [|c after]; [reflexivity|].
  simpl in H. unfold no_separator at 1 in H.
  apply andb_true_iff in H. destruct H as [H _].
  apply andb_true_iff in H. destruct H as [_ H].
  apply negb_true_iff in H. rewrite H. reflexivity.
Qed.

(** **** The cleaning *)

Lemma clean_name_one_line e :
  one_line (strip (get_text e)) = true ->
  clean_name e = strip (before_site (before_bar (strip (get_text e)))).
Proof.
  intros H. unfold clean_name.
  rewrite (sub_bar_one_line _ H).
  rewrite sub_site_one_line; [reflexivity|].
  apply one_line_before_bar. exact H.
Qed.

Lemma clean_name_no_bar e :
  one_line (strip (get_text e)) = true -> no_bar (clean_name e) = true.
Proof.
  intros H. unfold clean_name, no_bar.
  apply StripFacts.strip_forallb. apply sub_empty_from_forallb.
  rewrite (sub_bar_one_line _ H). apply take_while_forallb.
Qed.

Lemma clean_name_plain e :
  forallb no_separator (strip (get_text e)) = true ->
  clean_name e = strip (get_text e).
Proof.
  intros H. unfold clean_name.
  rewrite (sub_empty_none bar_suffix).
  - rewrite (sub_empty_none site_suffix).
    + apply StripFacts.strip_fixed. apply StripFacts.strip_no_outer_space.
    + intros a b E. apply site_suffix_none. rewrite E in H.
      eapply forallb_suffix; exact H.
  - intros a b E. apply bar_suffix_none. rewrite E in H.
    eapply forallb_suffix; exact H.
Qed.

(** **** Texts of several lines *)

Lemma drop_while_head (p : Z -> bool) s c t :
  drop_while p s = c :: t -> p c = false.
Proof.
  induction s as [|x s IH]; simpl; [discriminate|].
  destruct (p x) eqn:E; [exact IH|].
  intros H. inversion H; subst. exact E.
Qed.

Lemma not_dot c : dot c = false -> c = 10.
Proof.
  unfold dot. intros H. apply negb_false_iff in H.
  apply Z.eqb_eq in H. exact H.
Qed.

(** [.*$] takes the rest of the line, and matches when the text ends
    there, a last newline aside *)
Lemma star_dot_dollar_lines {R} (k : pystr -> option R) s :
  star dot (dollar k) s
  = if line_ends s then k (drop_while dot s) else None.
Proof.
  rewrite star_no_retreat.
  - unfold line_ends.
    destruct (drop_while dot s) as [|c [|c' t]] eqn:E; [reflexivity| |].
    + apply drop_while_head, not_dot in E. subst c. reflexivity.
    + apply drop_while_head, not_dot in E. subst c. reflexivity.
  - intros c t Hc. apply dollar_cons. unfold dot in Hc.
    apply negb_true_iff in Hc. exact Hc.
Qed.

Lemma sub_empty_from_skip m a b :
  sub_empty_from m (length a) (a ++ b) = sub_empty_from m 0 b.
Proof. induction a as [|c a IH]; [reflexivity | exact IH]. Qed.

(** after a match, [re.sub] goes on with the text the match left *)
Lemma sub_empty_from_match m c s pre rest :
  c :: s = pre ++ rest -> pre <> [] ->
  sub_empty_from m (length (c :: s) - length rest - 1) s
  = sub_empty_from m 0 rest.
Proof.
  intros E Hpre. destruct pre as [|x pre]; [congruence|].
  inversion E; subst.
  assert (Hn : (length (x :: pre ++ rest) - length rest - 1 = length pre)%nat)
    by (cbn [length]; rewrite length_app; lia).
  rewrite Hn. apply sub_empty_from_skip.
Qed.

(** what [.*$] leaves is left by [re.sub] too *)
Lemma sub_empty_line_end m s :
  line_ends s = true -> m [10] = None ->
  sub_empty_from m 0 (drop_while dot s) = drop_while dot s.
Proof.
  unfold line_ends. intros H Hm.
  destruct (drop_while dot s) as [|c [|c' t]] eqn:E;
    [reflexivity| |discriminate].
  apply drop_while_head, not_dot in E. subst c.
  cbn [sub_empty_from]. rewrite Hm. reflexivity.
Qed.

Lemma bar_suffix_eq c s :
  bar_suffix (c :: s)
  = if bar c && line_ends s then Some (drop_while dot s) else None.
Proof.
  unfold bar_suffix. cbn [chr]. destruct (bar c); [|reflexivity].
  rewrite star_dot_dollar_lines. reflexivity.
Qed.

Lemma sub_bar s : sub_empty bar_suffix s = cut_at_bar s.
Proof.
  unfold sub_empty. induction s as [|c s IH]; [reflexivity|].
  cbn [sub_empty_from cut_at_bar]. rewrite bar_suffix_eq.
  destruct (bar c && line_ends s) eqn:E.
  - apply andb_true_iff in E. destruct E as [_ E].
    rewrite (sub_empty_from_match _ c s (c :: take_while dot s)
                                  (drop_while dot s)).
    + apply sub_empty_line_end; [exact E | reflexivity].
    + simpl. rewrite take_drop_while. reflexivity.
    + discriminate.
  - rewrite IH. reflexivity.
Qed.

Lemma site_suffix_lines s :
  site_suffix s =
  match after_site_mark s with
  | Some rest => if line_ends rest then Some (drop_while dot rest) else None
  | None => None
  end.
Proof.
  rewrite site_suffix_eq. unfold after_site_mark.
  destruct (drop_while isspace s) as [|c after]; [reflexivity|].
  destruct ((c =? 45) && starts_with site_name (drop_while isspace after));
    [|reflexivity].
  apply star_dot_dollar_lines.
Qed.

Lemma after_site_mark_suffix s rest :
  after_site_mark s = Some rest ->
  exists pre, s = pre ++ rest /\ pre <> [].
Proof.
  unfold after_site_mark.
  destruct (drop_while isspace s) as [|c after] eqn:E; [discriminate|].
  destruct ((c =? 45) && starts_with site_name (drop_while isspace after));
    [|discriminate].
  intros H. inversion H; subst. clear H.
  exists (take_while isspace s
          ++ c :: take_while isspace after
          ++ firstn 3 (drop_while isspace after)).
  split.
  - rewrite <- (take_drop_while isspace s) at 1. rewrite E.
    rewrite <- app_assoc. cbn [app]. rewrite <- app_assoc.
    rewrite firstn_skipn, take_drop_while. reflexivity.
  - intros Hnil. apply app_eq_nil in Hnil. destruct Hnil as [_ Hnil].
    discriminate.
Qed.

Lemma sub_site s : sub_empty site_suffix s = cut_at_site s.
Proof.
  unfold sub_empty. induction s as [|c s IH]; [reflexivity|].
  cbn [sub_empty_from cut_at_site]. rewrite site_suffix_lines.
  destruct (after_site_mark (c :: s)) as [rest|] eqn:Ea;
    [|rewrite IH; reflexivity].
  destruct (line_ends rest) eqn:El; [|rewrite IH; reflexivity].
  destruct (after_site_mark_suffix _ _ Ea) as (pre & Epre & Hpre).
  rewrite (sub_empty_from_match _ c s (pre ++ take_while dot rest)
                                (drop_while dot rest)).
  - apply sub_empty_line_end; [exact El | reflexivity].
  - rewrite <- app_assoc, take_drop_while. exact Epre.
  - intros Hnil. apply app_eq_nil in Hnil. destruct Hnil as [Hnil _].
    contradiction.
Qed.

(** lines 71-74 cut the text at the bar and at the site name *)
Lemma clean_name_cleaned e : clean_name e = cleaned (get_text e).
Proof. unfold clean_name, cleaned. rewrite sub_bar, sub_site. reflexivity. Qed.

Lemma cleaned_one_line text :
  one_line (strip text) = true ->
  cleaned text = strip (before_site (before_bar (strip text))).
Proof.
  intros H. unfold cleaned.
  rewrite <- sub_bar, <- sub_site, (sub_bar_one_line _ H).
  rewrite sub_site_one_line; [reflexivity|].
  apply one_line_before_bar. exact H.
Qed.

Lemma first_name_in lookups text :
  first_name lookups = Some text ->
  exists e, In (Some e) lookups /\ text = clean_name e.
Proof.
  intros H. apply NameFacts.first_name_some in H.
  destruct H as (_ & b & e & a & -> & _ & ->).
  exists e. split; [|reflexivity]. apply in_or_app; right; simpl; auto.
Qed.

End CleanFacts.

(** X16: the name that [extract_product_name] returns neither begins nor
    ends with white space. *)
Theorem product_name_has_no_outer_space (soup : BeautifulSoup) :
  no_outer_space (Extractor.extract_product_name soup) = true.
Proof.
  unfold Extractor.extract_product_name.
  destruct (Extractor.first_name (Extractor.name_lookups soup))
    as [text|] eqn:Hf; [|reflexivity].
  apply CleanFacts.first_name_in in Hf. destruct Hf as (e & _ & ->).
  apply StripFacts.strip_no_outer_space.
Qed.

(** X17: for an element whose text, white space at the ends aside, is one
    line, the cleaned name is the text up to its first bar, cut before
    the first place where a hyphen and the site name stand (white space
    before and after the hyphen aside), and trimmed; it holds no bar. *)
Theorem one_line_name_is_cut_at_separators (element : PageElement) :
  one_line (strip (get_text element)) = true ->
  Extractor.clean_name element
  = strip (before_site (before_bar (strip (get_text element))))
  /\ no_bar (Extractor.clean_name element) = true.
Proof.
  intros H. split.
  - apply CleanFacts.clean_name_one_line. exact H.
  - apply CleanFacts.clean_name_no_bar. exact H.
Qed.

Lemma one_line_name_is_cut_at_separators_witness :
  Extractor.clean_name (NavigableString title_text)
  = strip (before_site (before_bar (strip title_text)))
  /\ Extractor.clean_name (NavigableString title_text) = lit "Camera X100".
Proof.
  split; [|reflexivity].
  apply (one_line_name_is_cut_at_separators (NavigableString title_text)).
  reflexivity.
Defined.

(** X18: when the document has an [h1] whose text, trimmed, holds neither
    a bar nor a hyphen and has more than three characters, that trimmed
    text is the name, on one line or on several. *)
Theorem heading_without_separator_is_the_name
        (soup : BeautifulSoup) (heading : PageElement) :
  find soup (Some (lit "h1")) [] = Some heading ->
  forallb no_separator (strip (get_text heading)) = true ->
  (3 < length (strip (get_text heading)))%nat ->
  Extractor.extract_product_name soup = strip (get_text heading).
Proof.
  intros Hfind Hplain Hlen.
  unfold Extractor.extract_product_name, Extractor.name_lookups.
  rewrite Hfind. cbn [Extractor.first_name].
  rewrite (CleanFacts.clean_name_plain _ Hplain).
  destruct (PyStr.eqb (strip (get_text heading)) []) eqn:E.
  - apply PyStrFacts.eqb_eq in E. rewrite E in Hlen. simpl in Hlen. lia.
  - cbn [negb andb].
    assert (Hlt : (3 <? Z.of_nat (length (strip (get_text heading)))) = true)
      by (apply Z.ltb_lt; lia).
    rewrite Hlt. reflexivity.
Qed.

Lemma heading_without_separator_is_the_name_witness :
  Extractor.extract_product_name page_heading = lit "Camera X100".
Proof.
  apply (heading_without_separator_is_the_name
           page_heading
           (Tag (lit "h1") [] [ NavigableString (lit "  Camera X100 ") ])).
  - reflexivity.
  - reflexivity.
  - simpl. lia.
Defined.

(** *** The amounts of the flattened text *)

Module FallbackFacts.
Import Re ReFacts Extractor ExtractorFacts.

Lemma unit_no_space c : isspace c = true -> yen_unit c = false.
Proof.
  intros H. unfold yen_unit. destruct (c =? 20870) eqn:E; [|reflexivity].
  apply Z.eqb_eq in E. subst c. discriminate.
Qed.

Lemma unit_no_digit c : digit_or_comma c = true -> yen_unit c = false.
Proof.
  intros H. unfold yen_unit. destruct (c =? 20870) eqn:E; [|reflexivity].
  apply Z.eqb_eq in E. subst c. discriminate.
Qed.

Lemma digit_no_space c : digit_or_comma c = true -> isspace c = false.
Proof.
  intros H. destruct (isspace c) eqn:E; [|reflexivity].
  apply space_no_digit in E. congruence.
Qed.

(** the rest of the pattern after the digits: the repetition of white
    space has nothing to give back *)
Lemma unit_after s1 s2 :
  star isspace (chr yen_unit (fun s3 => Some (captured s1 s2, s3))) s2
  = match drop_while isspace s2 with
    | c :: t3 => if yen_unit c then Some (captured s1 s2, t3) else None
    | [] => None
    end.
Proof.
  rewrite star_no_retreat
    by (intros c t Hc; cbn [chr]; rewrite (unit_no_space c Hc); reflexivity).
  destruct (drop_while isspace s2) as [|c t3]; reflexivity.
Qed.

Lemma atleast3_digits s1 :
  atleast3 digit_or_comma
    (fun s2 => star isspace
                 (chr yen_unit (fun s3 => Some (captured s1 s2, s3))) s2) s1
  = amount_at s1.
Proof.
  unfold atleast3, amount_at.
  destruct s1 as [|c1 t]; [reflexivity|]. cbn [chr take_while].
  destruct (digit_or_comma c1) eqn:H1; [|reflexivity].
  destruct t as [|c2 t]; [reflexivity|]. cbn [chr take_while].
  destruct (digit_or_comma c2) eqn:H2; [|reflexivity].
  destruct t as [|c3 t]; [reflexivity|]. cbn [chr take_while].
  destruct (digit_or_comma c3) eqn:H3; [|reflexivity].
  rewrite star_no_retreat.
  - rewrite unit_after.
    assert (Hlen : (3 <=? Z.of_nat (length (c1 :: c2 :: c3
                      :: take_while digit_or_comma t))) = true)
      by (apply Z.leb_le; simpl length; lia).
    rewrite Hlen.
    assert (Hd : drop_while digit_or_comma (c1 :: c2 :: c3 :: t)
                 = drop_while digit_or_comma t)
      by (cbn [drop_while]; rewrite H1, H2, H3; reflexivity).
    rewrite Hd.
    assert (Hc : captured (c1 :: c2 :: c3 :: t) (drop_while digit_or_comma t)
                 = c1 :: c2 :: c3 :: take_while digit_or_comma t).
    { rewrite <- Hd, captured_take_while. cbn [take_while].
      rewrite H1, H2, H3. reflexivity. }
    rewrite Hc. reflexivity.
  - intros c u Hc. rewrite unit_after. cbn [drop_while].
    rewrite (digit_no_space c Hc), (unit_no_digit c Hc). reflexivity.
Qed.

Lemma amount_at_space c t : isspace c = true -> amount_at (c :: t) = None.
Proof.
  intros H. unfold amount_at. cbn [take_while].
  rewrite (space_no_digit c H). reflexivity.
Qed.

Lemma amount_at_other c t : digit_or_comma c = false -> amount_at (c :: t) = None.
Proof. intros H. unfold amount_at. cbn [take_while]. rewrite H. reflexivity. Qed.

Lemma yen_regex_eq s :
  yen_regex s = opt yen_sign (fun t => amount_at (drop_while isspace t)) s.
Proof.
  unfold yen_regex. apply opt_ext. intros t.
  rewrite (star_ext _ _ _ amount_at t atleast3_digits).
  apply star_no_retreat. intros c u Hc. apply amount_at_space. exact Hc.
Qed.

(** *** [findall] along the text *)

Lemma findall_skip m mid rest :
  findall_from m (length mid) (mid ++ rest) = findall_from m 0 rest.
Proof.
  induction mid as [|c mid IH]; simpl.
  - destruct rest; reflexivity.
  - exact IH.
Qed.

Lemma findall_step m c s :
  findall_from m 0 (c :: s)
  = match m (c :: s) with
    | Some (g, rest) =>
        g :: findall_from m (length (c :: s) - length rest - 1) s
    | None => findall_from m 0 s
    end.
Proof. reflexivity. Qed.

Lemma findall_match m c mid rest g :
  m (c :: mid ++ rest) = Some (g, rest) ->
  findall_from m 0 (c :: mid ++ rest) = g :: findall_from m 0 rest.
Proof.
  intros H. rewrite findall_step, H. f_equal.
  replace (length (c :: mid ++ rest) - length rest - 1)%nat with (length mid)
    by (cbn [length]; rewrite length_app; lia).
  apply findall_skip.
Qed.

(** what [amount_at] leaves is what follows the run, the white space and
    the unit *)
Lemma amount_at_rest t1 run rest :
  amount_at t1 = Some (run, rest) ->
  run = take_while digit_or_comma t1
  /\ exists spaces,
       forallb isspace spaces = true
       /\ t1 = run ++ spaces ++ 20870 :: rest.
Proof.
  unfold amount_at.
  destruct (3 <=? Z.of_nat (length (take_while digit_or_comma t1)));
    [|discriminate].
  destruct (drop_while isspace (drop_while digit_or_comma t1))
    as [|c t3] eqn:E; [discriminate|].
  destruct (yen_unit c) eqn:Hu; [|discriminate].
  intros H; inversion H; subst. split; [reflexivity|].
  exists (take_while isspace (drop_while digit_or_comma t1)). split.
  - clear. induction (drop_while digit_or_comma t1) as [|x l IH]; simpl;
      [reflexivity|].
    destruct (isspace x) eqn:Hx; simpl; [rewrite Hx; exact IH | reflexivity].
  - apply yen_unit_eq in Hu. subst c. rewrite <- E.
    rewrite (take_drop_while isspace), (take_drop_while digit_or_comma).
    reflexivity.
Qed.

(** the amounts of a text that begins outside a run, up to a place
    outside a run *)
Lemma yen_amounts_nondigits pre s :
  forallb (fun c => negb (digit_or_comma c)) pre = true ->
  yen_amounts_from false (pre ++ s) = yen_amounts_from false s.
Proof.
  induction pre as [|c pre IH]; simpl; [reflexivity|].
  intros H. apply andb_true_iff in H. destruct H as [Hc Hp].
  apply negb_true_iff in Hc. rewrite Hc. auto.
Qed.

Lemma yen_amounts_inside s :
  yen_amounts_from true s = yen_amounts_from false (drop_while digit_or_comma s).
Proof.
  induction s as [|c s IH]; simpl; [reflexivity|].
  destruct (digit_or_comma c) eqn:Hc; [exact IH|].
  simpl. rewrite Hc. reflexivity.
Qed.

Lemma spaces_nondigits spaces :
  forallb isspace spaces = true ->
  forallb (fun c => negb (digit_or_comma c)) spaces = true.
Proof.
  apply forallb_impl. intros c Hc. rewrite (space_no_digit c Hc). reflexivity.
Qed.

(** the specification at the start of a run agrees with the match *)
Lemma amount_here_at c t :
  digit_or_comma c = true ->
  yen_amount_here (c :: t)
  = match amount_at (c :: t) with
    | Some (run, _) => Some run
    | None => None
    end.
Proof.
  intros Hc. unfold yen_amount_here, amount_at, unit_follows.
  destruct (3 <=? Z.of_nat (length (take_while digit_or_comma (c :: t))));
    [|reflexivity].
  cbn [andb].
  destruct (drop_while isspace (drop_while digit_or_comma (c :: t)))
    as [|x t3]; [reflexivity|].
  destruct (yen_unit x); reflexivity.
Qed.

Lemma digit_no_yen c : digit_or_comma c = true -> yen_sign c = false.
Proof.
  intros H. destruct (yen_sign c) eqn:E; [|reflexivity].
  apply yen_no_digit in E. congruence.
Qed.

Lemma amount_at_none s :
  (3 <=? Z.of_nat (length (take_while digit_or_comma s)))
  && unit_follows (drop_while digit_or_comma s) = false
  <-> amount_at s = None.
Proof.
  unfold amount_at, unit_follows.
  destruct (3 <=? Z.of_nat (length (take_while digit_or_comma s)));
    cbn [andb]; [|tauto].
  destruct (drop_while isspace (drop_while digit_or_comma s)) as [|c t];
    [tauto|].
  destruct (yen_unit c); split; congruence.
Qed.

(** the match at a digit or a comma *)
Lemma yen_regex_digit c t :
  digit_or_comma c = true -> yen_regex (c :: t) = amount_at (c :: t).
Proof.
  intros Hc. rewrite yen_regex_eq. cbn [opt drop_while].
  rewrite (digit_no_yen c Hc), (digit_no_space c Hc). reflexivity.
Qed.

(** the match at any other character: a yen sign or a white space may
    open a match, whose digits then follow the white space *)
Lemma yen_regex_other c t :
  digit_or_comma c = false ->
  yen_regex (c :: t)
  = if yen_sign c || isspace c then amount_at (drop_while isspace t)
    else None.
Proof.
  intros Hc. rewrite yen_regex_eq. cbn [opt].
  destruct (yen_sign c) eqn:Hy.
  - cbn [orb drop_while]. rewrite (yen_no_space c Hy).
    rewrite (amount_at_other c t Hc).
    destruct (amount_at (drop_while isspace t)); reflexivity.
  - cbn [orb drop_while]. destruct (isspace c); [reflexivity|].
    apply amount_at_other. exact Hc.
Qed.

(** inside a run that is no amount, no match starts *)
Lemma findall_inside_failed s :
  amount_at s = None ->
  findall_from yen_regex 0 s
  = findall_from yen_regex 0 (drop_while digit_or_comma s).
Proof.
  induction s as [|c s IH]; [reflexivity|].
  intros H. cbn [drop_while].
  destruct (digit_or_comma c) eqn:Hc; [|reflexivity].
  rewrite findall_step, (yen_regex_digit c s Hc), H.
  apply IH. apply amount_at_none. apply amount_at_none in H.
  cbn [take_while drop_while] in H. rewrite Hc in H.
  apply andb_false_iff in H. apply andb_false_iff.
  destruct H as [H|H]; [left | right; exact H].
  apply Z.leb_gt in H. apply Z.leb_gt. cbn [length] in H. lia.
Qed.

(** the amounts from the start of a run that is an amount *)
Lemma amounts_at_match t1 run rest :
  amount_at t1 = Some (run, rest) ->
  yen_amounts_from false t1 = run :: yen_amounts_from false rest.
Proof.
  intros H. destruct (amount_at_rest _ _ _ H) as (Hrun & spaces & Hsp & Ht).
  destruct t1 as [|c t]; [discriminate|].
  destruct (digit_or_comma c) eqn:Hc;
    [|rewrite (amount_at_other c t Hc) in H; discriminate].
  cbn [yen_amounts_from]. rewrite Hc, (amount_here_at c t Hc), H.
  f_equal. rewrite yen_amounts_inside.
  assert (Hd : drop_while digit_or_comma t = spaces ++ 20870 :: rest).
  { assert (Hsplit : run ++ drop_while digit_or_comma (c :: t)
                     = run ++ spaces ++ 20870 :: rest).
    { rewrite <- Ht. rewrite Hrun. apply take_drop_while. }
    apply app_inv_head in Hsplit.
    cbn [drop_while] in Hsplit. rewrite Hc in Hsplit. exact Hsplit. }
  rewrite Hd.
  change (spaces ++ 20870 :: rest) with (spaces ++ [20870] ++ rest).
  rewrite app_assoc. apply yen_amounts_nondigits.
  rewrite forallb_app, (spaces_nondigits _ Hsp). reflexivity.
Qed.

Lemma amount_at_shorter t1 run rest :
  amount_at t1 = Some (run, rest) -> (length rest < length t1)%nat.
Proof.
  intros H. destruct (amount_at_rest _ _ _ H) as (_ & spaces & _ & ->).
  rewrite !length_app. simpl. lia.
Qed.

Lemma drop_while_shorter (p : Z -> bool) s :
  (length (drop_while p s) <= length s)%nat.
Proof.
  induction s as [|c s IH]; simpl; [lia|]. destruct (p c); simpl; lia.
Qed.

(** the texts that [re.findall] returns for the pattern of line 56 are the
    yen amounts of the text *)
Lemma findall_yen_amounts n : forall s,
  (length s <= n)%nat ->
  findall_from yen_regex 0 s = yen_amounts_from false s.
Proof.
  induction n as [|n IH]; intros s Hlen.
  - destruct s; [reflexivity | simpl in Hlen; lia].
  - destruct s as [|c s]; [reflexivity|].
    simpl in Hlen.
    destruct (digit_or_comma c) eqn:Hc.
    + destruct (amount_at (c :: s)) as [[run rest]|] eqn:E.
      * rewrite (amounts_at_match _ _ _ E).
        pose proof (amount_at_shorter _ _ _ E) as Hshort.
        destruct (amount_at_rest _ _ _ E) as (Hrun & spaces & Hsp & Ht).
        assert (Hs : exists mid, s = mid ++ rest).
        { cbn [take_while] in Hrun. rewrite Hc in Hrun. rewrite Hrun in Ht.
          injection Ht as Hs.
          exists (take_while digit_or_comma s ++ spaces ++ [20870]).
          rewrite <- !app_assoc. exact Hs. }
        destruct Hs as (mid & Hs).
        rewrite Hs in E |- *.
        rewrite (findall_match yen_regex c mid rest run);
          [|rewrite (yen_regex_digit _ _ Hc); exact E].
        f_equal. apply IH. simpl in Hshort. lia.
      * rewrite findall_step, (yen_regex_digit c s Hc), E.
        cbn [yen_amounts_from]. rewrite Hc, (amount_here_at c s Hc), E.
        rewrite yen_amounts_inside.
        assert (E' : amount_at s = None).
        { apply amount_at_none. apply amount_at_none in E.
          cbn [take_while drop_while] in E. rewrite Hc in E.
          apply andb_false_iff in E. apply andb_false_iff.
          destruct E as [E|E]; [left | right; exact E].
          apply Z.leb_gt in E. apply Z.leb_gt. cbn [length] in E. lia. }
        rewrite (findall_inside_failed s E').
        apply IH. pose proof (drop_while_shorter digit_or_comma s). lia.
    + cbn [yen_amounts_from]. rewrite Hc.
      destruct (yen_regex (c :: s)) as [[run rest]|] eqn:E.
      * rewrite (yen_regex_other c s Hc) in E.
        destruct (yen_sign c || isspace c) eqn:Hopen; [|discriminate].
        pose proof (amounts_at_match _ _ _ E) as Hspec.
        pose proof (amount_at_shorter _ _ _ E) as Hshort.
        pose proof (drop_while_shorter isspace s) as Hdrop.
        destruct (amount_at_rest _ _ _ E) as (Hrun & spaces & Hsp & Ht).
        assert (Hyen : yen_amounts_from false s
                       = yen_amounts_from false (drop_while isspace s)).
        { rewrite <- (take_drop_while isspace s) at 1.
          apply yen_amounts_nondigits. apply spaces_nondigits.
          clear. induction s as [|x l IHl]; simpl; [reflexivity|].
          destruct (isspace x) eqn:Hx; simpl; [rewrite Hx; exact IHl|].
          reflexivity. }
        rewrite Hyen, Hspec.
        assert (Hs : s = (take_while isspace s ++ run ++ spaces ++ [20870])
                         ++ rest).
        { rewrite <- (take_drop_while isspace s) at 1. rewrite Ht.
          rewrite <- !app_assoc. reflexivity. }
        rewrite Hs at 1.
        rewrite (findall_match yen_regex c _ rest run).
        -- f_equal. apply IH. lia.
        -- rewrite <- Hs. rewrite (yen_regex_other c s Hc), Hopen. exact E.
      * rewrite findall_step, E. apply IH. lia.
Qed.

End FallbackFacts.

(** X20: the candidates of the last resort, the texts that [re.findall]
    returns for the pattern of line 56, are the yen amounts of the
    flattened text in their order: the runs of digits and commas, taken
    whole, that have three characters or more and that the yen unit
    follows, white space aside.  A yen sign before a run plays no part.
    When the loop over the patterns returns nothing, [extract_price]
    returns the first of these amounts that is accepted. *)
Theorem fallback_candidates_are_the_yen_amounts :
  (forall text, Re.findall Extractor.yen_regex text = yen_amounts text)
  /\ (forall soup,
        Extractor.scan_patterns soup Extractor.price_patterns = None ->
        Extractor.extract_price soup
        = first_accepted (map accepted (yen_amounts (soup_get_text soup)))).
Proof.
  assert (H : forall text,
             Re.findall Extractor.yen_regex text = yen_amounts text).
  { intros text. unfold Re.findall, yen_amounts.
    apply (FallbackFacts.findall_yen_amounts (length text)). lia. }
  split; [exact H|].
  intros soup Hnone. unfold Extractor.extract_price. rewrite Hnone.
  cbv zeta. rewrite ExtractorFacts.scan_prices_first, H. reflexivity.
Qed.

(** *** The patterns on attributes *)

Module WordFacts.
Import Re ReFacts Extractor.

Lemma literal_sound {R} word (k : pystr -> option R) s r :
  literal eq_ignorecase word k s = Some r ->
  exists m rest,
    s = m ++ rest /\ same_letters word m = true /\ k rest = Some r.
Proof.
  revert s; induction word as [|x word IH]; intros s; cbn [literal].
  - intros H. exists [], s. auto.
  - intros H. apply chr_sound in H. destruct H as (c & t & -> & Hc & H).
    destruct (IH _ H) as (m & rest & -> & Hm & Hk).
    exists (c :: m), rest. simpl. rewrite Hc, Hm. auto.
Qed.

Lemma literal_complete {R} word (k : pystr -> option R) m rest :
  same_letters word m = true ->
  literal eq_ignorecase word k (m ++ rest) = k rest.
Proof.
  revert m; induction word as [|x word IH]; intros [|c m]; simpl;
    try discriminate; [reflexivity|].
  intros H. apply andb_true_iff in H. destruct H as [Hc Hm].
  rewrite Hc. apply IH. exact Hm.
Qed.

Lemma search_sound {R} (m : pystr -> option R) s r :
  search m s = Some r -> exists a b, s = a ++ b /\ m b <> None.
Proof.
  induction s as [|c s IH]; cbn [search].
  - destruct (m []) eqn:E; [|discriminate].
    intros _. exists [], []. split; [reflexivity | congruence].
  - destruct (m (c :: s)) eqn:E.
    + intros _. exists [], (c :: s). split; [reflexivity | congruence].
    + intros H. destruct (IH H) as (a & b & -> & Hb).
      exists (c :: a), b. auto.
Qed.

Lemma search_complete {R} (m : pystr -> option R) a b :
  m b <> None -> search m (a ++ b) <> None.
Proof.
  intros Hb. induction a as [|c a IH].
  - simpl. destruct b as [|x b]; cbn [search];
      destruct (m _) eqn:E; congruence.
  - cbn [app search]. destruct (m (c :: a ++ b)); [discriminate | exact IH].
Qed.

(** a repetition may take nothing *)
Lemma star_complete {R} p (k : pystr -> option R) s :
  k s <> None -> star p k s <> None.
Proof.
  intros H. destruct s as [|c s]; simpl; [exact H|].
  destruct (p c); [|exact H].
  destruct (star p k s); [discriminate | exact H].
Qed.

Lemma contains_holds word v :
  contains_ignorecase word v = true <-> holds_word word v.
Proof.
  unfold contains_ignorecase, holds_word. split.
  - destruct (search _ v) as [r|] eqn:E; [|discriminate]. intros _.
    apply search_sound in E. destruct E as (a & b & -> & Hb).
    destruct (star dot _ b) as [r'|] eqn:Es; [|congruence].
    apply star_sound in Es. destruct Es as (pre & rest & -> & _ & Hl).
    apply literal_sound in Hl. destruct Hl as (m & after & -> & Hm & _).
    exists (a ++ pre), m, after. rewrite <- !app_assoc. auto.
  - intros (before & m & after & -> & Hm).
    destruct (search _ (before ++ m ++ after)) eqn:E; [reflexivity|].
    exfalso. revert E. apply search_complete. apply star_complete.
    rewrite (literal_complete word _ m after Hm).
    apply star_complete. discriminate.
Qed.

End WordFacts.

Module JoinFacts.

Lemma holds_word_app word a v b :
  holds_word word v -> holds_word word (a ++ v ++ b).
Proof.
  intros (x & m & y & -> & Hm). exists (a ++ x), m, (y ++ b).
  rewrite <- !app_assoc. auto.
Qed.

Lemma join_space_in vs v :
  In v vs -> exists a b, join_space vs = a ++ v ++ b.
Proof.
  induction vs as [|x vs IH]; [intros []|].
  intros [->|Hin].
  - destruct vs as [|y vs].
    + exists [], []. simpl. rewrite app_nil_r. reflexivity.
    + exists [], (32 :: join_space (y :: vs)). reflexivity.
  - destruct (IH Hin) as (a & b & E).
    destruct vs as [|y vs]; [destruct Hin|].
    exists (x ++ 32 :: a), b.
    change (join_space (x :: y :: vs)) with (x ++ 32 :: join_space (y :: vs)).
    rewrite E, <- app_assoc. reflexivity.
Qed.

End JoinFacts.

(** X21: the compiled patterns of lines 38, 39 and 68, [.*word.*] under
    [re.I], test that the value holds the word, in whatever case of its
    letters and wherever newlines stand; on an attribute with a list of
    values, as [class] is, the test holds when the values joined by
    spaces hold the word. *)
Theorem class_patterns_test_containment (word : pystr) :
  (forall value,
      Extractor.contains_ignorecase word value = true
      <-> holds_word word value)
  /\ (forall values,
        matches (Some (AttrList values))
                (Pattern (Extractor.contains_ignorecase word)) = true
        <-> holds_word word (join_space values)).
Proof.
  split; [apply WordFacts.contains_holds|].
  intros values. cbn [matches matches_str].
  rewrite orb_true_iff, existsb_exists, WordFacts.contains_holds.
  split; [|tauto].
  intros [(v & Hin & Hv)|H]; [|exact H].
  apply WordFacts.contains_holds in Hv.
  destruct (JoinFacts.join_space_in values v Hin) as (a & b & ->).
  apply JoinFacts.holds_word_app. exact Hv.
Qed.

(** *** The three lookups of the name *)

Module LookupFacts.
Import Extractor.

(** the first element that a test keeps *)
Lemma filter_first (f : PageElement -> bool) l :
  match filter f l with
  | [] => Forall (fun x => f x <> true) l
  | e :: _ =>
      exists before after,
        l = before ++ e :: after
        /\ f e = true /\ Forall (fun x => f x <> true) before
  end.
Proof.
  induction l as [|x l IH]; simpl; [constructor|].
  destruct (f x) eqn:E.
  - exists [], l. auto.
  - destruct (filter f l) as [|e rest].
    + constructor; [congruence | exact IH].
    + destruct IH as (before & after & -> & He & Hb).
      exists (x :: before), after. repeat split; auto.
      constructor; [congruence | exact Hb].
Qed.

Lemma find_first_such (P : PageElement -> Prop) soup name attrs :
  (forall e, search_tag name attrs e = true <-> P e) ->
  first_such P soup (find soup name attrs).
Proof.
  intros HP. unfold find, find_all, first_such.
  pose proof (filter_first (search_tag name attrs) (soup_descendants soup))
    as H.
  destruct (filter (search_tag name attrs) (soup_descendants soup))
    as [|e rest].
  - eapply Forall_impl; [|exact H]. intros x Hx Hp. apply Hx, HP, Hp.
  - destruct H as (before & after & E & He & Hb).
    exists before, after. split; [exact E|]. split; [apply HP, He|].
    eapply Forall_impl; [|exact Hb]. intros x Hx Hp. apply Hx, HP, Hp.
Qed.

Lemma search_tag_named name e :
  search_tag (Some name) [] e = true <-> tag_named name e = true.
Proof.
  destruct e as [s|s|kind s|n attrs cs]; simpl; try tauto.
  rewrite andb_true_r. tauto.
Qed.

Lemma matches_class_holds word value :
  matches value (Pattern (contains_ignorecase word)) = true
  <-> match value with
      | Some (AttrStr v) => holds_word word v
      | Some (AttrList vs) => holds_word word (join_space vs)
      | None => False
      end.
Proof.
  destruct value as [[v|vs]|]; cbn [matches matches_str].
  - apply WordFacts.contains_holds.
  - rewrite orb_true_iff, existsb_exists, WordFacts.contains_holds.
    split; [|tauto].
    intros [(v & Hin & Hv)|H]; [|exact H].
    apply WordFacts.contains_holds in Hv.
    destruct (JoinFacts.join_space_in vs v Hin) as (a & b & ->).
    apply JoinFacts.holds_word_app. exact Hv.
  - split; [discriminate | tauto].
Qed.

Lemma search_tag_class name word e :
  search_tag (Some name)
             [ (lit "class", Pattern (contains_ignorecase word)) ] e = true
  <-> tag_named name e = true /\ class_holds word e.
Proof.
  destruct e as [s|s|kind s|n attrs cs]; simpl;
    try (split; [discriminate | intros [H _]; discriminate]).
  rewrite andb_true_iff, andb_true_r.
  change (map (fun a => Z.of_N (N_of_ascii a))
              (String.list_ascii_of_string "class")) with (lit "class").
  rewrite matches_class_holds. tauto.
Qed.

Lemma falls_short_unqualified lookup : unqualified lookup <-> falls_short lookup.
Proof.
  unfold unqualified, falls_short.
  split; intros H e He; specialize (H e He);
    rewrite CleanFacts.clean_name_cleaned in *; exact H.
Qed.

End LookupFacts.

(** C7: [extract_product_name] never returns the empty string.  The
    three lookups are the first [h1] of the document, the first [h2]
    whose class holds "product" in whatever case, and the first [title];
    the text of a lookup is cleaned by trimming it, cutting it at the
    bar, narrow or wide, and at the hyphen and site name that stand on
    its last line, and trimming it again.  The name is the cleaned text
    of the first lookup whose cleaned text has more than three
    characters, and the unknown-name string when there is none.  On a
    text of one line the cleaning keeps what stands before the first bar
    and before the first hyphen and site name. *)
Theorem extract_product_name_first_qualifying (soup : BeautifulSoup) :
  let name := Extractor.extract_product_name soup in
  name <> []
  /\ (3 < length name)%nat
  /\ (exists h1 h2 title,
        first_such (fun e => tag_named (lit "h1") e = true) soup h1
        /\ first_such (fun e => tag_named (lit "h2") e = true
                                /\ class_holds (lit "product") e) soup h2
        /\ first_such (fun e => tag_named (lit "title") e = true) soup title
        /\ ((exists before element after,
                [h1; h2; title] = before ++ Some element :: after
                /\ Forall falls_short before
                /\ (3 < length (cleaned (get_text element)))%nat
                /\ name = cleaned (get_text element))
            \/ (Forall falls_short [h1; h2; title]
                /\ name = Extractor.unknown_name)))
  /\ (forall text,
        one_line (strip text) = true ->
        cleaned text = strip (before_site (before_bar (strip text)))).
Proof.
  cbv zeta.
  assert (Hlookups :
    exists h1 h2 title,
      Extractor.name_lookups soup = [h1; h2; title]
      /\ first_such (fun e => tag_named (lit "h1") e = true) soup h1
      /\ first_such (fun e => tag_named (lit "h2") e = true
                              /\ class_holds (lit "product") e) soup h2
      /\ first_such (fun e => tag_named (lit "title") e = true) soup title).
  { eexists _, _, _. split; [reflexivity|]. repeat split.
    - apply LookupFacts.find_first_such. apply LookupFacts.search_tag_named.
    - apply LookupFacts.find_first_such. apply LookupFacts.search_tag_class.
    - apply LookupFacts.find_first_such. apply LookupFacts.search_tag_named. }
  destruct Hlookups as (h1 & h2 & title & Hl & H1 & H2 & H3).
  unfold Extractor.extract_product_name.
  destruct (Extractor.first_name (Extractor.name_lookups soup))
    as [text|] eqn:Hf.
  - apply NameFacts.first_name_some in Hf.
    destruct Hf as (Hlen & b & e & a & Hb & Hshort & ->).
    split; [intros Hnil; rewrite Hnil in Hlen; simpl in Hlen; lia|].
    split; [exact Hlen|].
    split; [|apply CleanFacts.cleaned_one_line].
    exists h1, h2, title. repeat split; try assumption.
    left. exists b, e, a. rewrite <- Hl.
    rewrite <- CleanFacts.clean_name_cleaned. repeat split; auto.
    eapply Forall_impl; [|exact Hshort].
    intros x. apply LookupFacts.falls_short_unqualified.
  - apply NameFacts.first_name_none in Hf.
    split; [discriminate|]. split; [simpl; lia|].
    split; [|apply CleanFacts.cleaned_one_line].
    exists h1, h2, title. repeat split; try assumption.
    right. split; [|reflexivity]. rewrite <- Hl.
    eapply Forall_impl; [|exact Hf].
    intros x. apply LookupFacts.falls_short_unqualified.
Qed.

(** The [h1] is too short and the first [h2] has no class that holds
    the word: the name comes from the second [h2], cut at the bar. *)
Example name_from_second_lookup :
  Extractor.name_lookups page_three_lookups
  = [ Some (Tag (lit "h1") [] [ NavigableString (lit "TV") ]);
      Some (Tag (lit "h2")
                [ (lit "class", AttrList [lit "main"; lit "Product-Title"]) ]
                [ NavigableString (lit "Great TV 55 | shop") ]);
      Some (Tag (lit "title") []
                [ NavigableString (lit "Shop - " ++ Extractor.site_name) ]) ]
  /\ Extractor.extract_product_name page_three_lookups = lit "Great TV 55".
Proof. split; reflexivity. Qed.

(** *** The text of the history file *)

Module FileFacts.
Import Monitor.

Lemma escape_plain c : plain_char c = true -> escape_char c = [c].
Proof.
  unfold plain_char, escape_char. intros H.
  apply negb_true_iff in H. apply orb_false_iff in H. destruct H as [H H3].
  apply orb_false_iff in H. destruct H as [H1 H2].
  rewrite H1, H2, H3.
  assert (Hc : c < 0 \/ 32 <= c).
  { apply andb_false_iff in H3. destruct H3 as [H|H];
      [apply Z.leb_gt in H | apply Z.ltb_ge in H]; lia. }
  repeat match goal with
         | |- context [c =? ?n] =>
             replace (c =? n) with false by (symmetry; apply Z.eqb_neq; lia)
         end.
  reflexivity.
Qed.

Lemma encode_plain s :
  plain s = true -> encode_basestring s = 34 :: s ++ [34].
Proof.
  unfold encode_basestring, plain. intros H. f_equal. f_equal.
  induction s as [|c s IH]; [reflexivity|].
  simpl in H. apply andb_true_iff in H. destruct H as [Hc Hs].
  simpl. rewrite (escape_plain c Hc), (IH Hs). reflexivity.
Qed.

Lemma occurs_in_app part a whole b :
  occurs_in part whole -> occurs_in part (a ++ whole ++ b).
Proof.
  intros (x & y & ->). exists (a ++ x), (y ++ b).
  rewrite <- !app_assoc. reflexivity.
Qed.

Lemma occurs_in_self part : occurs_in part part.
Proof. exists [], []. rewrite app_nil_r. reflexivity. Qed.

Lemma occurs_in_trans a b c : occurs_in a b -> occurs_in b c -> occurs_in a c.
Proof.
  intros (x & y & ->) (x' & y' & ->).
  exists (x' ++ x), (y ++ y'). rewrite <- !app_assoc. reflexivity.
Qed.

Lemma dump_items_item d kv :
  In kv d -> occurs_in (dump_item kv) (dump_items d).
Proof.
  induction d as [|x d IH]; [intros []|].
  intros [->|Hin].
  - destruct d as [|y d]; [apply occurs_in_self|].
    exists [], (lit "," ++ [10] ++ dump_items (y :: d)). reflexivity.
  - destruct d as [|y d]; [destruct Hin|].
    change (dump_items (x :: y :: d))
      with (dump_item x ++ lit "," ++ [10] ++ dump_items (y :: d)).
    specialize (IH Hin).
    apply (occurs_in_app _ (dump_item x ++ lit "," ++ [10]) _ []) in IH.
    rewrite app_nil_r, <- !app_assoc in IH. exact IH.
Qed.

Lemma json_dump_item d kv :
  In kv d -> occurs_in (dump_item kv) (json_dump d).
Proof.
  intros Hin. pose proof (dump_items_item d kv Hin) as H.
  destruct d as [|x d]; [destruct Hin|].
  destruct H as (a & b & E).
  exists (lit "{" ++ [10] ++ a), (b ++ [10] ++ lit "}").
  unfold json_dump. rewrite E, <- !app_assoc. reflexivity.
Qed.

Lemma dump_item_name kv :
  occurs_in (encode_basestring (product_name (snd kv))) (dump_item kv).
Proof.
  exists (lit "  " ++ encode_basestring (fst kv) ++ lit ": "
          ++ lit "{" ++ [10]
          ++ lit "    " ++ encode_basestring (lit "url") ++ lit ": "
          ++ encode_basestring (url (snd kv)) ++ lit "," ++ [10]
          ++ lit "    " ++ encode_basestring (lit "price") ++ lit ": "
          ++ repr_int (price (snd kv)) ++ lit "," ++ [10]
          ++ lit "    " ++ encode_basestring (lit "product_name") ++ lit ": "),
         (lit "," ++ [10]
          ++ lit "    " ++ encode_basestring (lit "timestamp") ++ lit ": "
          ++ encode_basestring (timestamp (snd kv)) ++ [10]
          ++ lit "  }").
  unfold dump_item, dump_observation.
  repeat rewrite <- app_assoc. reflexivity.
Qed.

End FileFacts.

(** X22: [save_prices] writes the names as they are.  A product name
    without quote, backslash and control character, in whatever script,
    is written between two quotes with no escape, and stands so in the
    text of the file after [save_prices] has returned, for every entry
    of the store that has it. *)
Theorem plain_names_are_written_as_they_are
        (st st' : Monitor.State) (u : pystr) (entry : Monitor.Observation) :
  In (u, entry) (Monitor.previous_prices st) ->
  plain (Monitor.product_name entry) = true ->
  Monitor.save_prices st = Monitor.Return st' ->
  encode_basestring (Monitor.product_name entry)
  = 34 :: Monitor.product_name entry ++ [34]
  /\ exists text,
       Monitor.price_data_file st' = Some (Monitor.Text text)
       /\ occurs_in (34 :: Monitor.product_name entry ++ [34]) text.
Proof.
  intros Hin Hp Hs. pose proof (FileFacts.encode_plain _ Hp) as He.
  apply SaveFacts.save_prices_returns in Hs. destruct Hs as [_ ->].
  split; [exact He|]. eexists. split; [reflexivity|]. rewrite <- He.
  eapply FileFacts.occurs_in_trans;
    [apply (FileFacts.dump_item_name (u, entry))|].
  apply FileFacts.json_dump_item. exact Hin.
Qed.

Lemma plain_names_are_written_as_they_are_witness :
  exists st' text,
    Monitor.save_prices
      {| Monitor.previous_prices := [(url_x, stored_terebi)];
         Monitor.price_data_file := None;
         Monitor.out := [] |}
    = Monitor.Return st'
    /\ Monitor.price_data_file st' = Some (Monitor.Text text)
    /\ occurs_in (34 :: name_terebi ++ [34]) text.
Proof.
  destruct (Monitor.save_prices
              {| Monitor.previous_prices := [(url_x, stored_terebi)];
                 Monitor.price_data_file := None;
                 Monitor.out := [] |}) as [st'|e] eqn:Hs;
    [|vm_compute in Hs; discriminate].
  destruct (plain_names_are_written_as_they_are
              {| Monitor.previous_prices := [(url_x, stored_terebi)];
                 Monitor.price_data_file := None;
                 Monitor.out := [] |}
              st' url_x stored_terebi (or_introl eq_refl) eq_refl Hs)
    as (_ & text & Hf & Ho).
  exists st', text. split; [reflexivity|]. split; [exact Hf | exact Ho].
Defined.

(** *** The list of urls *)

Module SettingsFacts.
Import Settings.

Lemma split_comma_no_comma s piece :
  In piece (split_comma s) -> ~ In 44 piece.
Proof.
  revert piece; induction s as [|c s IH]; intros piece; simpl.
  - intros [<-|[]]; simpl; tauto.
  - destruct (c =? 44) eqn:E.
    + intros [<-|H]; [simpl; tauto | auto].
    + apply Z.eqb_neq in E.
      destruct (split_comma s) as [|p rest].
      * intros [<-|[]]. simpl. intros [H|[]]. congruence.
      * intros [<-|H].
        -- simpl. intros [H|H]; [congruence|]. apply (IH p); simpl; auto.
        -- apply IH; simpl; auto.
Qed.

Lemma split_comma_plain s : ~ In 44 s -> split_comma s = [s].
Proof.
  induction s as [|c s IH]; simpl; [reflexivity|].
  intros H. destruct (c =? 44) eqn:E; [apply Z.eqb_eq in E; tauto|].
  rewrite IH by tauto. reflexivity.
Qed.

Lemma split_comma_app piece s :
  ~ In 44 piece -> split_comma (piece ++ 44 :: s) = piece :: split_comma s.
Proof.
  induction piece as [|c piece IH]; simpl; [reflexivity|].
  intros H. destruct (c =? 44) eqn:E; [apply Z.eqb_eq in E; tauto|].
  rewrite IH by tauto. reflexivity.
Qed.

(** [split] undoes [join] when no piece holds a comma *)
Lemma split_join pieces :
  pieces <> [] -> Forall (fun p => ~ In 44 p) pieces ->
  split_comma (join_comma pieces) = pieces.
Proof.
  induction pieces as [|p rest IH]; [tauto|].
  intros _ H. inversion H as [|? ? Hp Hrest]; subst.
  destruct rest as [|q rest].
  - simpl. apply split_comma_plain; exact Hp.
  - change (join_comma (p :: q :: rest))
      with (p ++ 44 :: join_comma (q :: rest)).
    rewrite split_comma_app by exact Hp.
    rewrite IH; [reflexivity | discriminate | exact Hrest].
Qed.

Lemma split_comma_blank s :
  forallb blank_or_comma s = true ->
  Forall (fun p => blank p = true) (split_comma s).
Proof.
  induction s as [|c s IH]; simpl.
  - intros _; repeat constructor.
  - intros H. apply andb_true_iff in H. destruct H as [Hc Hs].
    specialize (IH Hs).
    destruct (c =? 44) eqn:E.
    + constructor; [reflexivity | exact IH].
    + unfold blank_or_comma in Hc. rewrite E, orb_false_r in Hc.
      destruct (split_comma s) as [|p rest].
      * repeat constructor. simpl. rewrite Hc. reflexivity.
      * inversion IH; subst. constructor; [|assumption].
        simpl. rewrite Hc. assumption.
Qed.

(** every character but the commas is in some piece *)
Lemma split_comma_covers s : forall c,
  In c s -> c <> 44 -> exists p, In p (split_comma s) /\ In c p.
Proof.
  induction s as [|x s IH]; intros c; simpl; [tauto|].
  intros [->|Hin] Hc.
  - destruct (c =? 44) eqn:E; [apply Z.eqb_eq in E; tauto|].
    destruct (split_comma s) as [|p rest];
      eexists; split; simpl; eauto; simpl; auto.
  - destruct (IH c Hin Hc) as (p & Hp & Hcp).
    destruct (x =? 44); [exists p; simpl; auto|].
    destruct (split_comma s) as [|q rest]; [destruct Hp|].
    destruct Hp as [->|Hp].
    + exists (x :: p); simpl; auto.
    + exists p; simpl; auto.
Qed.

Lemma blank_no_comma b : blank b = true -> ~ In 44 b.
Proof.
  intros Hb Hin. unfold blank in Hb. rewrite forallb_forall in Hb.
  specialize (Hb _ Hin). discriminate.
Qed.

Lemma urls_nil_iff MONITOR_URLS :
  urls MONITOR_URLS = []
  <-> forallb blank_or_comma (environ_get MONITOR_URLS []) = true.
Proof.
  unfold urls. cbv zeta.
  set (s := environ_get MONITOR_URLS []). split.
  - intros H. apply forallb_forall. intros c Hc.
    unfold blank_or_comma. destruct (c =? 44) eqn:E; [apply orb_true_r|].
    apply Z.eqb_neq in E.
    destruct (split_comma_covers s c Hc E) as (p & Hp & Hcp).
    apply map_eq_nil in H.
    assert (Hf : ~ In p (filter (fun url => negb (PyStr.eqb (strip url) []))
                                (split_comma s)))
      by (rewrite H; simpl; tauto).
    rewrite filter_In in Hf.
    destruct (PyStr.eqb (strip p) []) eqn:Es.
    + apply PyStrFacts.eqb_eq, StripFacts.strip_nil_blank in Es.
      unfold blank in Es. rewrite forallb_forall in Es.
      rewrite (Es _ Hcp). reflexivity.
    + exfalso; apply Hf; auto.
  - intros H. apply split_comma_blank in H.
    induction H as [|p l Hp Hl IH]; [reflexivity|].
    cbn [filter]. rewrite (StripFacts.strip_blank _ Hp). simpl. exact IH.
Qed.

End SettingsFacts.

(** X23: every url of the list that [__init__] builds from
    [MONITOR_URLS] is non-empty, has no white space at either end and
    holds no comma. *)
Theorem configured_urls_are_trimmed
        (MONITOR_URLS : option pystr) (u : pystr) :
  In u (Settings.urls MONITOR_URLS) -> listed_url u.
Proof.
  unfold Settings.urls. cbv zeta. intros H.
  apply in_map_iff in H. destruct H as (piece & <- & H).
  apply filter_In in H. destruct H as [Hin Hne].
  apply negb_true_iff, PyStrFacts.eqb_neq in Hne.
  split; [exact Hne|]. split; [apply StripFacts.strip_no_outer_space|].
  intros Hc. apply StripFacts.strip_subset in Hc.
  exact (SettingsFacts.split_comma_no_comma _ _ Hin Hc).
Qed.

Lemma configured_urls_are_trimmed_witness :
  Settings.urls two_urls = [url_x; url_y] /\ listed_url url_y.
Proof.
  split; [reflexivity|].
  apply (configured_urls_are_trimmed two_urls url_y).
  right; left; reflexivity.
Defined.

(** X24: urls written one after the other with commas between them, each
    with any white space around it, are read back as they are, in their
    order: the list that [__init__] builds is the list of these urls. *)
Theorem configured_urls_round_trip (entries : list (pystr * pystr * pystr)) :
  Forall well_written entries ->
  Settings.urls (Some (join_comma (map written entries)))
  = map (fun entry => snd (fst entry)) entries.
Proof.
  intros H. unfold Settings.urls. cbv zeta. simpl Settings.environ_get.
  destruct entries as [|e entries]; [reflexivity|].
  rewrite SettingsFacts.split_join.
  - induction H as [|[[b u] a] l (Hb & Ha & Hne & Hsp & Hc) Hl IH];
      [reflexivity|].
    cbn [map filter written fst snd].
    rewrite (StripFacts.strip_padded b u a Hb Ha Hsp).
    destruct (PyStr.eqb u []) eqn:E;
      [apply PyStrFacts.eqb_eq in E; contradiction|].
    cbn [negb map]. rewrite (StripFacts.strip_padded b u a Hb Ha Hsp).
    f_equal. exact IH.
  - discriminate.
  - rewrite Forall_map. revert H. apply Forall_impl.
    intros [[b u] a] (Hb & Ha & _ & _ & Hc). simpl.
    rewrite !in_app_iff. intros [Hin|[Hin|Hin]];
      [exact (SettingsFacts.blank_no_comma _ Hb Hin) | exact (Hc Hin)
       | exact (SettingsFacts.blank_no_comma _ Ha Hin)].
Qed.

Lemma configured_urls_round_trip_witness :
  Settings.urls
    (Some (join_comma (map written [(lit " ", url_x, lit "  "); ([], url_y, [])])))
  = [url_x; url_y].
Proof.
  apply (configured_urls_round_trip
           [(lit " ", url_x, lit "  "); ([], url_y, [])]).
  repeat constructor; simpl; try discriminate;
    intros H; repeat (destruct H as [H|H]; [discriminate|]); exact H.
Defined.

(** X25: the list of urls is empty exactly when [MONITOR_URLS] is not
    set or holds nothing but commas and white space; the monitor then
    prints one line and returns: no page is fetched, nothing is posted,
    the store and the file stay as they are. *)
Theorem blank_url_list_stops_monitor
        (MONITOR_URLS : option pystr) (webhook : pystr) (interval : Z)
        (env : Monitor.Environment) (n : nat) (st : Monitor.State) :
  let cfg := {| Monitor.discord_webhook := webhook;
                Monitor.urls := Settings.urls MONITOR_URLS;
                Monitor.check_interval := interval |} in
  (Settings.urls MONITOR_URLS = []
   <-> forallb blank_or_comma (Settings.environ_get MONITOR_URLS []) = true)
  /\ (Settings.urls MONITOR_URLS = [] ->
      Monitor.monitor cfg env n st
      = Monitor.Return (Monitor.print Monitor.LogNoUrls st))
  /\ Settings.urls None = [].
Proof.
  cbv zeta. split; [apply SettingsFacts.urls_nil_iff|].
  split; [|reflexivity].
  intros H. unfold Monitor.monitor. simpl. rewrite H. reflexivity.
Qed.
